(** * s3db: a document store on top of an object-storage key space

    Shallow embedding of the class [S3db] and of [getS3dbConfig]
    ([src/util.ts]), together with the platform functions they rely on
    ([JSON.stringify], [JSON.parse], [String.prototype.replace],
    [String.prototype.split], template literals, [Set], [Promise.all],
    [tiny-invariant]).

    The sources hold three variants of the class. The embedding follows the
    one that goes with [src/util.ts] and the README (it imports
    [streamToString] from [./util], and [S3db.initialize] creates a missing
    bucket or collection folder): [src/unnamed/part_001]. The variant of
    [src/unnamed/part_002] has the same methods except for a strict
    [initialize]. The variant of [src/s3db.ts] binds the names in its
    constructor; its [getDBEntries] and [uploadDBDocument] differ and are
    kept in [Module Legacy]. The type [S3dbDocument] of [./type] is not
    among the sources; the other two variants declare it as an object type
    with [id: string].

    Conventions.
    - A JavaScript string is a [string]; texts handled by the JSON codec are
      unfolded to [list ascii] (the bytes of the UTF-8 encoding, a surrogate
      that stands alone taking the three bytes of its code unit).
    - A Number is an IEEE 754 binary64 value ([Number.t]).
    - The members of an object come in the order of its property keys.
    - [string | undefined] is [option string]; JavaScript truthiness is made
      explicit ([truthy]).
    - A [Promise] is a tree of requests to the object-storage client: the
      program either resolves, rejects, or awaits the answer to one request.
      Running a promise against a server yields the result, the final server
      state and the list of requests that were issued, in order.
    - [console.info] calls have no effect on results and are left out. *)

From Stdlib Require Import ZArith List Ascii String Bool Lia.
From stdpp Require Import base option list strings gmap.

Local Open Scope string_scope.
Local Open Scope list_scope.

(* ===================================================================== *)
(** ** JavaScript string primitives used by the sources                   *)
(* ===================================================================== *)

Module JS.

(** Truthiness of a [string | undefined] value: [undefined] and the empty
    string are falsy. *)
Definition truthy (s : option string) : bool :=
  match s with
  | Some s => negb (String.eqb s "")
  | None => false
  end.

(** [`${s}`] for a [string | undefined] value. *)
Definition template (s : option string) : string :=
  match s with
  | Some s => s
  | None => "undefined"
  end.

(** [a || b] on [string | undefined] with a string fallback. *)
Definition or_else (s : option string) (d : string) : string :=
  if truthy s then template s else d.

Fixpoint drop_chars (n : nat) (s : string) : string :=
  match n, s with
  | O, _ => s
  | S _, EmptyString => EmptyString
  | S n, String _ s => drop_chars n s
  end.

(** [s.replace(pat, "")] with a string pattern: the first occurrence of
    [pat] in [s] (the lowest index, possibly 0 for the empty pattern) is
    removed; without an occurrence [s] is returned unchanged. *)
Fixpoint replace_first (pat s : string) : string :=
  if String.prefix pat s then drop_chars (String.length pat) s
  else match s with
       | EmptyString => EmptyString
       | String c s' => String c (replace_first pat s')
       end.

(** [s.split(sep)] for a one-character separator. The result is never
    empty: a string without separator is its own single segment. *)
Fixpoint split (sep : ascii) (s : string) : list string :=
  match s with
  | EmptyString => [EmptyString]
  | String c s' =>
      if Ascii.eqb c sep then EmptyString :: split sep s'
      else match split sep s' with
           | x :: xs => String c x :: xs
           | [] => [String c EmptyString]
           end
  end.

(** [xs[i]] on an array of strings: [undefined] out of range. *)
Definition index (xs : list string) (i : nat) : option string := xs !! i.

(** Does the string contain the character? *)
Fixpoint contains (c : ascii) (s : string) : bool :=
  match s with
  | EmptyString => false
  | String d s' => Ascii.eqb d c || contains c s'
  end.

(** A JavaScript [Set<string>] keeps insertion order and ignores a value
    that is already a member; [[...set]] lists the members in that order. *)
Definition set_add (x : string) (s : list string) : list string :=
  if bool_decide (x ∈ s) then s else s ++ [x].

End JS.

(* ===================================================================== *)
(** ** The Number values of JavaScript                                    *)
(* ===================================================================== *)

(** A Number is an IEEE 754 binary64 value. A finite value is
    [m * 2^e] with a sign; it is written with the exponent of its binade
    ([2^52 <= m < 2^53], or [e = -1074] for zero and the subnormal values),
    so that every value has one representation ([canonical]).
    [round] is the rounding to nearest, ties to even, that the language
    uses where a decimal numeral denotes a Number; [text] is
    [Number::toString] in radix 10: the shortest decimal numeral that
    denotes the Number, the closest one among those of that length. *)

Module Number.

Local Open Scope Z_scope.

Inductive t : Type :=
| NaN
| Infinity (negative : bool)
| Finite (negative : bool) (m e : Z).

Definition eqb (x y : t) : bool :=
  match x, y with
  | NaN, NaN => true
  | Infinity a, Infinity b => Bool.eqb a b
  | Finite a m e, Finite b m' e' => Bool.eqb a b && (m =? m') && (e =? e')
  | _, _ => false
  end.

Definition canonical (x : t) : bool :=
  match x with
  | Finite _ m e =>
      (0 <=? m) && (m <? 2 ^ 53) && (-1074 <=? e) && (e <=? 971)
      && ((2 ^ 52 <=? m) || (e =? -1074))
  | _ => true
  end.

Definition zero (negative : bool) : t := Finite negative 0 (-1074).

Definition is_finite (x : t) : bool :=
  match x with Finite _ _ _ => true | _ => false end.

(** [ToBoolean]: [NaN], [+0] and [-0] are falsy. *)
Definition truthy (x : t) : bool :=
  match x with
  | NaN => false
  | Infinity _ => true
  | Finite _ m _ => negb (m =? 0)
  end.

(** The Numbers that a JSON text carries: the finite ones but [-0], which
    is written as [0]. *)
Definition serializable (x : t) : bool :=
  canonical x && is_finite x && negb (eqb x (zero true)).

(** The exponent [l] of the power of two with [2^l <= num / den < 2^(l+1)],
    for positive [num] and [den]: the quotient is taken after a shift that
    makes it at least 1. *)
Definition log2_ratio (num den : Z) : Z :=
  let k := Z.log2 den + 1 in
  Z.log2 (num * 2 ^ k / den) - k.

(** The Number nearest to [num / den], for positive [num] and [den]; of
    two that are equally near, the one with the even significand. *)
Definition round (negative : bool) (num den : Z) : t :=
  let e := Z.max (log2_ratio num den - 52) (-1074) in
  let a := if 0 <=? e then num else num * 2 ^ (- e) in
  let b := if 0 <=? e then den * 2 ^ e else den in
  let q := a / b in
  let r := a mod b in
  let up := (b <? 2 * r) || ((b =? 2 * r) && Z.odd q) in
  let m := if up then q + 1 else q in
  let carry := m =? 2 ^ 53 in
  let m := if carry then 2 ^ 52 else m in
  let e := if carry then e + 1 else e in
  if 971 <? e then Infinity negative else Finite negative m e.

(** The Number that the numeral [digits * 10^exponent] denotes. *)
Definition of_decimal (negative : bool) (digits exponent : Z) : t :=
  if digits =? 0 then zero negative
  else if 0 <=? exponent then round negative (digits * 10 ^ exponent) 1
  else round negative digits (10 ^ (- exponent)).

Definition of_Z (n : Z) : t := of_decimal (n <? 0) (Z.abs n) 0.

(** *** Decimal numerals *)

Definition digit_char (d : Z) : ascii := ascii_of_N (Z.to_N (48 + d)).

Definition digit_of (c : ascii) : option Z :=
  let n := Z.of_N (N_of_ascii c) in
  if (48 <=? n) && (n <=? 57) then Some (n - 48) else None.

Definition digit (d : Z) : Prop := 0 <= d <= 9.

(** The integer that a list of digits denotes. *)
Definition value_of (ds : list Z) : Z := fold_left (fun a d => 10 * a + d) ds 0.

(** The last [k] digits of [n]. *)
Fixpoint last_digits (k : nat) (n : Z) : list Z :=
  match k with
  | O => []
  | S k => last_digits k (n / 10) ++ [n mod 10]
  end.

(** The digits without the zeros that come before the first of them. *)
Fixpoint drop_zeros (ds : list Z) : list Z :=
  match ds with
  | d :: (_ :: _) as ds' => if d =? 0 then drop_zeros ds' else ds
  | _ => ds
  end.

(** The digits of a natural number, no more than it has bits. *)
Definition digits (n : Z) : list Z :=
  drop_zeros (last_digits (S (Z.to_nat (Z.log2 n))) n).

Definition digits_of_Z (n : Z) : list ascii := map digit_char (digits n).

(** The longest run of digits at the head of the text. *)
Fixpoint read_digits (s : list ascii) : list Z * list ascii :=
  match s with
  | [] => ([], [])
  | c :: r =>
      match digit_of c with
      | Some d => let '(ds, r') := read_digits r in (d :: ds, r')
      | None => ([], s)
      end
  end.

(** What ends a run of digits. *)
Definition digits_stop (s : list ascii) : Prop :=
  match s with
  | [] => True
  | c :: _ => digit_of c = None
  end.

(** The integer part of a numeral: the digit 0, or digits that do not
    start with 0. *)
Definition plain (int : list Z) : bool :=
  match int with
  | [] => false
  | [_] => true
  | d :: _ => negb (d =? 0)
  end.

(** The optional minus sign of a numeral. *)
Definition read_sign (s : list ascii) : bool * list ascii :=
  match s with
  | c :: r => if Ascii.eqb c "-" then (true, r) else (false, s)
  | [] => (false, s)
  end.

(** The optional fraction: a point and at least one digit. *)
Definition read_fraction (s : list ascii) : option (list Z * list ascii) :=
  match s with
  | c :: r =>
      if Ascii.eqb c "." then
        match read_digits r with
        | ([], _) => None
        | (ds, r') => Some (ds, r')
        end
      else Some ([], s)
  | [] => Some ([], s)
  end.

(** The optional exponent: [e] or [E], an optional sign, at least one
    digit. *)
Definition read_exponent (s : list ascii) : option (Z * list ascii) :=
  match s with
  | c :: r =>
      if Ascii.eqb c "e" || Ascii.eqb c "E" then
        let '(negative, r1) :=
          match r with
          | c1 :: r' =>
              if Ascii.eqb c1 "-" then (true, r')
              else if Ascii.eqb c1 "+" then (false, r')
              else (false, r)
          | [] => (false, r)
          end in
        match read_digits r1 with
        | ([], _) => None
        | (ds, r2) => Some (if negative then - value_of ds else value_of ds, r2)
        end
      else Some (0, s)
  | [] => Some (0, s)
  end.

(** A numeral of the JSON grammar at the head of the text, and the Number
    that it denotes: an optional minus sign; the digit 0, or digits that do
    not start with 0; optionally a point and digits; optionally [e] or [E],
    a sign and digits. *)
Definition of_token (s : list ascii) : option (t * list ascii) :=
  let '(negative, s1) := read_sign s in
  let '(int, s2) := read_digits s1 in
  if plain int then
    match read_fraction s2 with
    | Some (frac, s3) =>
        match read_exponent s3 with
        | Some (exponent, s4) =>
            let places := Z.of_nat (length frac) in
            Some (of_decimal negative (value_of (int ++ frac)) (exponent - places), s4)
        | None => None
        end
    | None => None
    end
  else None.

(** What may follow a numeral in a text: nothing that could continue it. *)
Definition number_stop (s : list ascii) : bool :=
  match s with
  | [] => true
  | c :: _ =>
      match digit_of c with
      | Some _ => false
      | None =>
          negb (Ascii.eqb c "." || Ascii.eqb c "e" || Ascii.eqb c "E"
                || Ascii.eqb c "+" || Ascii.eqb c "-")
      end
  end.

(** *** [Number::toString] *)

(** [num / den < 10^n], for positive [num] and [den]. *)
Definition below_pow10 (num den n : Z) : bool :=
  if 0 <=? n then num <? den * 10 ^ n else num * 10 ^ (- n) <? den.

(** The least [n] from [n] on with [num / den < 10^n]. *)
Fixpoint magnitude_from (fuel : nat) (num den n : Z) : Z :=
  match fuel with
  | O => n
  | S fuel =>
      if below_pow10 num den n then n else magnitude_from fuel num den (n + 1)
  end.

(** The [n] with [10^(n-1) <= num / den < 10^n]. The search starts below
    it: [num / den] is at least [2^l] for [l] the difference of the bit
    lengths less one, and [30103 / 100000] is above the decimal logarithm
    of 2 by less than one part in [10^8]. *)
Definition magnitude (num den : Z) : Z :=
  let l := Z.log2 num - Z.log2 den - 1 in
  magnitude_from 8 num den (l * 30103 / 100000 - 1).

(** [s] has [k] digits and [s * 10^(n-k)] denotes [x]: the condition of
    [Number::toString] on the digits [s] and the magnitude [n]. *)
Definition denotes (x : t) (k : Z) (c : Z * Z) : bool :=
  let '(s, n) := c in
  (10 ^ (k - 1) <=? s) && (s <? 10 ^ k) && eqb (of_decimal false s (n - k)) x.

(** The numeral of [k] digits for the positive Number [x = num / den] of
    magnitude [n], if there is one: the digits [s] and the magnitude of
    [s * 10^(n-k)]. The two candidates are the numerals of [k] digits
    next to [x]; of two that denote [x] the closer one is taken, the even
    one when they are equally close. *)
Definition numeral (x : t) (num den n k : Z) : option (Z * Z) :=
  let a := if 0 <=? n - k then num else num * 10 ^ (k - n) in
  let b := if 0 <=? n - k then den * 10 ^ (n - k) else den in
  let lo := a / b in
  let r := a mod b in
  let below := (lo, n) in
  let above := if lo + 1 =? 10 ^ k then (10 ^ (k - 1), n + 1) else (lo + 1, n) in
  match denotes x k below, denotes x k above with
  | true, true =>
      if (2 * r <? b) || ((2 * r =? b) && Z.even lo) then Some below else Some above
  | true, false => Some below
  | false, true => Some above
  | false, false => None
  end.

(** The decimal expansion of [m * 2^e] in full. *)
Definition expansion (m e : Z) : Z * Z * Z :=
  let s := if 0 <=? e then m * 2 ^ e else m * 5 ^ (- e) in
  let k := Z.of_nat (length (digits s)) in
  (s, k, if 0 <=? e then k else k + e).

(** The shortest numeral: lengths [k], [k+1], ... are tried in turn.
    Seventeen digits always suffice for a binary64 value; the last
    alternative, the expansion in full, keeps the function total. *)
Fixpoint shortest_from (fuel : nat) (m e num den n k : Z) : Z * Z * Z :=
  match fuel with
  | O => expansion m e
  | S fuel =>
      match numeral (Finite false m e) num den n k with
      | Some (s, n') => (s, k, n')
      | None => shortest_from fuel m e num den n (k + 1)
      end
  end.

(** The digits [s], their number [k] and the magnitude [n] of
    [Number::toString] for the positive finite Number [m * 2^e]. *)
Definition shortest (m e : Z) : Z * Z * Z :=
  let num := if 0 <=? e then m * 2 ^ e else m in
  let den := if 0 <=? e then 1 else 2 ^ (- e) in
  shortest_from 17 m e num den (magnitude num den) 1.

(** [s] of [k] digits and the magnitude [n] make a numeral of the positive
    Number [m * 2^e]. *)
Definition numeral_of (m e : Z) (c : Z * Z * Z) : Prop :=
  let '(s, k, n) := c in
  1 <= k /\ 10 ^ (k - 1) <= s < 10 ^ k
  /\ of_decimal false s (n - k) = Finite false m e.

(** Steps 6 to 10 of [Number::toString] on the [k] digits [ds]: plain
    notation for magnitudes from -5 to 21, exponent notation otherwise. *)
Definition layout (ds : list ascii) (k n : Z) : list ascii :=
  if (k <=? n) && (n <=? 21) then ds ++ repeat "0"%char (Z.to_nat (n - k))
  else if (0 <? n) && (n <=? 21) then
    firstn (Z.to_nat n) ds ++ "."%char :: skipn (Z.to_nat n) ds
  else if (-6 <? n) && (n <=? 0) then
    "0"%char :: "."%char :: repeat "0"%char (Z.to_nat (- n)) ++ ds
  else
    let exponent :=
      "e"%char :: (if n - 1 <? 0 then "-"%char else "+"%char)
        :: digits_of_Z (Z.abs (n - 1)) in
    match ds with
    | [] => exponent
    | [d] => d :: exponent
    | d :: rest => d :: "."%char :: rest ++ exponent
    end.

Definition text (x : t) : list ascii :=
  match x with
  | NaN => list_ascii_of_string "NaN"
  | Infinity false => list_ascii_of_string "Infinity"
  | Infinity true => list_ascii_of_string "-Infinity"
  | Finite negative m e =>
      if m =? 0 then ["0"%char]
      else
        let '(s, k, n) := shortest m e in
        (if negative then ["-"%char] else [])
          ++ layout (map digit_char (last_digits (Z.to_nat k) s)) k n
  end.

(** [String(x)], [`${x}`] *)
Definition toString (x : t) : string := string_of_list_ascii (text x).

End Number.

(* ===================================================================== *)
(** ** JSON values, [JSON.stringify(v, null, 4)] and [JSON.parse]         *)
(* ===================================================================== *)

(** A value is what [JSON.parse] can return, and a Number may also be one
    of the values that have no JSON text ([NaN], the infinities), which
    [JSON.stringify] writes as [null]. An object is the list of its own
    enumerable properties in enumeration order; a JavaScript object never
    has two properties with the same name. A string is the sequence of the
    bytes of its UTF-8 encoding; a surrogate code unit that stands alone
    has the three bytes that the same scheme gives it. *)

Module JSON.

#[local] Set Warnings "-register-all".

Inductive value : Type :=
| JNull
| JBool (b : bool)
| JNum (x : Number.t)
| JStr (s : string)
| JArr (items : list value)
| JObj (members : list (string * value)).

Abbreviation object := (list (string * value)).

(** [o[k]] *)
Fixpoint get (k : string) (o : object) : option value :=
  match o with
  | [] => None
  | (k', v) :: o' => if String.eqb k' k then Some v else get k o'
  end.

(** [k in o] *)
Definition has (k : string) (o : object) : bool :=
  match get k o with Some _ => true | None => false end.

(** [{ ...o, k: v }] : an existing property keeps its position and takes
    the new value, a new property goes last. *)
Fixpoint set (k : string) (v : value) (o : object) : object :=
  match o with
  | [] => [(k, v)]
  | (k', v') :: o' =>
      if String.eqb k' k then (k', v) :: o' else (k', v') :: set k v o'
  end.

(** Truthiness of a property value that may be missing ([undefined]). *)
Definition truthy (v : option value) : bool :=
  match v with
  | None => false
  | Some JNull => false
  | Some (JBool b) => b
  | Some (JNum x) => Number.truthy x
  | Some (JStr s) => negb (String.eqb s "")
  | Some (JArr _) => true
  | Some (JObj _) => true
  end.

(** *** Characters *)

Definition dquote : ascii := "034"%char.
Definition backslash : ascii := "092"%char.
Definition newline : ascii := "010"%char.
Definition space : ascii := " "%char.

Definition is_ws (c : ascii) : bool :=
  Ascii.eqb c " " || Ascii.eqb c "009" || Ascii.eqb c "010" || Ascii.eqb c "013".

Definition chars (s : string) : list ascii := list_ascii_of_string s.

(** *** Number literals *)

Definition parse_number (s : list ascii) : option (value * list ascii) :=
  match Number.of_token s with
  | Some (x, rest) => Some (JNum x, rest)
  | None => None
  end.

(** [SerializeJSONProperty] on a Number: a Number that is not finite is
    written as [null]. *)
Definition number_text (x : Number.t) : list ascii :=
  if Number.is_finite x then Number.text x else chars "null".

(** *** String literals *)

Definition hex_char (n : nat) : ascii :=
  nth n (chars "0123456789abcdef") "0"%char.

(** [QuoteJSONString] on a character that is written in one byte. *)
Definition escape_char (c : ascii) : list ascii :=
  let n := nat_of_ascii c in
  if Ascii.eqb c dquote then [backslash; dquote]
  else if Ascii.eqb c backslash then [backslash; backslash]
  else if Nat.eqb n 8 then [backslash; "b"%char]
  else if Nat.eqb n 12 then [backslash; "f"%char]
  else if Nat.eqb n 10 then [backslash; "n"%char]
  else if Nat.eqb n 13 then [backslash; "r"%char]
  else if Nat.eqb n 9 then [backslash; "t"%char]
  else if Nat.ltb n 32 then
    [backslash; "u"%char; "0"%char; "0"%char; hex_char (n / 16); hex_char (n mod 16)]
  else [c].

(** The surrogate code unit that the three bytes stand for, if they stand
    for one. *)
Definition lone_surrogate (c1 c2 c3 : ascii) : option N :=
  let n2 := N_of_ascii c2 in
  let n3 := N_of_ascii c3 in
  if (Ascii.eqb c1 "237" && N.leb 160 n2 && N.leb n2 191 && N.leb 128 n3 && N.leb n3 191)%bool
  then Some (53248 + (n2 - 128) * 64 + (n3 - 128))%N
  else None.

(** [UnicodeEscape]: the code unit in four lower-case hexadecimal digits. *)
Definition unicode_escape (u : N) : list ascii :=
  [backslash; "u"%char;
   hex_char (N.to_nat (u / 4096)); hex_char (N.to_nat ((u / 256) mod 16));
   hex_char (N.to_nat ((u / 16) mod 16)); hex_char (N.to_nat (u mod 16))]%N.

(** [QuoteJSONString] without the quotes: a surrogate that stands alone is
    written as an escape, every other character as [escape_char] has it or
    as it is. *)
Fixpoint escape_string (s : list ascii) : list ascii :=
  match s with
  | [] => []
  | c1 :: t =>
      match t with
      | c2 :: c3 :: r =>
          match lone_surrogate c1 c2 c3 with
          | Some u => unicode_escape u ++ escape_string r
          | None => escape_char c1 ++ escape_string t
          end
      | _ => escape_char c1 ++ escape_string t
      end
  end.

Definition quote (s : string) : list ascii :=
  dquote :: escape_string (chars s) ++ [dquote].

Definition hex_val (c : ascii) : option N :=
  let n := N_of_ascii c in
  if N.leb 48 n && N.leb n 57 then Some (n - 48)%N
  else if N.leb 97 n && N.leb n 102 then Some (n - 87)%N
  else if N.leb 65 n && N.leb n 70 then Some (n - 55)%N
  else None.

Definition hex4 (h1 h2 h3 h4 : ascii) : option N :=
  match hex_val h1, hex_val h2, hex_val h3, hex_val h4 with
  | Some a, Some b, Some c, Some d => Some (((a * 16 + b) * 16 + c) * 16 + d)%N
  | _, _, _, _ => None
  end.

Definition is_high (u : N) : bool := N.leb 55296 u && N.leb u 56319.
Definition is_low (u : N) : bool := N.leb 56320 u && N.leb u 57343.

(** The bytes of a code point, or of a surrogate code unit that stands
    alone, in UTF-8. *)
Definition utf8 (code : N) : list ascii :=
  (if code <? 128 then [ascii_of_N code]
   else if code <? 2048 then
     [ascii_of_N (192 + code / 64); ascii_of_N (128 + code mod 64)]
   else if code <? 65536 then
     [ascii_of_N (224 + code / 4096);
      ascii_of_N (128 + (code / 64) mod 64);
      ascii_of_N (128 + code mod 64)]
   else
     [ascii_of_N (240 + code / 262144);
      ascii_of_N (128 + (code / 4096) mod 64);
      ascii_of_N (128 + (code / 64) mod 64);
      ascii_of_N (128 + code mod 64)])%N.

Definition unescape (e : ascii) : option ascii :=
  if Ascii.eqb e dquote then Some dquote
  else if Ascii.eqb e backslash then Some backslash
  else if Ascii.eqb e "/" then Some "/"%char
  else if Ascii.eqb e "b" then Some "008"%char
  else if Ascii.eqb e "f" then Some "012"%char
  else if Ascii.eqb e "n" then Some "010"%char
  else if Ascii.eqb e "r" then Some "013"%char
  else if Ascii.eqb e "t" then Some "009"%char
  else None.

(** The low surrogate that an escape at the head of the text names. *)
Definition low_escape (s : list ascii) : option N :=
  match s with
  | b :: u :: g1 :: g2 :: g3 :: g4 :: _ =>
      if Ascii.eqb b backslash && Ascii.eqb u "u" then
        match hex4 g1 g2 g3 g4 with
        | Some v => if is_low v then Some v else None
        | None => None
        end
      else None
  | _ => None
  end.

(** The body of a string literal, after the opening quote, up to and
    including the closing quote. The escape of a high surrogate that is
    followed by the escape of a low surrogate names one code point;
    any other escape of four digits names its code unit. *)
Fixpoint parse_string (s : list ascii) : option (list ascii * list ascii) :=
  match s with
  | [] => None
  | c :: r =>
      if Ascii.eqb c dquote then Some ([], r)
      else if Ascii.eqb c backslash then
        match r with
        | [] => None
        | e :: r1 =>
            if Ascii.eqb e "u" then
              match r1 with
              | h1 :: h2 :: h3 :: h4 :: r2 =>
                  match hex4 h1 h2 h3 h4 with
                  | Some u =>
                      let alone :=
                        match parse_string r2 with
                        | Some (str, rest) => Some (utf8 u ++ str, rest)
                        | None => None
                        end in
                      if is_high u then
                        match low_escape r2, r2 with
                        | Some v, _ :: _ :: _ :: _ :: _ :: _ :: r3 =>
                            match parse_string r3 with
                            | Some (str, rest) =>
                                Some (utf8 (65536 + (u - 55296) * 1024 + (v - 56320))%N
                                        ++ str, rest)
                            | None => None
                            end
                        | _, _ => alone
                        end
                      else alone
                  | None => None
                  end
              | _ => None
              end
            else
              match unescape e, parse_string r1 with
              | Some x, Some (str, rest) => Some (x :: str, rest)
              | _, _ => None
              end
        end
      else if Nat.ltb (nat_of_ascii c) 32 then None
      else
        match parse_string r with
        | Some (str, rest) => Some (c :: str, rest)
        | None => None
        end
  end.

(** *** Printer: [JSON.stringify(v, null, 4)] *)

Definition gap : nat := 4.

Definition indentation (n : nat) : list ascii := repeat space n.

Fixpoint join (sep : list ascii) (parts : list (list ascii)) : list ascii :=
  match parts with
  | [] => []
  | [p] => p
  | p :: ps => p ++ sep ++ join sep ps
  end.

(** [SerializeJSONProperty] with a non-empty gap: [indent] is the current
    indentation (the "stepback" of the nested structures). *)
Fixpoint stringify_at (indent : nat) (v : value) : list ascii :=
  match v with
  | JNull => chars "null"
  | JBool true => chars "true"
  | JBool false => chars "false"
  | JNum x => number_text x
  | JStr s => quote s
  | JArr [] => chars "[]"
  | JArr items =>
      let inner := indent + gap in
      "["%char :: newline :: indentation inner
        ++ join ("," %char :: newline :: indentation inner)
                (map (stringify_at inner) items)
        ++ newline :: indentation indent ++ ["]"%char]
  | JObj [] => chars "{}"
  | JObj members =>
      let inner := indent + gap in
      "{"%char :: newline :: indentation inner
        ++ join ("," %char :: newline :: indentation inner)
                (map (fun kv => quote (fst kv) ++ ":"%char :: space
                                  :: stringify_at inner (snd kv)) members)
        ++ newline :: indentation indent ++ ["}"%char]
  end.

Definition stringify (v : value) : string :=
  string_of_list_ascii (stringify_at 0 v).

(** *** Parser: [JSON.parse] *)

Fixpoint skip_ws (s : list ascii) : list ascii :=
  match s with
  | c :: r => if is_ws c then skip_ws r else s
  | [] => []
  end.

(** Strip a literal from the head of the text. *)
Fixpoint expect (lit s : list ascii) : option (list ascii) :=
  match lit, s with
  | [], _ => Some s
  | l :: lit', c :: s' => if Ascii.eqb l c then expect lit' s' else None
  | _ :: _, [] => None
  end.

(** *** The order of the properties of an object

    The members of an [object] come in the order of its property keys
    ([OrdinaryOwnPropertyKeys]): first the names that are array indices, by
    ascending index, then the other names in the order of their creation. *)

(** The array index that a property name is: the numeral, without a leading
    zero, of an integer below [2^32 - 1]. *)
Definition array_index (k : string) : option Z :=
  match Number.read_digits (chars k) with
  | (ds, []) =>
      if Number.plain ds then
        let n := Number.value_of ds in
        if (n <? 4294967295)%Z then Some n else None
      else None
  | (_, _ :: _) => None
  end.

(** A property named [k1] that exists comes before a new property named
    [k2]. *)
Definition precedes (k1 k2 : string) : bool :=
  match array_index k1, array_index k2 with
  | Some i, Some j => (i <? j)%Z
  | Some _, None => true
  | None, Some _ => false
  | None, None => true
  end.

Fixpoint ordered (ks : list string) : bool :=
  match ks with
  | [] => true
  | k :: ks' => forallb (precedes k) ks' && ordered ks'
  end.

(** A new property takes its place among the properties of an object. *)
Fixpoint place (k : string) (v : value) (o : object) : object :=
  match o with
  | [] => [(k, v)]
  | (k', v') :: o' =>
      if precedes k' k then (k', v') :: place k v o' else (k, v) :: o
  end.

(** [CreateDataProperty(o, k, v)]: an existing property keeps its place and
    takes the new value. *)
Definition define (k : string) (v : value) (o : object) : object :=
  if has k o then set k v o else place k v o.

(** [JSON.parse] defines the properties of an object in text order: a
    repeated name overwrites the earlier value. *)
Definition object_of_members (ms : list (string * value)) : object :=
  fold_left (fun o kv => define (fst kv) (snd kv) o) ms [].

(** Recursive descent; [fuel] bounds the number of nested calls. *)
Fixpoint parse_value (fuel : nat) (s : list ascii) : option (value * list ascii) :=
  match fuel with
  | O => None
  | S fuel =>
      match skip_ws s with
      | [] => None
      | c :: r =>
          if Ascii.eqb c "n" then
            match expect (chars "ull") r with
            | Some r' => Some (JNull, r') | None => None end
          else if Ascii.eqb c "t" then
            match expect (chars "rue") r with
            | Some r' => Some (JBool true, r') | None => None end
          else if Ascii.eqb c "f" then
            match expect (chars "alse") r with
            | Some r' => Some (JBool false, r') | None => None end
          else if Ascii.eqb c dquote then
            match parse_string r with
            | Some (str, r') => Some (JStr (string_of_list_ascii str), r')
            | None => None
            end
          else if Ascii.eqb c "[" then
            match skip_ws r with
            | c' :: r' =>
                if Ascii.eqb c' "]" then Some (JArr [], r')
                else parse_items fuel r []
            | [] => None
            end
          else if Ascii.eqb c "{" then
            match skip_ws r with
            | c' :: r' =>
                if Ascii.eqb c' "}" then Some (JObj [], r')
                else parse_members fuel r []
            | [] => None
            end
          else parse_number (c :: r)
      end
  end
with parse_items (fuel : nat) (s : list ascii) (acc : list value)
  : option (value * list ascii) :=
  match fuel with
  | O => None
  | S fuel =>
      match parse_value fuel s with
      | None => None
      | Some (v, r) =>
          match skip_ws r with
          | c :: r' =>
              if Ascii.eqb c "," then parse_items fuel r' (v :: acc)
              else if Ascii.eqb c "]" then Some (JArr (rev (v :: acc)), r')
              else None
          | [] => None
          end
      end
  end
with parse_members (fuel : nat) (s : list ascii) (acc : list (string * value))
  : option (value * list ascii) :=
  match fuel with
  | O => None
  | S fuel =>
      match skip_ws s with
      | c :: r =>
          if Ascii.eqb c dquote then
            match parse_string r with
            | None => None
            | Some (k, r1) =>
                match skip_ws r1 with
                | c1 :: r2 =>
                    if Ascii.eqb c1 ":" then
                      match parse_value fuel r2 with
                      | None => None
                      | Some (v, r3) =>
                          let acc' := (string_of_list_ascii k, v) :: acc in
                          match skip_ws r3 with
                          | c3 :: r4 =>
                              if Ascii.eqb c3 "," then parse_members fuel r4 acc'
                              else if Ascii.eqb c3 "}" then
                                Some (JObj (object_of_members (rev acc')), r4)
                              else None
                          | [] => None
                          end
                      end
                    else None
                | [] => None
                end
            end
          else None
      | [] => None
      end
  end.

(** [JSON.parse(text)]: one value, optionally surrounded by white space.
    [None] stands for the [SyntaxError] that [JSON.parse] throws. *)
Definition parse (text : string) : option value :=
  let s := chars text in
  match parse_value (S (length s)) s with
  | Some (v, r) => match skip_ws r with [] => Some v | _ :: _ => None end
  | None => None
  end.

(** *** Well-formed values and string conversion *)

(** What the three bytes after a high surrogate that stands alone must not
    be: a low surrogate that stands alone. A JavaScript string has no such
    sequence, a high surrogate before a low one being one code point. *)
Definition starts_low (s : list ascii) : bool :=
  match s with
  | c1 :: c2 :: c3 :: _ =>
      match lone_surrogate c1 c2 c3 with
      | Some v => is_low v
      | None => false
      end
  | _ => false
  end.

Fixpoint wf_chars (s : list ascii) : bool :=
  match s with
  | [] => true
  | c1 :: t =>
      match t with
      | c2 :: c3 :: r =>
          match lone_surrogate c1 c2 c3 with
          | Some u => negb (is_high u && starts_low r) && wf_chars r
          | None => wf_chars t
          end
      | _ => wf_chars t
      end
  end.

Definition wf_string (s : string) : bool := wf_chars (chars s).

(** The values that [JSON.stringify] writes and [JSON.parse] reads back:
    every Number is finite and not [-0] ([Number.serializable]; the others
    are written as [null] and [0]), every string is a JavaScript string, and the
    members of every object are the properties of a JavaScript object: no
    name comes twice, and the names come in the order of the property
    keys. *)
Fixpoint wf (v : value) : bool :=
  match v with
  | JNum x => Number.serializable x
  | JStr s => wf_string s
  | JArr items => forallb wf items
  | JObj members =>
      bool_decide (NoDup (map fst members))
      && ordered (map fst members)
      && forallb (fun kv => wf_string (fst kv) && wf (snd kv)) members
  | _ => true
  end.

Definition wf_object (o : object) : bool := wf (JObj o).

Fixpoint join_strings (sep : string) (parts : list string) : string :=
  match parts with
  | [] => ""
  | [p] => p
  | p :: ps => p +:+ sep +:+ join_strings sep ps
  end.

(** [`${v}`]: [null] inside an array prints as the empty string. *)
Fixpoint to_string (v : value) : string :=
  match v with
  | JNull => "null"
  | JBool true => "true"
  | JBool false => "false"
  | JNum x => Number.toString x
  | JStr s => s
  | JArr items =>
      join_strings ","
        (map (fun x => match x with JNull => "" | _ => to_string x end) items)
  | JObj _ => "[object Object]"
  end.

(** *** Measures and statements of the round-trip proof *)

(** The first character of a numeral: a digit or the minus sign. *)
Definition number_head (c : ascii) : bool :=
  match Number.digit_of c with Some _ => true | None => Ascii.eqb c "-" end.

Fixpoint size (v : value) : nat :=
  match v with
  | JArr items => S (list_sum (map (fun x => S (size x)) items))
  | JObj members => S (list_sum (map (fun kv => S (size (snd kv))) members))
  | _ => 1
  end.

(** The first character of a printed value. *)
Definition value_head (c : ascii) : bool :=
  number_head c || Ascii.eqb c "n" || Ascii.eqb c "t" || Ascii.eqb c "f"
  || Ascii.eqb c dquote || Ascii.eqb c "[" || Ascii.eqb c "{".

Definition separator (inner : nat) : list ascii :=
  ","%char :: newline :: indentation inner.

Definition member_text (inner : nat) (kv : string * value) : list ascii :=
  quote (fst kv) ++ ":"%char :: space :: stringify_at inner (snd kv).

Definition items_ok (f : nat) : Prop :=
  forall l acc indent inner pad rest,
    l <> [] -> forallb wf l = true ->
    list_sum (map (fun x => S (size x)) l) <= f ->
    forallb is_ws pad = true ->
    parse_items f
      (pad ++ join (separator inner) (map (stringify_at inner) l)
           ++ newline :: indentation indent ++ "]"%char :: rest) acc
    = Some (JArr (rev acc ++ l), rest).

Definition members_ok (f : nat) : Prop :=
  forall l acc indent inner pad rest,
    l <> [] -> forallb (fun kv => wf_string (fst kv) && wf (snd kv)) l = true ->
    list_sum (map (fun kv => S (size (snd kv))) l) <= f ->
    forallb is_ws pad = true ->
    parse_members f
      (pad ++ join (separator inner) (map (member_text inner) l)
           ++ newline :: indentation indent ++ "}"%char :: rest) acc
    = Some (JObj (object_of_members (rev acc ++ l)), rest).

Definition value_ok (f : nat) : Prop :=
  forall v indent rest,
    wf v = true -> size v <= f -> Number.number_stop rest = true ->
    parse_value f (stringify_at indent v ++ rest) = Some (v, rest).

End JSON.

(* ===================================================================== *)
(** ** The storage client seen from the store                             *)
(* ===================================================================== *)

(** The shapes of [@aws-sdk/client-s3] that the sources read or build.
    Every output field is optional in the SDK typings. *)

Module Aws.

Definition Date := Z.

Record Bucket := { Name : option string }.

Record ListBucketsOutput := { Buckets : option (list Bucket) }.

Record _Object := { Key : option string; LastModified : option Date }.

Record CommonPrefix := { Prefix : option string }.

(** The fields shared by [ListObjectsOutput] and [ListObjectsV2Output]. *)
Record ListObjectsOutput := {
  Contents : option (list _Object);
  CommonPrefixes : option (list CommonPrefix)
}.

(** [Body] is a readable stream; it is represented by the text that
    [streamToString] collects from it. *)
Record GetObjectOutput := { Body : option string }.

(** One request to the outside world: a method of the inherited [S3]
    client, the presigner ([getSignedUrl] with a [GetObjectCommand]) or the
    [uuid] generator. *)
Inductive request : Type :=
| ListBuckets
| CreateBucket (Bucket : string)
| ListObjectsV2 (Bucket : string) (Prefix : option string) (Delimiter : string)
| ListObjects (Bucket : string) (Prefix : string)
| GetObject (Bucket Key : string)
| PutObject (Bucket Key : string) (Body : option string) (ContentType : option string)
| DeleteObjects (Bucket : string) (Objects : list (option string))
| GetSignedUrl (Bucket Key : string)
| Uuid.

Definition response (r : request) : Type :=
  match r with
  | ListBuckets => ListBucketsOutput
  | CreateBucket _ => unit
  | ListObjectsV2 _ _ _ => ListObjectsOutput
  | ListObjects _ _ => ListObjectsOutput
  | GetObject _ _ => GetObjectOutput
  | PutObject _ _ _ _ => unit
  | DeleteObjects _ _ => unit
  | GetSignedUrl _ _ => string
  | Uuid => string
  end.

End Aws.

Export Aws.

(** The browser [File]: a name and its bytes. *)
Module File.
Record t := { name : string; bytes : string }.
End File.

(** What an operation can fail with. [tiny-invariant] throws
    [Error("Invariant failed: " + message)]; [JSON.parse] throws a
    [SyntaxError]; the client rejects with a service exception. *)
Inductive error : Type :=
| InvariantFailed (message : string)
| SyntaxError
| ServiceException (code : string).

Inductive settled (A : Type) : Type :=
| Fulfilled (a : A)
| Rejected (e : error).
Arguments Fulfilled {A} a.
Arguments Rejected {A} e.

(** A promise is the program that is still to run: it has resolved, it has
    rejected (a thrown exception is a rejection), or it has issued a
    request and continues with the answer, which is a response or an
    exception of the client. *)
Inductive Promise (A : Type) : Type :=
| Resolve (a : A)
| Reject (e : error)
| Await (r : request) (k : settled (response r) -> Promise A).
Arguments Resolve {A} a.
Arguments Reject {A} e.
Arguments Await {A} r k.

Fixpoint Promise_then {A B : Type} (f : A -> Promise B) (p : Promise A) : Promise B :=
  match p with
  | Resolve a => f a
  | Reject e => Reject e
  | Await r k => Await r (fun x => Promise_then f (k x))
  end.

#[global] Instance Promise_ret : MRet Promise := @Resolve.
#[global] Instance Promise_bind : MBind Promise := @Promise_then.

(** [await this.method(input)]: one request, answered or refused. *)
Definition await (r : request) : Promise (response r) :=
  Await r (fun x => match x with
                    | Fulfilled v => Resolve v
                    | Rejected e => Reject e
                    end).

(** A promise that records how [p] settles instead of rejecting. *)
Fixpoint Promise_settle {A : Type} (p : Promise A) : Promise (settled A) :=
  match p with
  | Resolve a => Resolve (Fulfilled a)
  | Reject e => Resolve (Rejected e)
  | Await r k => Await r (fun x => Promise_settle (k x))
  end.

Fixpoint collect {A : Type} (rs : list (settled A)) : settled (list A) :=
  match rs with
  | [] => Fulfilled []
  | Rejected e :: _ => Rejected e
  | Fulfilled a :: rs =>
      match collect rs with
      | Fulfilled l => Fulfilled (a :: l)
      | Rejected e => Rejected e
      end
  end.

Fixpoint settle_each {A : Type} (ps : list (Promise A)) : Promise (list (settled A)) :=
  match ps with
  | [] => Resolve []
  | p :: ps =>
      x ← Promise_settle p;
      xs ← settle_each ps;
      Resolve (x :: xs)
  end.

(** [Promise.all(ps)]: every promise of the list runs to its end, also
    after another one has rejected; the result rejects with a rejection of
    the list, else resolves with all values. The promises are taken in
    list order, which is the order in which their requests are issued. *)
Definition Promise_all {A : Type} (ps : list (Promise A)) : Promise (list A) :=
  rs ← settle_each ps;
  match collect rs with
  | Fulfilled l => Resolve l
  | Rejected e => Reject e
  end.

(** [invariant(condition, message)] *)
Definition invariant (condition : bool) (message : string) : Promise unit :=
  if condition then Resolve () else Reject (InvariantFailed message).

(** [invariant(s, message)] on a [string | undefined]: past the call the
    variable is known to hold a non-empty string, which is returned. *)
Definition invariant_string (s : option string) (message : string) : Promise string :=
  match s with
  | Some v => if JS.truthy (Some v) then Resolve v else Reject (InvariantFailed message)
  | None => Reject (InvariantFailed message)
  end.

(** [invariant(x, message)] on an object that may be undefined. *)
Definition invariant_defined {A : Type} (x : option A) (message : string) : Promise A :=
  match x with
  | Some v => Resolve v
  | None => Reject (InvariantFailed message)
  end.

(** *** Running a promise against a server *)

Section Run.
Context {World : Type}.
Variable serve : forall r : request, World -> settled (response r) * World.

(** The result, the final state of the outside world, and the requests
    that were issued, oldest first. *)
Fixpoint run {A : Type} (p : Promise A) (w : World)
  : settled A * World * list request :=
  match p with
  | Resolve a => (Fulfilled a, w, [])
  | Reject e => (Rejected e, w, [])
  | Await r k =>
      let '(x, w') := serve r w in
      let '(res, w'', t) := run (k x) w' in
      (res, w'', r :: t)
  end.
End Run.

(* ===================================================================== *)
(** ** [src/util.ts]                                                      *)
(* ===================================================================== *)

Record Credentials := { accessKeyId : string; secretAccessKey : string }.

Record S3ClientConfig := { region : string; credentials : Credentials }.

(** The argument object of [getS3dbConfig]; every property may be left out. *)
Record ConfigArgs := {
  awsRegion : option string;
  awsAccessKeyId : option string;
  awsSecretAccessKey : option string
}.

(** The three variables of [process.env] that are read. *)
Record ProcessEnv := {
  S3_DB_REGION : option string;
  S3_DB_ACCESS_KEY_ID : option string;
  S3_DB_SECRET_ACCESS_KEY : option string
}.

(** [const { x = d } = o]: the default is taken when [o.x] is undefined. *)
Definition with_default (x d : option string) : option string :=
  match x with
  | Some v => Some v
  | None => d
  end.

Definition config_message : string :=
  "AWS credentials are missing or invalid. Please ensure that awsRegion, awsAccessKeyId, and awsSecretAccessKey are provided.".

(** [getS3dbConfig(args?)]; the function is synchronous and issues no
    request, so its result is a settled value rather than a promise. *)
Definition getS3dbConfig (env : ProcessEnv) (args : option ConfigArgs)
  : settled S3ClientConfig :=
  let o := match args with
           | Some a => a
           | None => {| awsRegion := None; awsAccessKeyId := None;
                        awsSecretAccessKey := None |}
           end in
  let awsRegion := with_default (awsRegion o) (S3_DB_REGION env) in
  let awsAccessKeyId := with_default (awsAccessKeyId o) (S3_DB_ACCESS_KEY_ID env) in
  let awsSecretAccessKey :=
    with_default (awsSecretAccessKey o) (S3_DB_SECRET_ACCESS_KEY env) in
  if JS.truthy awsRegion && JS.truthy awsAccessKeyId && JS.truthy awsSecretAccessKey
  then
    match awsRegion, awsAccessKeyId, awsSecretAccessKey with
    | Some r, Some k, Some s =>
        Fulfilled {| region := r;
                     credentials := {| accessKeyId := k; secretAccessKey := s |} |}
    | _, _, _ => Rejected (InvariantFailed config_message)
    end
  else Rejected (InvariantFailed config_message).

(* ===================================================================== *)
(** ** Class [S3db] ([src/unnamed/part_001], lines 87-359)                *)
(* ===================================================================== *)

(** The methods come in the order of the source. The two private fields
    of the class make the handle; the inherited client is the server that
    a promise is run against. *)
Record S3db := {
  bucketName : option string;
  collectionName : option string
}.

Record DBObject := { name : string; lastModified : Date }.

Record DBEntries := { folderNames : list string; objects : list DBObject }.

(** Lines 126-131: [Buckets || []]. *)
Definition getDBBuckets : Promise (list Bucket) :=
  out ← await ListBuckets;
  Resolve (default [] (Buckets out)).

(** Lines 166-171: the loop over [Contents] of [getDBEntries]. *)
Definition matchObjects (Contents : option (list _Object)) : list DBObject :=
  match Contents with
  | Some contents =>
      fold_left
        (fun acc o =>
           match Key o, LastModified o with
           | Some name, Some lastModified =>
               if JS.truthy (Some name)
               then acc ++ [{| name := name; lastModified := lastModified |}]
               else acc
           | _, _ => acc
           end)
        contents []
  | None => []
  end.

(** [s.split("/")[0]]; [split] never returns the empty array. *)
Definition first_segment (s : string) : string :=
  match JS.split "/" s with
  | x :: _ => x
  | [] => s
  end.

(** [Prefix.replace(prefix || "", "").split("/")[0]] *)
Definition stripped (prefix : option string) (Prefix : string) : string :=
  first_segment (JS.replace_first (JS.or_else prefix "") Prefix).

(** Lines 175-178: one turn of the loop over [CommonPrefixes]. *)
Definition add_folder (prefix : option string) (set : list string) (p : CommonPrefix)
  : list string :=
  match Prefix p with
  | Some Prefix =>
      if JS.truthy (Some Prefix) then JS.set_add (stripped prefix Prefix) set else set
  | None => set
  end.

(** Lines 173-180: the loop over [CommonPrefixes], and the spread of the
    resulting set. *)
Definition matchFolders (prefix : option string)
    (CommonPrefixes : option (list CommonPrefix)) : list string :=
  match CommonPrefixes with
  | Some prefixes => fold_left (add_folder prefix) prefixes []
  | None => []
  end.

(** Lines 149-181. *)
Definition getDBEntries (this : S3db) (prefix : option string) : Promise DBEntries :=
  Bucket ← invariant_string (bucketName this) "Invalid bucketName";
  result ← await (ListObjectsV2 Bucket prefix "/");
  Resolve {| folderNames := matchFolders prefix (CommonPrefixes result);
             objects := matchObjects (Contents result) |}.

Definition getDBCollectionNames (this : S3db) : Promise (list string) :=
  es ← getDBEntries this None;
  Resolve (folderNames es).

Definition getDBDocumentIds (this : S3db) : Promise (list string) :=
  collection ← invariant_string (collectionName this) "Invalid collectionName";
  es ← getDBEntries this (Some (collection +:+ "/"));
  Resolve (folderNames es).

(** Lines 184-194. *)
Definition getDBEntry (this : S3db) (Key : string) : Promise JSON.value :=
  Bucket ← invariant_string (bucketName this) "Invalid bucketName";
  out ← await (GetObject Bucket Key);
  text ← invariant_defined (Body out) "Invalid Body from getDBEntry";
  match JSON.parse text with
  | Some v => Resolve v
  | None => Reject SyntaxError
  end.

Definition getDBCollectionEntries (this : S3db) (prefixInCollection : string)
  : Promise DBEntries :=
  collection ← invariant_string (collectionName this) "Invalid collectionName";
  getDBEntries this (Some (collection +:+ "/" +:+ prefixInCollection)).

Definition getDBCollectionEntry (this : S3db) (keyInCollection : string)
  : Promise JSON.value :=
  collection ← invariant_string (collectionName this) "Invalid collectionName";
  getDBEntry this (collection +:+ "/" +:+ keyInCollection).

(** Lines 234-236. *)
Definition getDBDocumentData (this : S3db) (id : string) : Promise JSON.value :=
  getDBCollectionEntry this (id +:+ "/data.json").

(** Lines 239-245. *)
Definition getDBDocumentMedia (this : S3db) (id : string) : Promise (list DBObject) :=
  es ← getDBCollectionEntries this id;
  Resolve (filter (fun o => name o ≠ "data.json") (objects es)).

(** Lines 248-257. The collection name is read without a preceding
    [invariant]: an undefined name is spelled out by the template literal. *)
Definition getDBDocumentUrl (this : S3db) (id : string) : Promise string :=
  Bucket ← invariant_string (bucketName this) "Invalid bucketName";
  await (GetSignedUrl Bucket
           (JS.template (collectionName this) +:+ "/" +:+ id +:+ "/data.json")).

Definition uploadDBCollectionEntry (this : S3db) (keyInCollection : string)
    (Body : option string) : Promise unit :=
  Bucket ← invariant_string (bucketName this) "Invalid bucketName";
  collection ← invariant_string (collectionName this) "Invalid collectionName";
  await (PutObject Bucket (collection +:+ "/" +:+ keyInCollection) Body None).

(** Line 284: [`image/${file.name.split(".")[1]}`]. *)
Definition media_content_type (file : File.t) : string :=
  "image/" +:+ JS.template (JS.index (JS.split "." (File.name file)) 1).

Definition uploadDBCollectionMedia (this : S3db) (keyInCollection : string)
    (file : File.t) : Promise unit :=
  Bucket ← invariant_string (bucketName this) "Invalid bucketName";
  collection ← invariant_string (collectionName this) "Invalid collectionName";
  await (PutObject Bucket (collection +:+ "/" +:+ keyInCollection)
           (Some (File.bytes file)) (Some (media_content_type file))).

(** Lines 300-313. The identifier is a [string] by its declared type. At
    run time it is whatever the [id] property holds: that value goes into
    the body unchanged, and everywhere else the identifier is used inside a
    template literal, so the function returns its string form
    ([JSON.to_string] is the identity on strings). *)
Definition uploadDBDocument (this : S3db) (document : JSON.object) : Promise string :=
  fresh ← await Uuid;
  let placeholder :=
    uploadDBCollectionEntry this (fresh +:+ "/") None;;
    Resolve (JSON.JStr fresh) in
  id ← (if negb (JSON.has "id" document) || negb (JSON.truthy (JSON.get "id" document))
        then placeholder
        else match JSON.get "id" document with
             | Some supplied => Resolve supplied
             | None => placeholder
             end);
  uploadDBCollectionEntry this (JSON.to_string id +:+ "/data.json")
    (Some (JSON.stringify (JSON.JObj (JSON.set "id" id document))));;
  Resolve (JSON.to_string id).

Definition uploadDBDocumentMedia (this : S3db) (id : string) (media : list File.t)
  : Promise unit :=
  Promise_all
    (map (fun file => uploadDBCollectionMedia this (id +:+ "/" +:+ File.name file) file)
         media);;
  Resolve ().

Definition uploadDBDocumentWithMedia (this : S3db) (document : JSON.object)
    (media : list File.t) : Promise string :=
  invariant (JS.truthy (collectionName this)) "Invalid collectionName";;
  id ← uploadDBDocument this document;
  uploadDBDocumentMedia this id media;;
  Resolve id.

Definition nothing_to_delete (id : string) : string :=
  "No objects found in the id<" +:+ id +:+ ">. Nothing to delete.".

(** Lines 325-341. *)
Definition deleteDBDocumentById (this : S3db) (id : string) : Promise unit :=
  Bucket ← invariant_string (bucketName this) "Invalid bucketName";
  collection ← invariant_string (collectionName this) "Invalid collectionName";
  out ← await (ListObjects Bucket (collection +:+ "/" +:+ id +:+ "/"));
  let objects := map Key <$> Contents out in
  match objects with
  | Some objects =>
      if Nat.ltb 0 (length objects)
      then await (DeleteObjects Bucket objects)
      else Reject (InvariantFailed (nothing_to_delete id))
  | None => Reject (InvariantFailed (nothing_to_delete id))
  end.

Definition deleteDBDocumentMedia (this : S3db) (id : string) (mediaNames : list string)
  : Promise unit :=
  Bucket ← invariant_string (bucketName this) "Invalid bucketName";
  collection ← invariant_string (collectionName this) "Invalid collectionName";
  await (DeleteObjects Bucket
           (map (fun mediaName => Some (collection +:+ "/" +:+ id +:+ "/" +:+ mediaName))
                mediaNames)).

(** Lines 91-123, [S3db.initialize]: the bucket and the collection folder
    are created when they are missing; the handle is returned with both
    names set.
    [!!array.find(...)] is the truthiness of the element found: a bucket
    is an object, a collection name is a string. *)
Definition initialize (s3ClientConfig : S3ClientConfig)
    (bucket collection : string) : Promise S3db :=
  let db := {| bucketName := None; collectionName := None |} in
  buckets ← getDBBuckets;
  let isBucketInS3 := existsb (fun b => bool_decide (Name b = Some bucket)) buckets in
  (if negb isBucketInS3 then await (CreateBucket bucket) else Resolve ());;
  let db := {| bucketName := Some bucket; collectionName := collectionName db |} in
  collectionNames ← getDBCollectionNames db;
  let isCollectionInBucket :=
    JS.truthy (find (fun name => String.eqb name collection) collectionNames) in
  (if negb isCollectionInBucket
   then await (PutObject bucket (collection +:+ "/") None None)
   else Resolve ());;
  Resolve {| bucketName := bucketName db; collectionName := Some collection |}.

(** Both names are set to non-empty strings. *)
Definition bound (this : S3db) : bool :=
  JS.truthy (bucketName this) && JS.truthy (collectionName this).

(** The handle is bound to bucket [b] and collection [c]. *)
Definition binds (this : S3db) (b c : string) : Prop :=
  bucketName this = Some b /\ collectionName this = Some c /\ b <> "" /\ c <> "".

(** The request that stores one media file of document [id]. *)
Definition media_put (b c id : string) (file : File.t) : request :=
  PutObject b (c +:+ "/" +:+ id +:+ "/" +:+ File.name file)
    (Some (File.bytes file)) (Some (media_content_type file)).

(** The two failures of the precondition checks of the class. *)
Definition precondition_error (e : error) : Prop :=
  e = InvariantFailed "Invalid bucketName" \/ e = InvariantFailed "Invalid collectionName".

(** The notions in which the behaviour of [uploadDBDocument] is stated.
    The document carries a non-empty [id] (a string, by the declared type
    [S3dbDocument]). *)
Definition supplies_id (document : JSON.object) : bool :=
  match JSON.get "id" document with
  | Some (JSON.JStr s) => negb (String.eqb s "")
  | _ => false
  end.

(** The identifier that an upload of [document] resolves to when the
    generator hands out [fresh]. *)
Definition resolve_id (document : JSON.object) (fresh : string) : string :=
  match JSON.get "id" document with
  | Some (JSON.JStr s) => if String.eqb s "" then fresh else s
  | _ => fresh
  end.

(** The [id] property, when present, holds a string. *)
Definition id_typed (document : JSON.object) : bool :=
  match JSON.get "id" document with
  | None | Some (JSON.JStr _) => true
  | Some _ => false
  end.

(** The first step of "Basic Usage" in [README.md]: the configuration is
    resolved, then handed to [S3db.initialize]. *)
Definition README_initialize (env : ProcessEnv) (args : option ConfigArgs)
    (bucket collection : string) : Promise S3db :=
  match getS3dbConfig env args with
  | Fulfilled s3ClientConfig => initialize s3ClientConfig bucket collection
  | Rejected e => Reject e
  end.

(** *** The constructor-based variant ([src/s3db.ts], lines 61-79 and 160-170)

    [getDBEntries] refuses a response that lacks a section and reports the
    common prefixes as they come; [uploadDBDocument] generates an
    identifier only when the document has no [id] property at all. *)

Module Legacy.

Definition getDBEntries (this : S3db) (prefix : option string) : Promise DBEntries :=
  Bucket ← invariant_string (bucketName this) "Invalid bucketName";
  result ← await (ListObjectsV2 Bucket prefix "/");
  contents ← invariant_defined (Contents result) "Invalid listObjectsV2 contents";
  let matchObjects := matchObjects (Some contents) in
  prefixes ← invariant_defined (CommonPrefixes result) "Invalid listObjectsV2 commonPrefix";
  let matchFolders :=
    fold_left
      (fun acc p =>
         match Prefix p with
         | Some Prefix => if JS.truthy (Some Prefix) then acc ++ [Prefix] else acc
         | None => acc
         end)
      prefixes [] in
  Resolve {| folderNames := matchFolders; objects := matchObjects |}.

Definition uploadDBDocument (this : S3db) (document : JSON.object) : Promise string :=
  fresh ← await Uuid;
  id ← (match JSON.get "id" document with
        | None =>
            uploadDBCollectionEntry this (fresh +:+ "/") None;;
            Resolve (JSON.JStr fresh)
        | Some supplied => Resolve supplied
        end);
  uploadDBCollectionEntry this (JSON.to_string id +:+ "/data.json")
    (Some (JSON.stringify (JSON.JObj (JSON.set "id" id document))));;
  Resolve (JSON.to_string id).

End Legacy.

(* ===================================================================== *)
(** ** A reference object store                                           *)
(* ===================================================================== *)

(** The collaborator of section 6 of the specification, in memory: buckets
    of objects addressed by key, listing by prefix with a delimiter,
    whole-object put and get, batched delete of one or more keys (a batch
    without a key is refused as malformed). It answers a listing in one
    page, in the order of the underlying map, and leaves out a section of
    the listing that has no element. The [uuid] generator is a source of
    strings that is read one position further at each call. *)

Module MemS3.

Record stored := {
  content : string;
  contentType : option string;
  modified : Date
}.

Record world := {
  buckets : gmap string (gmap string stored);
  clock : Z;
  uuids : nat -> string;
  issued : nat
}.

Definition with_buckets (w : world) (bs : gmap string (gmap string stored)) : world :=
  {| buckets := bs; clock := clock w; uuids := uuids w; issued := issued w |}.

Definition tick (w : world) : world :=
  {| buckets := buckets w; clock := (clock w + 1)%Z; uuids := uuids w;
     issued := issued w |}.

(** The text of [s] up to and including the first occurrence of [delim]. *)
Fixpoint upto (delim s : string) : option string :=
  if String.prefix delim s then Some delim
  else match s with
       | EmptyString => None
       | String c s' => String c <$> upto delim s'
       end.

(** The rolled-up prefix of a key that continues past a delimiter. *)
Definition rollup (prefix delim key : string) : option string :=
  if String.eqb delim "" then None
  else (fun g => prefix +:+ g) <$> upto delim (JS.drop_chars (String.length prefix) key).

Definition some_unless_empty {A : Type} (l : list A) : option (list A) :=
  match l with
  | [] => None
  | _ :: _ => Some l
  end.

Definition as_object (kv : string * stored) : _Object :=
  {| Key := Some kv.1; LastModified := Some (modified kv.2) |}.

Definition list_objects (b : gmap string stored) (prefix delim : string)
  : ListObjectsOutput :=
  let matching := filter (fun kv => String.prefix prefix kv.1 = true) (map_to_list b) in
  let leaves := filter (fun kv => rollup prefix delim kv.1 = None) matching in
  let groups := remove_dups (omap (fun kv => rollup prefix delim kv.1) matching) in
  {| Contents := some_unless_empty (map as_object leaves);
     CommonPrefixes :=
       some_unless_empty (map (fun g => {| Prefix := Some g |}) groups) |}.

Definition delete_keys (keys : list (option string)) (b : gmap string stored)
  : gmap string stored :=
  fold_left (fun b k => match k with Some k => delete k b | None => b end) keys b.

(** The world after an object has been put into the bucket with
    contents [b]: an undefined body stores the empty object. *)
Definition put (w : world) (bucket key : string) (body ctype : option string)
    (b : gmap string stored) : world :=
  let o := {| content := default "" body; contentType := ctype;
              modified := clock w |} in
  tick (with_buckets w (<[bucket := <[key := o]> b]> (buckets w))).

Definition signed_url (bucket key : string) : string :=
  "https://" +:+ bucket +:+ ".s3.amazonaws.com/" +:+ key +:+ "?X-Amz-Expires=900".

Definition in_bucket {A : Type} (w : world) (bucket : string)
    (f : gmap string stored -> settled A * world) : settled A * world :=
  match buckets w !! bucket with
  | Some b => f b
  | None => (Rejected (ServiceException "NoSuchBucket"), w)
  end.

Definition serve (r : request) : world -> settled (response r) * world :=
  match r as r return world -> settled (response r) * world with
  | ListBuckets => fun w =>
      (Fulfilled
         {| Buckets := Some (map (fun kv => {| Name := Some kv.1 |})
                               (map_to_list (buckets w))) |}, w)
  | CreateBucket bucket => fun w =>
      match buckets w !! bucket with
      | Some _ => (Rejected (ServiceException "BucketAlreadyOwnedByYou"), w)
      | None => (Fulfilled (), with_buckets w (<[bucket := ∅]> (buckets w)))
      end
  | ListObjectsV2 bucket prefix delim => fun w =>
      in_bucket w bucket (fun b =>
        (Fulfilled (list_objects b (default "" prefix) delim), w))
  | ListObjects bucket prefix => fun w =>
      in_bucket w bucket (fun b => (Fulfilled (list_objects b prefix ""), w))
  | GetObject bucket key => fun w =>
      in_bucket w bucket (fun b =>
        match b !! key with
        | Some o => (Fulfilled {| Body := Some (content o) |}, w)
        | None => (Rejected (ServiceException "NoSuchKey"), w)
        end)
  | PutObject bucket key body ctype => fun w =>
      in_bucket w bucket (fun b => (Fulfilled (), put w bucket key body ctype b))
  | DeleteObjects bucket keys => fun w =>
      match keys with
      | [] => (Rejected (ServiceException "MalformedXML"), w)
      | _ :: _ =>
          in_bucket w bucket (fun b =>
            (Fulfilled (),
             with_buckets w (<[bucket := delete_keys keys b]> (buckets w))))
      end
  | GetSignedUrl bucket key => fun w => (Fulfilled (signed_url bucket key), w)
  | Uuid => fun w =>
      (Fulfilled (uuids w (issued w)),
       {| buckets := buckets w; clock := clock w; uuids := uuids w;
          issued := S (issued w) |})
  end.

(** An empty store whose identifiers are [u0], [u1], ... *)
Definition numbered (n : nat) : string :=
  "u" +:+ string_of_list_ascii (Number.digits_of_Z (Z.of_nat n)).

Definition empty : world :=
  {| buckets := ∅; clock := 0; uuids := numbered; issued := 0 |}.

(** The object stored under a key of a bucket. *)
Definition object_at (w : world) (bucket key : string) : option stored :=
  buckets w !! bucket ≫= fun b => b !! key.

End MemS3.

(** The scenario of section 8: a store on bucket [b1], collection [c1]. *)
Definition demo_config : S3ClientConfig :=
  {| region := "eu-west-1";
     credentials := {| accessKeyId := "AKIA"; secretAccessKey := "secret" |} |}.

Definition demo_handle : S3db :=
  {| bucketName := Some "b1"; collectionName := Some "c1" |}.

Definition demo_world : MemS3.world :=
  (run MemS3.serve (initialize demo_config "b1" "c1") MemS3.empty).1.2.

(** The contents of bucket [b1] after the initialisation. *)
Definition demo_bucket : gmap string MemS3.stored :=
  default ∅ (MemS3.buckets demo_world !! "b1").

Definition demo_document : JSON.object := [("title", JSON.JStr "A")].

(** A store in which the body of document [n] is the JSON text [42]. *)
Definition demo_world_number : MemS3.world :=
  (MemS3.serve (PutObject "b1" "c1/n/data.json" (Some "42") None) demo_world).2.

(** Environments with and without the three variables. *)
Definition demo_env : ProcessEnv :=
  {| S3_DB_REGION := Some "eu-west-1";
     S3_DB_ACCESS_KEY_ID := Some "AKIA";
     S3_DB_SECRET_ACCESS_KEY := Some "secret" |}.

Definition empty_env : ProcessEnv :=
  {| S3_DB_REGION := None; S3_DB_ACCESS_KEY_ID := None;
     S3_DB_SECRET_ACCESS_KEY := None |}.

Definition demo_media : list File.t :=
  [{| File.name := "a.png"; File.bytes := "PNG" |}].

(** The store after the document has been uploaded (it gets the
    identifier [u0]) and the picture attached to it. *)
Definition demo_world_with_media : MemS3.world :=
  let w1 := (run MemS3.serve (uploadDBDocument demo_handle demo_document) demo_world).1.2 in
  (run MemS3.serve (uploadDBDocumentMedia demo_handle "u0" demo_media) w1).1.2.

(* ===================================================================== *)
(** ** Further code of the sources                                        *)
(* ===================================================================== *)

(** *** The strict variant ([src/unnamed/part_002])

    Its methods are those of the class above, line for line, except for
    [initialize] (lines 36-50), which refuses what it does not find, and
    the configuration function (lines 7-16), which takes its three values
    from the argument only. *)

Module Strict.

Definition getS3dbConfigFromEnv (args : ConfigArgs) : settled S3ClientConfig :=
  if JS.truthy (awsRegion args) && JS.truthy (awsAccessKeyId args)
     && JS.truthy (awsSecretAccessKey args)
  then
    match awsRegion args, awsAccessKeyId args, awsSecretAccessKey args with
    | Some r, Some k, Some s =>
        Fulfilled {| region := r;
                     credentials := {| accessKeyId := k; secretAccessKey := s |} |}
    | _, _, _ => Rejected (InvariantFailed "Invalid aws credentials")
    end
  else Rejected (InvariantFailed "Invalid aws credentials").

Definition initialize (s3ClientConfig : S3ClientConfig)
    (bucket collection : string) : Promise S3db :=
  let db := {| bucketName := None; collectionName := None |} in
  buckets ← getDBBuckets;
  let isBucketInS3 := existsb (fun b => bool_decide (Name b = Some bucket)) buckets in
  invariant isBucketInS3 "Invalid bucketName in S3";;
  let db := {| bucketName := Some bucket; collectionName := collectionName db |} in
  collectionNames ← getDBCollectionNames db;
  let isCollectionInBucket :=
    JS.truthy (find (fun name => String.eqb name collection) collectionNames) in
  invariant isCollectionInBucket "Invalid collection in current bucket";;
  Resolve {| bucketName := bucketName db; collectionName := Some collection |}.

End Strict.

(** *** The configuration of the constructor-based variant
    ([src/s3db.ts], lines 6-19): the three variables of the environment,
    read when the module is loaded, and no argument. *)

Module Constructor.

Definition getS3dbConfig (env : ProcessEnv) : settled S3ClientConfig :=
  let awsRegion := S3_DB_REGION env in
  let awsAccessKeyId := S3_DB_ACCESS_KEY_ID env in
  let awsSecretAccessKey := S3_DB_SECRET_ACCESS_KEY env in
  if JS.truthy awsRegion && JS.truthy awsAccessKeyId && JS.truthy awsSecretAccessKey
  then
    match awsRegion, awsAccessKeyId, awsSecretAccessKey with
    | Some r, Some k, Some s =>
        Fulfilled {| region := r;
                     credentials := {| accessKeyId := k; secretAccessKey := s |} |}
    | _, _, _ => Rejected (InvariantFailed "Invalid aws credentials")
    end
  else Rejected (InvariantFailed "Invalid aws credentials").

End Constructor.

(** *** [streamToString] ([src/util.ts], lines 58-64)

    A readable stream is what it emits. The promise collects the chunks of
    the [data] events; the first [end] resolves it with their
    concatenation, the first [error] rejects it; a promise settles once, so
    later events change nothing. [None] is the promise that is still
    pending when the events run out. *)

Inductive stream_event : Type :=
| OnData (chunk : string)
| OnError (e : error)
| OnEnd.

Fixpoint concat_chunks (chunks : list string) : string :=
  match chunks with
  | [] => ""
  | c :: cs => c +:+ concat_chunks cs
  end.

Fixpoint collect_stream (chunks : list string) (events : list stream_event)
  : option (settled string) :=
  match events with
  | [] => None
  | OnData chunk :: events => collect_stream (chunks ++ [chunk]) events
  | OnError e :: _ => Some (Rejected e)
  | OnEnd :: _ => Some (Fulfilled (concat_chunks chunks))
  end.

Definition streamToString (stream : list stream_event) : option (settled string) :=
  collect_stream [] stream.

(** *** Notions used in the statements below *)

(** The requests that change the store. *)
Definition is_write (r : request) : bool :=
  match r with
  | CreateBucket _ | PutObject _ _ _ _ | DeleteObjects _ _ => true
  | _ => false
  end.

(** Two results agree up to the wording of an invariant failure. *)
Definition same_outcome {A : Type} (x y : settled A) : Prop :=
  match x, y with
  | Fulfilled a, Fulfilled b => a = b
  | Rejected (InvariantFailed _), Rejected (InvariantFailed _) => True
  | _, _ => False
  end.

(** The key of the body of a document, and the folder of a document. *)
Definition data_key (c id : string) : string := c +:+ "/" +:+ id +:+ "/data.json".

Definition folder_key (c id : string) : string := c +:+ "/" +:+ id +:+ "/".

(** The handle that an initialisation for [b] and [c] hands out. *)
Definition handle_of (b c : string) : S3db :=
  {| bucketName := Some b; collectionName := Some c |}.

(** Every request that the program can issue, whatever the answers it
    gets, satisfies [P]. *)
Inductive only (P : request -> Prop) {A : Type} : Promise A -> Prop :=
| only_Resolve (a : A) : only P (Resolve a)
| only_Reject (e : error) : only P (Reject e)
| only_Await (r : request) (k : settled (response r) -> Promise A) :
    P r -> (forall x, only P (k x)) -> only P (Await r k).

(** The bucket that a request addresses, if it addresses one. *)
Definition bucket_of (r : request) : option string :=
  match r with
  | ListBuckets | Uuid => None
  | CreateBucket b | ListObjectsV2 b _ _ | ListObjects b _ | GetObject b _
  | PutObject b _ _ _ | DeleteObjects b _ | GetSignedUrl b _ => Some b
  end.

(** The request is the generation of an identifier or a put. *)
Definition is_put_or_uuid (r : request) : bool :=
  match r with
  | PutObject _ _ _ _ | Uuid => true
  | _ => false
  end.

(** The request addresses no bucket, or the bucket of the handle. *)
Definition within (this : S3db) (r : request) : Prop :=
  match bucket_of r with
  | Some b => bucketName this = Some b
  | None => True
  end.

(** The request is the generation of an identifier, or a put into the
    bucket of the handle under the prefix of its collection. *)
Definition put_in_collection (this : S3db) (r : request) : Prop :=
  match r with
  | Uuid => True
  | PutObject b k _ _ =>
      bucketName this = Some b
      /\ exists c, collectionName this = Some c /\ String.prefix (c +:+ "/") k = true
  | _ => False
  end.

(** The request can change what the store holds at key [k] of bucket [b]. *)
Definition touches (r : request) (b k : string) : Prop :=
  match r with
  | PutObject b' k' _ _ => b' = b /\ k' = k
  | DeleteObjects b' ks => b' = b /\ Some k ∈ ks
  | _ => False
  end.

(** The key of a media file of a document. *)
Definition media_key (c id name : string) : string := c +:+ "/" +:+ id +:+ "/" +:+ name.

(** The puts of the media of a document, one after the other, whatever
    the answers: the answers in the order of the files, and the state in
    which the last put leaves the server. *)
Fixpoint put_media {World : Type}
    (serve : forall r : request, World -> settled (response r) * World)
    (b c id : string) (media : list File.t) (w : World) : list (settled unit) * World :=
  match media with
  | [] => ([], w)
  | file :: media =>
      let '(x, w1) := serve (media_put b c id file) w in
      let '(xs, w2) := put_media serve b c id media w1 in
      (x :: xs, w2)
  end.

(** The contents of bucket [b1] once the document and its picture are
    stored. *)
Definition demo_bucket_with_media : gmap string MemS3.stored :=
  default ∅ (MemS3.buckets demo_world_with_media !! "b1").

(** A document whose identifier is the empty string. *)
Definition demo_document_empty_id : JSON.object := [("id", JSON.JStr "")].

(** A handle whose collection name has not been set. *)
Definition demo_handle_unbound : S3db :=
  {| bucketName := Some "b1"; collectionName := None |}.

(** A JSON text, written line by line with an apostrophe for each double
    quote. *)
Definition json_text (lines : list string) : string :=
  string_of_list_ascii
    (map (fun c => if Ascii.eqb c "'" then JSON.dquote else c)
         (JSON.join [JSON.newline] (map list_ascii_of_string lines))).

(** A document without identifier, with the Numbers [1.5] and [1e21]. *)
Definition demo_priced_document : JSON.object :=
  [("title", JSON.JStr "A");
   ("price", JSON.JNum (Number.of_decimal false 15 (-1)));
   ("views", JSON.JNum (Number.of_decimal false 1 21))].

(** A document that brings its identifier. *)
Definition demo_document_with_id : JSON.object :=
  [("id", JSON.JStr "d7"); ("title", JSON.JStr "B")].

(** Stores in which the body of document [f] is the JSON text [1.5], and
    the body of document [g] a text that is not JSON. *)
Definition demo_world_fraction : MemS3.world :=
  (MemS3.serve (PutObject "b1" "c1/f/data.json" (Some "1.5") None) demo_world).2.

Definition demo_world_garbled : MemS3.world :=
  (MemS3.serve (PutObject "b1" "c1/g/data.json" (Some "{oops") None) demo_world).2.

(** An environment whose three variables differ from [demo_config]. *)
Definition demo_env_other : ProcessEnv :=
  {| S3_DB_REGION := Some "us-east-1";
     S3_DB_ACCESS_KEY_ID := Some "ENVKEY";
     S3_DB_SECRET_ACCESS_KEY := Some "envsecret" |}.

(* ===================================================================== *)
(** ** Facts about Numbers and their numerals                             *)
(* ===================================================================== *)

Module NumberFacts.
Import Number.

Local Open Scope Z_scope.

(** *** Digits *)

Lemma digit_of_char d : digit d -> digit_of (digit_char d) = Some d.
Proof.
  intros [H0 H9].
  assert (H : d = 0 \/ d = 1 \/ d = 2 \/ d = 3 \/ d = 4 \/ d = 5 \/ d = 6 \/ d = 7
              \/ d = 8 \/ d = 9) by lia.
  repeat (destruct H as [->|H]; [reflexivity|]). subst d. reflexivity.
Qed.

Lemma digit_of_digit c d : digit_of c = Some d -> digit d.
Proof.
  unfold digit_of, digit.
  destruct ((48 <=? Z.of_N (N_of_ascii c)) && (Z.of_N (N_of_ascii c) <=? 57)) eqn:H;
    [|discriminate].
  intros [= <-]. lia.
Qed.

Lemma fold_digits l acc :
  fold_left (fun a d => 10 * a + d) l acc
  = acc * 10 ^ Z.of_nat (length l) + fold_left (fun a d => 10 * a + d) l 0.
Proof.
  revert acc. induction l as [|d l IH]; intros acc; cbn [fold_left length].
  - change (10 ^ Z.of_nat 0) with 1. lia.
  - rewrite IH, (IH (10 * 0 + d)), Nat2Z.inj_succ, Z.pow_succ_r by lia. ring.
Qed.

Lemma value_of_app a b :
  value_of (a ++ b) = value_of a * 10 ^ Z.of_nat (length b) + value_of b.
Proof. unfold value_of. rewrite fold_left_app. apply fold_digits. Qed.

Lemma value_of_cons d l : value_of (d :: l) = d * 10 ^ Z.of_nat (length l) + value_of l.
Proof. apply (value_of_app [d] l). Qed.

Lemma value_of_snoc l d : value_of (l ++ [d]) = value_of l * 10 + d.
Proof. rewrite value_of_app. reflexivity. Qed.

Lemma value_of_bound ds : Forall digit ds -> 0 <= value_of ds < 10 ^ Z.of_nat (length ds).
Proof.
  induction ds as [|d ds IH] using rev_ind; intros Hds.
  - cbn. lia.
  - apply Forall_app in Hds as [Hds Hd]. apply Forall_inv in Hd.
    specialize (IH Hds). rewrite value_of_snoc, length_app, Nat2Z.inj_add, Z.pow_add_r by lia.
    change (10 ^ Z.of_nat (length [d])) with 10. unfold digit in Hd. lia.
Qed.

Lemma value_of_zeros n : value_of (repeat 0 n) = 0.
Proof.
  induction n as [|n IH]; [reflexivity|].
  cbn [repeat]. rewrite value_of_cons, IH. lia.
Qed.

Lemma digit_zeros n : Forall digit (repeat 0 n).
Proof. induction n; constructor; [unfold digit; lia|assumption]. Qed.

Lemma last_digits_length k n : length (last_digits k n) = k.
Proof.
  revert n. induction k as [|k IH]; intros n; cbn [last_digits]; [reflexivity|].
  rewrite length_app, IH. cbn. lia.
Qed.

Lemma last_digits_digit k n : Forall digit (last_digits k n).
Proof.
  revert n. induction k as [|k IH]; intros n; cbn [last_digits]; [constructor|].
  apply Forall_app. split; [apply IH|]. constructor; [|constructor].
  unfold digit. pose proof (Z.mod_pos_bound n 10). lia.
Qed.

Lemma last_digits_value k n :
  value_of (last_digits k n) = n mod 10 ^ Z.of_nat k.
Proof.
  revert n. induction k as [|k IH]; intros n; cbn [last_digits].
  - change (10 ^ Z.of_nat 0) with 1. rewrite Z.mod_1_r. reflexivity.
  - rewrite value_of_snoc, IH, Nat2Z.inj_succ, Z.pow_succ_r by lia.
    rewrite (Z.rem_mul_r n 10 (10 ^ Z.of_nat k)) by lia. lia.
Qed.

(** The digits of a number of [k] digits. *)
Lemma last_digits_exact k s :
  (0 < k)%nat -> 10 ^ (Z.of_nat k - 1) <= s < 10 ^ Z.of_nat k ->
  exists d tl,
    last_digits k s = d :: tl /\ d <> 0 /\ Forall digit (d :: tl)
    /\ length (d :: tl) = k /\ value_of (d :: tl) = s.
Proof.
  intros Hk Hs.
  assert (H0 : 0 < 10 ^ (Z.of_nat k - 1)) by (apply Z.pow_pos_nonneg; lia).
  pose proof (last_digits_length k s) as Hlen.
  pose proof (last_digits_digit k s) as Hdig.
  pose proof (last_digits_value k s) as Hval.
  rewrite Z.mod_small in Hval by lia.
  destruct (last_digits k s) as [|d tl]; [cbn in Hlen; lia|].
  exists d, tl. repeat split; try assumption.
  intros ->. rewrite value_of_cons in Hval.
  apply Forall_inv_tail in Hdig. apply value_of_bound in Hdig.
  cbn [length] in Hlen. replace (Z.of_nat k - 1) with (Z.of_nat (length tl)) in Hs by lia.
  lia.
Qed.

Lemma drop_zeros_cons d d' l :
  drop_zeros (d :: d' :: l) = if d =? 0 then drop_zeros (d' :: l) else d :: d' :: l.
Proof. reflexivity. Qed.

Lemma drop_zeros_value l : value_of (drop_zeros l) = value_of l.
Proof.
  induction l as [|d l IH]; [reflexivity|]. destruct l as [|d' l]; [reflexivity|].
  rewrite drop_zeros_cons. destruct (Z.eqb_spec d 0) as [->|]; [|reflexivity].
  rewrite IH, (value_of_cons 0). lia.
Qed.

Lemma drop_zeros_digit l : Forall digit l -> Forall digit (drop_zeros l).
Proof.
  induction l as [|d l IH]; intros H; [assumption|]. destruct l as [|d' l]; [assumption|].
  rewrite drop_zeros_cons. destruct (d =? 0); [|assumption].
  apply IH. apply Forall_inv_tail in H. exact H.
Qed.

Lemma drop_zeros_nonempty l : l <> [] -> drop_zeros l <> [].
Proof.
  induction l as [|d l IH]; intros H; [assumption|]. destruct l as [|d' l]; [assumption|].
  rewrite drop_zeros_cons. destruct (d =? 0); [|assumption]. apply IH. discriminate.
Qed.

Lemma drop_zeros_head l d d' tl : drop_zeros l = d :: d' :: tl -> d <> 0.
Proof.
  induction l as [|e l IH]; [discriminate|]. destruct l as [|e' l]; [discriminate|].
  rewrite drop_zeros_cons. destruct (Z.eqb_spec e 0); [exact IH|].
  intros [= <- <- <-]. assumption.
Qed.

Lemma digits_digit n : Forall digit (digits n).
Proof. apply drop_zeros_digit, last_digits_digit. Qed.

Lemma digits_nonempty n : digits n <> [].
Proof.
  apply drop_zeros_nonempty. intros H. apply (f_equal (@length Z)) in H.
  rewrite last_digits_length in H. discriminate H.
Qed.

Lemma digits_value n : 0 <= n -> value_of (digits n) = n.
Proof.
  intros Hn. unfold digits. rewrite drop_zeros_value, last_digits_value.
  apply Z.mod_small. split; [assumption|].
  destruct (Z.eq_dec n 0) as [->|Hne]; [cbn; lia|].
  rewrite Nat2Z.inj_succ, Z2Nat.id by apply Z.log2_nonneg.
  pose proof (Z.log2_spec n ltac:(lia)) as [_ Hlt].
  apply (Z.lt_le_trans _ _ _ Hlt). apply Z.pow_le_mono_l. lia.
Qed.

(** The number of the digits of a positive number. *)
Lemma digits_count s :
  0 < s ->
  10 ^ (Z.of_nat (length (digits s)) - 1) <= s < 10 ^ Z.of_nat (length (digits s)).
Proof.
  intros Hs. pose proof (digits_value s ltac:(lia)) as Hval.
  pose proof (digits_digit s) as Hdig. pose proof (value_of_bound _ Hdig) as Hb.
  rewrite Hval in Hb. split; [|lia].
  destruct (digits s) as [|d [|d' tl]] eqn:Hds.
  - cbn in Hval. lia.
  - cbn. lia.
  - apply drop_zeros_head in Hds as Hd. rewrite value_of_cons in Hval.
    apply Forall_inv in Hdig as Hd9. apply Forall_inv_tail in Hdig.
    apply value_of_bound in Hdig. unfold digit in Hd9.
    replace (Z.of_nat (length (d :: d' :: tl)) - 1) with (Z.of_nat (length (d' :: tl)))
      by (cbn [length]; lia).
    assert (0 < 10 ^ Z.of_nat (length (d' :: tl))) by (apply Z.pow_pos_nonneg; lia).
    nia.
Qed.


(** *** Rounding a value that is a Number *)

Lemma eqb_eq x y : eqb x y = true -> x = y.
Proof.
  destruct x as [|a|a m e], y as [|b|b m' e']; try discriminate; cbn [eqb].
  - reflexivity.
  - intros H. apply Bool.eqb_prop in H. congruence.
  - intros H. apply andb_prop in H as [H He]. apply andb_prop in H as [Ha Hm].
    apply Bool.eqb_prop in Ha. apply Z.eqb_eq in Hm, He. congruence.
Qed.

Lemma canonical_inv negative m e :
  canonical (Finite negative m e) = true ->
  0 <= m < 9007199254740992 /\ -1074 <= e <= 971
  /\ (4503599627370496 <= m \/ e = -1074).
Proof.
  cbn [canonical]. change (2 ^ 53) with 9007199254740992.
  change (2 ^ 52) with 4503599627370496. intros H.
  apply andb_prop in H as [H H5]. apply andb_prop in H as [H H4].
  apply andb_prop in H as [H H3]. apply andb_prop in H as [H1 H2].
  apply orb_prop in H5. lia.
Qed.

Lemma log2_ratio_integer m e :
  0 < m -> 0 <= e -> log2_ratio (m * 2 ^ e) 1 = Z.log2 m + e.
Proof.
  intros Hm He. unfold log2_ratio. change (Z.log2 1 + 1) with 1.
  rewrite Z.div_1_r, <- Z.mul_assoc, <- Z.pow_add_r by lia.
  rewrite Z.log2_mul_pow2 by lia. lia.
Qed.

Lemma log2_ratio_fraction m j :
  0 < m -> 0 < j -> log2_ratio (m * 5 ^ j) (10 ^ j) = Z.log2 m - j.
Proof.
  intros Hm Hj. unfold log2_ratio.
  set (k := Z.log2 (10 ^ j) + 1).
  assert (Hk : j < k).
  { unfold k. rewrite <- (Z.log2_pow2 j) at 1 by lia.
    assert (Z.log2 (2 ^ j) <= Z.log2 (10 ^ j)); [|lia].
    apply Z.log2_le_mono. apply Z.pow_le_mono_l. lia. }
  assert (H10 : 10 ^ j = 2 ^ j * 5 ^ j) by (rewrite <- Z.pow_mul_l; reflexivity).
  assert (Hpos : 0 < 10 ^ j) by (apply Z.pow_pos_nonneg; lia).
  replace (m * 5 ^ j * 2 ^ k) with (m * 2 ^ (k - j) * 10 ^ j).
  - rewrite Z.div_mul by lia. rewrite Z.log2_mul_pow2 by lia. lia.
  - replace k with ((k - j) + j) at 2 by lia. rewrite Z.pow_add_r by lia.
    rewrite H10. ring.
Qed.

Lemma round_from negative num den m e :
  canonical (Finite negative m e) = true -> 0 < den ->
  Z.max (log2_ratio num den - 52) (-1074) = e ->
  (if 0 <=? e then num else num * 2 ^ (- e))
  = m * (if 0 <=? e then den * 2 ^ e else den) ->
  round negative num den = Finite negative m e.
Proof.
  intros Hc Hden Hmax Hscale. apply canonical_inv in Hc as (Hm & He & _).
  unfold round. cbv zeta. rewrite Hmax, Hscale.
  set (b := if 0 <=? e then den * 2 ^ e else den).
  assert (Hb : 0 < b).
  { unfold b. destruct (0 <=? e) eqn:H0; [|assumption].
    apply Z.leb_le in H0. apply Z.mul_pos_pos; [assumption|].
    apply Z.pow_pos_nonneg; lia. }
  rewrite Z.div_mul, Z.mod_mul by lia.
  replace (b <? 2 * 0) with false by (symmetry; apply Z.ltb_ge; lia).
  replace (b =? 2 * 0) with false by (symmetry; apply Z.eqb_neq; lia).
  cbn [orb andb]. change (2 ^ 53) with 9007199254740992.
  replace (m =? 9007199254740992) with false by (symmetry; apply Z.eqb_neq; lia).
  replace (971 <? e) with false by (symmetry; apply Z.ltb_ge; lia).
  reflexivity.
Qed.

Lemma binade m e :
  canonical (Finite false m e) = true -> 0 < m ->
  Z.max (Z.log2 m + e - 52) (-1074) = e.
Proof.
  intros Hc Hm. apply canonical_inv in Hc as (Hm' & He & [Hn| ->]).
  - assert (Z.log2 m = 52); [|lia].
    apply Z.log2_unique; [lia|]. change (2 ^ 52) with 4503599627370496.
    change (2 ^ (52 + 1)) with 9007199254740992. lia.
  - assert (Z.log2 m < 53); [|lia].
    apply Z.log2_lt_pow2; [assumption|]. change (2 ^ 53) with 9007199254740992. lia.
Qed.

Lemma round_integer negative m e :
  canonical (Finite negative m e) = true -> 0 < m -> 0 <= e ->
  round negative (m * 2 ^ e) 1 = Finite negative m e.
Proof.
  intros Hc Hm He. apply round_from; [assumption|lia| |].
  - rewrite log2_ratio_integer by assumption. apply binade; assumption.
  - destruct (0 <=? e) eqn:H0; [ring|]. apply Z.leb_gt in H0. lia.
Qed.

Lemma round_fraction negative m e :
  canonical (Finite negative m e) = true -> 0 < m -> e < 0 ->
  round negative (m * 5 ^ (- e)) (10 ^ (- e)) = Finite negative m e.
Proof.
  intros Hc Hm He. apply round_from; [assumption|apply Z.pow_pos_nonneg; lia| |].
  - rewrite log2_ratio_fraction by lia.
    replace (Z.log2 m - - e - 52) with (Z.log2 m + e - 52) by lia.
    apply binade; assumption.
  - destruct (0 <=? e) eqn:H0; [apply Z.leb_le in H0; lia|].
    replace (10 ^ (- e)) with (2 ^ (- e) * 5 ^ (- e)) by (rewrite <- Z.pow_mul_l; reflexivity).
    ring.
Qed.

Lemma round_negative num den m e :
  round false num den = Finite false m e -> round true num den = Finite true m e.
Proof.
  unfold round. cbv zeta.
  match goal with |- context [if ?c then Infinity _ else _] => destruct c end;
    [discriminate|].
  intros [= <- <-]. reflexivity.
Qed.

Lemma of_decimal_sign negative s exponent m e :
  of_decimal false s exponent = Finite false m e ->
  of_decimal negative s exponent = Finite negative m e.
Proof.
  destruct negative; [|auto]. unfold of_decimal, zero.
  destruct (s =? 0); [intros [= <- <-]; reflexivity|].
  destruct (0 <=? exponent); apply round_negative.
Qed.

(** *** The numeral of [Number::toString] denotes the Number *)

Lemma denotes_good m e k c :
  1 <= k -> denotes (Finite false m e) k c = true -> numeral_of m e (c.1, k, c.2).
Proof.
  intros Hk. destruct c as [s n]. cbn [denotes fst snd numeral_of]. intros H.
  apply andb_prop in H as [H Hx]. apply andb_prop in H as [Hlo Hhi].
  apply eqb_eq in Hx. split; [assumption|]. split; [lia|assumption].
Qed.

Lemma denotes_some m e k c s n' :
  1 <= k -> denotes (Finite false m e) k c = true -> Some c = Some (s, n') ->
  numeral_of m e (s, k, n').
Proof. intros Hk H [= ->]. apply (denotes_good m e k (s, n') Hk H). Qed.

Lemma numeral_good m e num den n k s n' :
  1 <= k -> numeral (Finite false m e) num den n k = Some (s, n') ->
  numeral_of m e (s, k, n').
Proof.
  intros Hk. unfold numeral. cbv zeta.
  repeat match goal with
         | |- context [denotes ?x ?k ?c] =>
             let H := fresh "Hd" in destruct (denotes x k c) eqn:H
         end;
    try discriminate;
    try match goal with |- context [if ?c then _ else _] => destruct c end;
    intros Heq; eauto using denotes_some.
Qed.

Lemma expansion_good m e :
  canonical (Finite false m e) = true -> 0 < m -> numeral_of m e (expansion m e).
Proof.
  intros Hc Hm. unfold expansion. cbv zeta.
  set (s := if 0 <=? e then m * 2 ^ e else m * 5 ^ (- e)).
  assert (Hs : 0 < s).
  { unfold s. destruct (0 <=? e) eqn:H0; apply Z.mul_pos_pos; try assumption;
      apply Z.pow_pos_nonneg; lia. }
  pose proof (digits_count s Hs) as Hcount.
  pose proof (digits_nonempty s) as Hne.
  cbn [numeral_of]. split; [|split; [assumption|]].
  - destruct (digits s); [congruence|]. cbn [length]. lia.
  - unfold of_decimal. replace (s =? 0) with false by (symmetry; apply Z.eqb_neq; lia).
    unfold s. destruct (0 <=? e) eqn:H0.
    + apply Z.leb_le in H0. rewrite Z.sub_diag. cbn [Z.leb Z.compare].
      change (10 ^ 0) with 1. rewrite Z.mul_1_r. apply round_integer; assumption.
    + apply Z.leb_gt in H0.
      replace (Z.of_nat (length (digits (m * 5 ^ (- e)))) + e
               - Z.of_nat (length (digits (m * 5 ^ (- e))))) with e by lia.
      replace (0 <=? e) with false by (symmetry; apply Z.leb_gt; assumption).
      apply round_fraction; assumption.
Qed.

Lemma shortest_from_good fuel m e num den n k :
  canonical (Finite false m e) = true -> 0 < m -> 1 <= k ->
  numeral_of m e (shortest_from fuel m e num den n k).
Proof.
  intros Hc Hm. revert k. induction fuel as [|fuel IH]; intros k Hk; cbn [shortest_from].
  - apply expansion_good; assumption.
  - destruct (numeral (Finite false m e) num den n k) as [[s n']|] eqn:Hnum.
    + apply (numeral_good m e num den n k); assumption.
    + apply IH. lia.
Qed.

Lemma shortest_good m e :
  canonical (Finite false m e) = true -> 0 < m -> numeral_of m e (shortest m e).
Proof. intros Hc Hm. apply shortest_from_good; [assumption|assumption|lia]. Qed.


(** *** Reading the text of a Number *)

Lemma read_digits_chars ds rest :
  Forall digit ds -> digits_stop rest ->
  read_digits (map digit_char ds ++ rest) = (ds, rest).
Proof.
  intros Hds Hrest. induction Hds as [|d ds Hd Hds IH]; cbn [map app].
  - destruct rest as [|c rest]; [reflexivity|]. cbn [read_digits digits_stop] in *.
    rewrite Hrest. reflexivity.
  - cbn [read_digits]. rewrite (digit_of_char d Hd), IH. reflexivity.
Qed.

Lemma digit_char_not c d :
  digit d -> digit_of c = None -> Ascii.eqb (digit_char d) c = false.
Proof.
  intros Hd Hc. destruct (Ascii.eqb_spec (digit_char d) c) as [<-|]; [|reflexivity].
  rewrite (digit_of_char d Hd) in Hc. discriminate Hc.
Qed.

Lemma plain_nonzero d l : d <> 0 -> plain (d :: l) = true.
Proof.
  intros Hd. cbn [plain]. destruct l; [reflexivity|].
  apply negb_true_iff, Z.eqb_neq, Hd.
Qed.

Lemma zeros_chars n : repeat "0"%char n = map digit_char (repeat 0 n).
Proof. induction n as [|n IH]; [reflexivity|]. cbn [repeat map]. rewrite <- IH. reflexivity. Qed.

Lemma read_sign_digit d s :
  digit d -> read_sign (digit_char d :: s) = (false, digit_char d :: s).
Proof.
  intros Hd. cbn [read_sign]. rewrite (digit_char_not "-" d Hd eq_refl). reflexivity.
Qed.

(** The exponent part that [Number::toString] writes. *)
Lemma read_exponent_written x :
  x <> 0 ->
  read_exponent ("e"%char :: (if x <? 0 then "-"%char else "+"%char)
                   :: digits_of_Z (Z.abs x))
  = Some (x, []).
Proof.
  intros Hx. cbn [read_exponent]. change (Ascii.eqb "e" "e") with true. cbn [orb].
  pose proof (read_digits_chars (digits (Z.abs x)) [] (digits_digit _) I) as Hread.
  rewrite app_nil_r in Hread. fold (digits_of_Z (Z.abs x)) in Hread.
  pose proof (digits_value (Z.abs x) (Z.abs_nonneg x)) as Hval.
  pose proof (digits_nonempty (Z.abs x)) as Hne.
  destruct (x <? 0) eqn:Hneg.
  - change (Ascii.eqb "-" "-") with true. cbv iota. rewrite Hread.
    destruct (digits (Z.abs x)) as [|d ds]; [congruence|]. rewrite Hval.
    apply Z.ltb_lt in Hneg. f_equal. f_equal. lia.
  - change (Ascii.eqb "+" "-") with false. change (Ascii.eqb "+" "+") with true.
    cbv iota. rewrite Hread.
    destruct (digits (Z.abs x)) as [|d ds]; [congruence|]. rewrite Hval.
    apply Z.ltb_ge in Hneg. f_equal. f_equal. lia.
Qed.

Lemma of_decimal_zeros negative s j :
  s <> 0 -> 0 <= j -> of_decimal negative (s * 10 ^ j) 0 = of_decimal negative s j.
Proof.
  intros Hs Hj. unfold of_decimal.
  assert (0 < 10 ^ j) by (apply Z.pow_pos_nonneg; lia).
  replace (s * 10 ^ j =? 0) with false by (symmetry; apply Z.eqb_neq; nia).
  replace (s =? 0) with false by (symmetry; apply Z.eqb_neq; assumption).
  replace (0 <=? j) with true by (symmetry; apply Z.leb_le; assumption).
  cbn [Z.leb Z.compare]. change (10 ^ 0) with 1. rewrite Z.mul_1_r. reflexivity.
Qed.

(** The text that [layout] makes of the [k] digits of [s] is a numeral, and
    it denotes what [s * 10^(n-k)] denotes. *)
Lemma of_token_layout (negative : bool) s k n :
  1 <= k -> 10 ^ (k - 1) <= s < 10 ^ k ->
  of_token ((if negative then ["-"%char] else [])
              ++ layout (map digit_char (last_digits (Z.to_nat k) s)) k n)
  = Some (of_decimal negative s (n - k), []).
Proof.
  intros Hk Hs.
  destruct (last_digits_exact (Z.to_nat k) s) as (d & tl & Hds & Hd & Hdig & Hlen & Hval).
  { lia. }
  { rewrite Z2Nat.id by lia. assumption. }
  rewrite Hds. clear Hds.
  assert (Hs0 : s <> 0).
  { assert (0 < 10 ^ (k - 1)) by (apply Z.pow_pos_nonneg; lia). lia. }
  apply Forall_inv in Hdig as Hd9. apply Forall_inv_tail in Hdig as Htl.
  assert (Hsign : forall body,
    of_token ((if negative then ["-"%char] else []) ++ digit_char d :: body)
    = let '(int, s2) := read_digits (digit_char d :: body) in
      if plain int then
        match read_fraction s2 with
        | Some (frac, s3) =>
            match read_exponent s3 with
            | Some (exponent, s4) =>
                Some (of_decimal negative (value_of (int ++ frac))
                        (exponent - Z.of_nat (length frac)), s4)
            | None => None
            end
        | None => None
        end
      else None).
  { intros body. unfold of_token. destruct negative; cbn [app].
    - reflexivity.
    - rewrite (read_sign_digit d body Hd9). reflexivity. }
  unfold layout.
  destruct ((k <=? n) && (n <=? 21)) eqn:H1.
  - (* digits, then zeros *)
    apply andb_prop in H1 as [Hkn Hn]. apply Z.leb_le in Hkn, Hn.
    cbn [map app]. rewrite Hsign.
    rewrite zeros_chars, <- map_app.
    change (digit_char d :: map digit_char (tl ++ repeat 0 (Z.to_nat (n - k))))
      with (map digit_char (d :: tl ++ repeat 0 (Z.to_nat (n - k)))).
    rewrite <- (app_nil_r (map digit_char _)).
    rewrite read_digits_chars;
      [|constructor; [assumption|apply Forall_app; split; [assumption|apply digit_zeros]]
       |exact I].
    rewrite plain_nonzero by assumption. cbn [read_fraction read_exponent length].
    rewrite app_nil_r.
    change (d :: tl ++ repeat 0 (Z.to_nat (n - k)))
      with ((d :: tl) ++ repeat 0 (Z.to_nat (n - k))).
    rewrite value_of_app, value_of_zeros, repeat_length, Hval, Z2Nat.id, Z.add_0_r by lia.
    change (0 - Z.of_nat 0) with 0. rewrite of_decimal_zeros by (assumption || lia).
    reflexivity.
  - destruct ((0 <? n) && (n <=? 21)) eqn:H2.
    + (* a point inside the digits *)
      apply andb_prop in H2 as [Hn0 Hn]. apply Z.ltb_lt in Hn0. apply Z.leb_le in Hn.
      assert (Hnk : n < k).
      { apply andb_false_iff in H1 as [H1|H1]; [apply Z.leb_gt in H1; lia|].
        apply Z.leb_gt in H1. lia. }
      destruct (Z.to_nat n) as [|n'] eqn:Hn'; [lia|].
      rewrite firstn_map, skipn_map.
      cbn [firstn skipn map app]. rewrite Hsign.
      change (digit_char d :: map digit_char (firstn n' tl)
                ++ "."%char :: map digit_char (skipn n' tl))
        with (map digit_char (d :: firstn n' tl)
                ++ "."%char :: map digit_char (skipn n' tl)).
      assert (Hfirst : Forall digit (firstn n' tl)) by (apply Forall_take; assumption).
      assert (Hlast : Forall digit (skipn n' tl)) by (apply Forall_drop; assumption).
      rewrite read_digits_chars; [|constructor; assumption|reflexivity].
      rewrite plain_nonzero by assumption. cbn [read_fraction].
      change (Ascii.eqb "." ".") with true. cbv iota.
      rewrite <- (app_nil_r (map digit_char (skipn n' tl))).
      rewrite read_digits_chars; [|assumption|exact I].
      assert (Hlen' : length (skipn n' tl) = Z.to_nat (k - n)).
      { rewrite length_skipn. cbn [length] in Hlen. lia. }
      destruct (skipn n' tl) as [|d' tl'] eqn:Hskip; [cbn [length] in Hlen'; lia|].
      cbn [read_exponent].
      assert (Hv : value_of ((d :: firstn n' tl) ++ d' :: tl') = s).
      { rewrite <- Hskip. change ((d :: firstn n' tl) ++ skipn n' tl)
          with (d :: (firstn n' tl ++ skipn n' tl)).
        rewrite firstn_skipn. exact Hval. }
      assert (He : 0 - Z.of_nat (length (d' :: tl')) = n - k) by (rewrite Hlen'; lia).
      rewrite Hv, He. reflexivity.
    + destruct ((-6 <? n) && (n <=? 0)) eqn:H3.
      * (* zeros after the point, then the digits *)
        apply andb_prop in H3 as [Hn6 Hn]. apply Z.ltb_lt in Hn6. apply Z.leb_le in Hn.
        assert (Hzero : forall body,
          of_token ((if negative then ["-"%char] else []) ++ "0"%char :: body)
          = of_token ((if negative then ["-"%char] else []) ++ digit_char 0 :: body))
          by reflexivity.
        rewrite Hzero.
        assert (Hsign0 : forall body,
          of_token ((if negative then ["-"%char] else []) ++ digit_char 0 :: body)
          = let '(int, s2) := read_digits (digit_char 0 :: body) in
            if plain int then
              match read_fraction s2 with
              | Some (frac, s3) =>
                  match read_exponent s3 with
                  | Some (exponent, s4) =>
                      Some (of_decimal negative (value_of (int ++ frac))
                              (exponent - Z.of_nat (length frac)), s4)
                  | None => None
                  end
              | None => None
              end
            else None).
        { intros body. unfold of_token. destruct negative; cbn [app]; reflexivity. }
        rewrite Hsign0.
        change (read_digits (digit_char 0 :: "."%char :: ?b)) with ([0], "."%char :: b).
        cbv iota beta. cbn [plain read_fraction].
        change (Ascii.eqb "." ".") with true. cbv iota.
        rewrite zeros_chars, <- map_app, <- (app_nil_r (map digit_char _)).
        rewrite read_digits_chars;
          [|apply Forall_app; split; [apply digit_zeros|constructor; assumption]|exact I].
        destruct (repeat 0 (Z.to_nat (- n)) ++ d :: tl) as [|z zs] eqn:Hz.
        { destruct (repeat 0 (Z.to_nat (- n))); discriminate Hz. }
        cbn [read_exponent]. rewrite <- Hz.
        assert (Hv : value_of ([0] ++ repeat 0 (Z.to_nat (- n)) ++ d :: tl) = s).
        { cbn [app]. rewrite value_of_cons, value_of_app, value_of_zeros, Hval. lia. }
        assert (He : 0 - Z.of_nat (length (repeat 0 (Z.to_nat (- n)) ++ d :: tl)) = n - k).
        { rewrite length_app, repeat_length, Hlen. lia. }
        rewrite Hv, He. reflexivity.
      * (* exponent notation *)
        assert (Hn1 : n - 1 <> 0).
        { apply andb_false_iff in H2, H3.
          destruct H2 as [H2|H2], H3 as [H3|H3];
            rewrite ?Z.ltb_ge, ?Z.leb_gt in *; lia. }
        destruct tl as [|d' tl'].
        -- cbn [map]. rewrite Hsign.
           change (read_digits (digit_char d :: "e"%char :: ?b))
             with (let '(ds, r') := read_digits ("e"%char :: b) in
                   match digit_of (digit_char d) with
                   | Some x => (x :: ds, r')
                   | None => ([], digit_char d :: "e"%char :: b)
                   end).
           rewrite (digit_of_char d Hd9).
           change (read_digits ("e"%char :: ?b)) with (@nil Z, "e"%char :: b).
           cbv iota beta. cbn [plain]. cbn [read_fraction].
           change (Ascii.eqb "e" ".") with false. cbv iota.
           rewrite read_exponent_written by assumption.
           cbn [length] in Hlen. cbn [app length]. rewrite Hval.
           replace (n - 1 - Z.of_nat 0) with (n - k) by lia. reflexivity.
        -- cbn [map]. rewrite Hsign.
           change (read_digits (digit_char d :: "."%char :: ?b))
             with (let '(ds, r') := read_digits ("."%char :: b) in
                   match digit_of (digit_char d) with
                   | Some x => (x :: ds, r')
                   | None => ([], digit_char d :: "."%char :: b)
                   end).
           rewrite (digit_of_char d Hd9).
           change (read_digits ("."%char :: ?b)) with (@nil Z, "."%char :: b).
           cbv iota beta. cbn [plain]. cbn [read_fraction].
           change (Ascii.eqb "." ".") with true. cbv iota.
           change (digit_char d' :: map digit_char tl')
             with (map digit_char (d' :: tl')).
           rewrite read_digits_chars; [|assumption|reflexivity].
           rewrite read_exponent_written by assumption.
           change ([d] ++ d' :: tl') with (d :: d' :: tl'). rewrite Hval.
           replace (n - 1 - Z.of_nat (length (d' :: tl'))) with (n - k)
             by (cbn [length] in *; lia).
           reflexivity.
Qed.

(** The text of a Number that JSON carries is a numeral of the JSON
    grammar, and it denotes the Number. *)
Theorem text_denotes x :
  serializable x = true -> of_token (text x) = Some (x, []).
Proof.
  unfold serializable. intros H. apply andb_prop in H as [H Hz].
  apply andb_prop in H as [Hc Hf]. destruct x as [| |negative m e]; try discriminate Hf.
  pose proof (canonical_inv _ _ _ Hc) as (Hm & He & Hn).
  cbn [text]. destruct (Z.eqb_spec m 0) as [->|Hm0].
  - assert (e = -1074) by lia. subst e.
    destruct negative; [discriminate Hz|reflexivity].
  - assert (Hpos : 0 < m) by lia.
    pose proof (shortest_good m e Hc Hpos) as Hgood.
    destruct (shortest m e) as [[s k] n]. cbn [numeral_of] in Hgood.
    destruct Hgood as (Hk & Hs & Hx).
    rewrite of_token_layout by assumption.
    rewrite (of_decimal_sign negative s (n - k) m e Hx). reflexivity.
Qed.

End NumberFacts.

(* ===================================================================== *)
(** ** Facts about the JSON codec                                         *)
(* ===================================================================== *)

Module JSONFacts.
Import JSON.

Lemma skip_ws_indentation n s : skip_ws (indentation n ++ s) = skip_ws s.
Proof. induction n as [|n IH]; simpl; auto. Qed.

Lemma skip_ws_newline s : skip_ws (newline :: s) = skip_ws s.
Proof. reflexivity. Qed.

Lemma parse_string_escape c tail :
  parse_string (escape_char c ++ tail) =
  match parse_string tail with
  | Some (str, rest) => Some (c :: str, rest)
  | None => None
  end.
Proof.
  destruct c as [[] [] [] [] [] [] [] []]; reflexivity.
Qed.

(** *** Strings *)

Lemma hex_val_hex_char n : (n < 16)%nat -> hex_val (hex_char n) = Some (N.of_nat n).
Proof.
  intros H. do 16 (destruct n as [|n]; [reflexivity|]). lia.
Qed.

Lemma hex_val_digit a : (a < 16)%N -> hex_val (hex_char (N.to_nat a)) = Some a.
Proof.
  intros H. rewrite hex_val_hex_char by lia. rewrite N2Nat.id. reflexivity.
Qed.

Lemma hex4_unicode u tail :
  (u < 65536)%N ->
  exists h1 h2 h3 h4,
    unicode_escape u ++ tail = backslash :: "u"%char :: h1 :: h2 :: h3 :: h4 :: tail
    /\ hex4 h1 h2 h3 h4 = Some u.
Proof.
  intros Hu. eexists _, _, _, _. split; [reflexivity|]. unfold hex4.
  assert (H1 : (u / 4096 < 16)%N) by (apply N.Div0.div_lt_upper_bound; lia).
  assert (H2 : ((u / 256) mod 16 < 16)%N) by (apply N.mod_lt; lia).
  assert (H3 : ((u / 16) mod 16 < 16)%N) by (apply N.mod_lt; lia).
  assert (H4 : (u mod 16 < 16)%N) by (apply N.mod_lt; lia).
  rewrite !hex_val_digit by assumption. f_equal.
  pose proof (N.div_mod u 16 ltac:(lia)) as E1.
  pose proof (N.div_mod (u / 16) 16 ltac:(lia)) as E2.
  pose proof (N.div_mod (u / 256) 16 ltac:(lia)) as E3.
  assert (D1 : (u / 16 / 16 = u / 256)%N) by (rewrite N.Div0.div_div; reflexivity).
  assert (D2 : (u / 256 / 16 = u / 4096)%N) by (rewrite N.Div0.div_div; reflexivity).
  assert (M : (u / 4096 / 16 = 0)%N) by (apply N.div_small; assumption).
  pose proof (N.div_mod (u / 4096) 16 ltac:(lia)) as E4.
  assert (M4 : ((u / 4096) mod 16 = u / 4096)%N) by (apply N.mod_small; assumption).
  rewrite D1 in E2. rewrite D2 in E3. lia.
Qed.

Lemma lone_surrogate_inv c1 c2 c3 u :
  lone_surrogate c1 c2 c3 = Some u ->
  c1 = "237"%char
  /\ (160 <= N_of_ascii c2 <= 191)%N /\ (128 <= N_of_ascii c3 <= 191)%N
  /\ u = (53248 + (N_of_ascii c2 - 128) * 64 + (N_of_ascii c3 - 128))%N.
Proof.
  unfold lone_surrogate.
  destruct (Ascii.eqb c1 "237") eqn:H1; [|discriminate].
  destruct (N.leb 160 (N_of_ascii c2)) eqn:H2; [|discriminate].
  destruct (N.leb (N_of_ascii c2) 191) eqn:H3; [|discriminate].
  destruct (N.leb 128 (N_of_ascii c3)) eqn:H4; [|discriminate].
  destruct (N.leb (N_of_ascii c3) 191) eqn:H5; [|discriminate].
  cbn [andb]. intros [= <-]. apply Ascii.eqb_eq in H1.
  apply N.leb_le in H2, H3, H4, H5. auto.
Qed.

Lemma lone_surrogate_range c1 c2 c3 u :
  lone_surrogate c1 c2 c3 = Some u -> (55296 <= u <= 57343)%N.
Proof. intros H. apply lone_surrogate_inv in H as (_ & ? & ? & ->). lia. Qed.

Lemma utf8_lone c1 c2 c3 u :
  lone_surrogate c1 c2 c3 = Some u -> utf8 u = [c1; c2; c3].
Proof.
  intros H. apply lone_surrogate_inv in H as (-> & H2 & H3 & ->).
  set (n2 := N_of_ascii c2) in *. set (n3 := N_of_ascii c3) in *.
  set (u := (53248 + (n2 - 128) * 64 + (n3 - 128))%N).
  assert (Hu : u = (13 * 4096 + (n2 - 128) * 64 + (n3 - 128))%N) by (unfold u; lia).
  unfold utf8.
  destruct (N.ltb_spec u 128); [lia|]. destruct (N.ltb_spec u 2048); [lia|].
  destruct (N.ltb_spec u 65536); [|lia].
  assert (E3 : (u mod 64 = n3 - 128)%N).
  { rewrite Hu. replace (13 * 4096 + (n2 - 128) * 64 + (n3 - 128))%N
      with ((n3 - 128) + (13 * 64 + (n2 - 128)) * 64)%N by lia.
    rewrite N.Div0.mod_add. apply N.mod_small. lia. }
  assert (E2 : (u / 64 = 13 * 64 + (n2 - 128))%N).
  { rewrite Hu. replace (13 * 4096 + (n2 - 128) * 64 + (n3 - 128))%N
      with ((n3 - 128) + (13 * 64 + (n2 - 128)) * 64)%N by lia.
    rewrite N.div_add by lia. rewrite N.div_small by lia. lia. }
  assert (E2' : ((u / 64) mod 64 = n2 - 128)%N).
  { rewrite E2. replace (13 * 64 + (n2 - 128))%N with ((n2 - 128) + 13 * 64)%N by lia.
    rewrite N.Div0.mod_add. apply N.mod_small. lia. }
  assert (E1 : (u / 4096 = 13)%N).
  { replace 4096%N with (64 * 64)%N by reflexivity. rewrite <- N.Div0.div_div, E2.
    replace (13 * 64 + (n2 - 128))%N with ((n2 - 128) + 13 * 64)%N by lia.
    rewrite N.div_add by lia. rewrite N.div_small by lia. reflexivity. }
  rewrite E1, E2', E3.
  replace (128 + (n2 - 128))%N with n2 by lia.
  replace (128 + (n3 - 128))%N with n3 by lia.
  unfold n2, n3. rewrite !ascii_N_embedding. reflexivity.
Qed.

Lemma low_escape_head c s : Ascii.eqb c backslash = false -> low_escape (c :: s) = None.
Proof.
  intros H. destruct s as [|? [|? [|? [|? [|? ?]]]]]; cbn [low_escape]; try reflexivity.
  rewrite H. reflexivity.
Qed.

Lemma low_escape_escape_char c tail : low_escape (escape_char c ++ tail) = None.
Proof.
  destruct c as [[] [] [] [] [] [] [] []];
    try reflexivity; destruct tail as [|? [|? [|? [|? [|? ?]]]]]; reflexivity.
Qed.

Lemma low_escape_unicode u tail :
  (u < 65536)%N -> is_low u = false -> low_escape (unicode_escape u ++ tail) = None.
Proof.
  intros Hu Hlow. destruct (hex4_unicode u tail Hu) as (h1 & h2 & h3 & h4 & -> & Hhex).
  unfold low_escape. cbn [Ascii.eqb andb]. rewrite !Ascii.eqb_refl. cbn [andb].
  rewrite Hhex, Hlow. reflexivity.
Qed.

Lemma escape_string_cons c1 t :
  escape_string (c1 :: t) =
  match t with
  | c2 :: c3 :: r =>
      match lone_surrogate c1 c2 c3 with
      | Some u => unicode_escape u ++ escape_string r
      | None => escape_char c1 ++ escape_string t
      end
  | _ => escape_char c1 ++ escape_string t
  end.
Proof. destruct t as [|c2 [|c3 r]]; reflexivity. Qed.

Lemma wf_chars_cons c1 t :
  wf_chars (c1 :: t) =
  match t with
  | c2 :: c3 :: r =>
      match lone_surrogate c1 c2 c3 with
      | Some u => negb (is_high u && starts_low r) && wf_chars r
      | None => wf_chars t
      end
  | _ => wf_chars t
  end.
Proof. destruct t as [|c2 [|c3 r]]; reflexivity. Qed.

(** The escape of a low surrogate does not follow the text of a string
    that does not start with one. *)
Lemma low_escape_escape_string l rest :
  starts_low l = false -> low_escape (escape_string l ++ dquote :: rest) = None.
Proof.
  intros Hl. destruct l as [|c1 t]; [apply low_escape_head; reflexivity|].
  rewrite escape_string_cons. destruct t as [|c2 [|c3 r]];
    try (rewrite <- app_assoc; apply low_escape_escape_char).
  cbn [starts_low] in Hl.
  destruct (lone_surrogate c1 c2 c3) as [u|] eqn:Hs.
  - rewrite <- app_assoc. apply low_escape_unicode; [|assumption].
    apply lone_surrogate_range in Hs. lia.
  - rewrite <- app_assoc. apply low_escape_escape_char.
Qed.

Lemma parse_string_lone u tail :
  (55296 <= u <= 57343)%N ->
  (is_high u = true -> low_escape tail = None) ->
  parse_string (unicode_escape u ++ tail) =
  match parse_string tail with
  | Some (str, rest) => Some (utf8 u ++ str, rest)
  | None => None
  end.
Proof.
  intros Hu Hpair.
  destruct (hex4_unicode u tail ltac:(lia)) as (h1 & h2 & h3 & h4 & -> & Hhex).
  cbn [parse_string]. change (Ascii.eqb backslash dquote) with false.
  change (Ascii.eqb backslash backslash) with true.
  change (Ascii.eqb "u" "u") with true. cbv iota. rewrite Hhex.
  destruct (is_high u); [|reflexivity]. rewrite (Hpair eq_refl). reflexivity.
Qed.

(** A string literal is read back as the string that it was written from. *)
Lemma parse_string_quoted_aux n :
  forall l rest,
    (length l <= n)%nat -> wf_chars l = true ->
    parse_string (escape_string l ++ dquote :: rest) = Some (l, rest).
Proof.
  induction n as [|n IH]; intros l rest Hlen Hwf.
  { destruct l; [reflexivity|simpl in Hlen; lia]. }
  destruct l as [|c1 t]; [reflexivity|].
  rewrite escape_string_cons. rewrite wf_chars_cons in Hwf.
  assert (Hplain : wf_chars t = true ->
            parse_string ((escape_char c1 ++ escape_string t) ++ dquote :: rest)
            = Some (c1 :: t, rest)).
  { intros Ht. rewrite <- app_assoc, parse_string_escape, IH; [reflexivity| |assumption].
    simpl in Hlen. lia. }
  destruct t as [|c2 [|c3 r]]; try (apply Hplain; assumption).
  destruct (lone_surrogate c1 c2 c3) as [u|] eqn:Hs; [|apply Hplain; assumption].
  apply andb_prop in Hwf as [Hpair Hr]. rewrite <- app_assoc.
  rewrite parse_string_lone.
  - rewrite IH by (simpl in Hlen; lia || assumption).
    rewrite (utf8_lone _ _ _ _ Hs). reflexivity.
  - apply (lone_surrogate_range _ _ _ _ Hs).
  - intros Hhigh. rewrite Hhigh in Hpair. cbn [andb] in Hpair.
    apply negb_true_iff in Hpair. apply low_escape_escape_string, Hpair.
Qed.

Lemma parse_string_quoted l rest :
  wf_chars l = true ->
  parse_string (escape_string l ++ dquote :: rest) = Some (l, rest).
Proof. apply (parse_string_quoted_aux (length l)). lia. Qed.

(** *** Numerals *)

Lemma number_stop_inv rest :
  Number.number_stop rest = true ->
  rest = []
  \/ exists c r, rest = c :: r /\ Number.digit_of c = None
                 /\ Ascii.eqb c "." = false /\ Ascii.eqb c "e" = false
                 /\ Ascii.eqb c "E" = false /\ Ascii.eqb c "+" = false
                 /\ Ascii.eqb c "-" = false.
Proof.
  destruct rest as [|c r]; [auto|]. cbn [Number.number_stop].
  destruct (Number.digit_of c) eqn:Hd; [discriminate|]. intros H. right. exists c, r.
  apply negb_true_iff in H.
  apply orb_false_elim in H as [H Hminus]. apply orb_false_elim in H as [H Hplus].
  apply orb_false_elim in H as [H HE]. apply orb_false_elim in H as [Hpoint He].
  repeat split; assumption || reflexivity.
Qed.

Lemma read_digits_app s rest :
  Number.number_stop rest = true ->
  Number.read_digits (s ++ rest)
  = let '(u, r) := Number.read_digits s in (u, r ++ rest).
Proof.
  intros Hstop. induction s as [|c s IH]; cbn [app Number.read_digits].
  - destruct (number_stop_inv rest Hstop) as [->|(c & r & -> & Hc & _)]; [reflexivity|].
    cbn [Number.read_digits]. rewrite Hc. reflexivity.
  - destruct (Number.digit_of c); [|reflexivity]. rewrite IH.
    destruct (Number.read_digits s). reflexivity.
Qed.

Lemma read_sign_app s rest :
  Number.number_stop rest = true ->
  Number.read_sign (s ++ rest)
  = let '(negative, r) := Number.read_sign s in (negative, r ++ rest).
Proof.
  intros Hstop. destruct s as [|c s]; cbn [app Number.read_sign].
  - destruct (number_stop_inv rest Hstop) as [->|(c & r & -> & _ & _ & _ & _ & _ & Hm)];
      [reflexivity|]. cbn [Number.read_sign]. rewrite Hm. reflexivity.
  - destruct (Ascii.eqb c "-"); reflexivity.
Qed.

Lemma read_fraction_app s rest :
  Number.number_stop rest = true ->
  Number.read_fraction (s ++ rest)
  = match Number.read_fraction s with
    | Some (u, r) => Some (u, r ++ rest)
    | None => None
    end.
Proof.
  intros Hstop. destruct s as [|c s]; cbn [app Number.read_fraction].
  - destruct (number_stop_inv rest Hstop) as [->|(c & r & -> & _ & Hp & _)]; [reflexivity|].
    cbn [Number.read_fraction]. rewrite Hp. reflexivity.
  - destruct (Ascii.eqb c "."); [|reflexivity].
    rewrite read_digits_app by assumption.
    destruct (Number.read_digits s) as [[|d ds] r]; reflexivity.
Qed.

Lemma read_exponent_app s rest :
  Number.number_stop rest = true ->
  Number.read_exponent (s ++ rest)
  = match Number.read_exponent s with
    | Some (n, r) => Some (n, r ++ rest)
    | None => None
    end.
Proof.
  intros Hstop. destruct s as [|c s]; cbn [app Number.read_exponent].
  - destruct (number_stop_inv rest Hstop)
      as [->|(c & r & -> & _ & _ & He & HE & _)]; [reflexivity|].
    cbn [Number.read_exponent]. rewrite He, HE. reflexivity.
  - destruct (Ascii.eqb c "e" || Ascii.eqb c "E"); [|reflexivity].
    destruct s as [|c1 s]; cbn [app].
    + destruct (number_stop_inv rest Hstop)
        as [->|(c' & r & -> & Hd & _ & _ & _ & Hplus & Hminus)]; [reflexivity|].
      rewrite Hminus, Hplus. cbn [Number.read_digits]. rewrite Hd. reflexivity.
    + destruct (Ascii.eqb c1 "-"); [|destruct (Ascii.eqb c1 "+")];
        try (rewrite read_digits_app by assumption;
             destruct (Number.read_digits s) as [[|d ds] r]; reflexivity).
      change (c1 :: s ++ rest) with ((c1 :: s) ++ rest).
      rewrite read_digits_app by assumption.
      destruct (Number.read_digits (c1 :: s)) as [[|d ds] r]; reflexivity.
Qed.

(** A numeral is read in the same way when something that cannot continue
    it follows. *)
Lemma of_token_app s rest :
  Number.number_stop rest = true ->
  Number.of_token (s ++ rest)
  = match Number.of_token s with
    | Some (x, r) => Some (x, r ++ rest)
    | None => None
    end.
Proof.
  intros Hstop. unfold Number.of_token.
  rewrite read_sign_app by assumption. destruct (Number.read_sign s) as [negative s1].
  rewrite read_digits_app by assumption. destruct (Number.read_digits s1) as [int s2].
  destruct (Number.plain int); [|reflexivity].
  rewrite read_fraction_app by assumption.
  destruct (Number.read_fraction s2) as [[frac s3]|]; [|reflexivity].
  rewrite read_exponent_app by assumption.
  destruct (Number.read_exponent s3) as [[exponent s4]|]; reflexivity.
Qed.

Lemma of_token_head s x r :
  Number.of_token s = Some (x, r) -> exists c t, s = c :: t /\ number_head c = true.
Proof.
  destruct s as [|c t]; [discriminate|]. intros H. exists c, t. split; [reflexivity|].
  unfold number_head. destruct (Number.digit_of c) eqn:Hd; [reflexivity|].
  destruct (Ascii.eqb c "-") eqn:Hm; [reflexivity|].
  unfold Number.of_token in H. cbn [Number.read_sign] in H. rewrite Hm in H.
  cbn [Number.read_digits] in H. rewrite Hd in H. discriminate H.
Qed.

Lemma serializable_finite x : Number.serializable x = true -> Number.is_finite x = true.
Proof.
  unfold Number.serializable. intros H. apply andb_prop in H as [H _].
  apply andb_prop in H as [_ H]. exact H.
Qed.

Lemma number_text_serializable x :
  Number.serializable x = true -> number_text x = Number.text x.
Proof. intros H. unfold number_text. rewrite (serializable_finite x H). reflexivity. Qed.

Lemma parse_number_text x rest :
  Number.serializable x = true -> Number.number_stop rest = true ->
  parse_number (number_text x ++ rest) = Some (JNum x, rest).
Proof.
  intros Hx Hstop. unfold parse_number.
  rewrite (number_text_serializable x Hx), of_token_app by assumption.
  rewrite (NumberFacts.text_denotes x Hx). reflexivity.
Qed.

(** *** Round trip of the codec *)

Lemma number_text_head x :
  Number.serializable x = true ->
  exists c t, number_text x = c :: t /\ number_head c = true.
Proof.
  intros Hx. rewrite (number_text_serializable x Hx).
  apply (of_token_head _ x []), NumberFacts.text_denotes, Hx.
Qed.

Lemma stringify_head indent v :
  wf v = true ->
  exists c t, stringify_at indent v = c :: t /\ value_head c = true.
Proof.
  intros Hwf. destruct v as [|[]|x|s|[|y l]|[|m ms]]; simpl;
    try (eexists _, _; split; reflexivity).
  destruct (number_text_head x Hwf) as (c & t & Heq & Hc).
  exists c, t. split; [assumption|]. unfold value_head. rewrite Hc. reflexivity.
Qed.

Lemma value_head_facts c :
  value_head c = true ->
  is_ws c = false /\ Ascii.eqb c "]" = false /\ Ascii.eqb c "}" = false
  /\ Ascii.eqb c "," = false.
Proof.
  destruct c as [[] [] [] [] [] [] [] []]; intros H; try discriminate H;
    repeat split; reflexivity.
Qed.

Lemma skip_ws_pad pad s :
  forallb is_ws pad = true -> skip_ws (pad ++ s) = skip_ws s.
Proof.
  induction pad as [|c pad IH]; simpl; [reflexivity|].
  intros [Hc Hpad]%andb_prop. rewrite Hc. auto.
Qed.

Lemma skip_ws_head c s : is_ws c = false -> skip_ws (c :: s) = c :: s.
Proof. intros H. simpl. rewrite H. reflexivity. Qed.

Lemma skip_ws_printed indent v rest :
  wf v = true ->
  skip_ws (stringify_at indent v ++ rest) = stringify_at indent v ++ rest.
Proof.
  intros Hwf. destruct (stringify_head indent v Hwf) as (c & t & -> & Hc).
  apply skip_ws_head, value_head_facts, Hc.
Qed.

Lemma indentation_ws n : forallb is_ws (indentation n) = true.
Proof. induction n; simpl; auto. Qed.

Lemma parse_value_pad f pad s :
  forallb is_ws pad = true -> parse_value f (pad ++ s) = parse_value f s.
Proof.
  intros H. destruct f; [reflexivity|]. simpl. rewrite skip_ws_pad by assumption.
  reflexivity.
Qed.

Lemma parse_members_pad f pad s acc :
  forallb is_ws pad = true -> parse_members f (pad ++ s) acc = parse_members f s acc.
Proof.
  intros H. destruct f; [reflexivity|]. simpl. rewrite skip_ws_pad by assumption.
  reflexivity.
Qed.

Lemma parse_value_number f c t :
  number_head c = true -> parse_value (S f) (c :: t) = parse_number (c :: t).
Proof.
  destruct c as [[] [] [] [] [] [] [] []]; intros H; try discriminate H; reflexivity.
Qed.

Lemma parse_value_string f r :
  parse_value (S f) (dquote :: r) =
  match parse_string r with
  | Some (str, r') => Some (JStr (string_of_list_ascii str), r')
  | None => None
  end.
Proof. reflexivity. Qed.

Lemma parse_value_array f r :
  parse_value (S f) ("["%char :: r) =
  match skip_ws r with
  | c' :: r' => if Ascii.eqb c' "]" then Some (JArr [], r') else parse_items f r []
  | [] => None
  end.
Proof. reflexivity. Qed.

Lemma parse_value_object f r :
  parse_value (S f) ("{"%char :: r) =
  match skip_ws r with
  | c' :: r' => if Ascii.eqb c' "}" then Some (JObj [], r') else parse_members f r []
  | [] => None
  end.
Proof. reflexivity. Qed.

Lemma parse_items_step f s acc :
  parse_items (S f) s acc =
  match parse_value f s with
  | None => None
  | Some (v, r) =>
      match skip_ws r with
      | c :: r' =>
          if Ascii.eqb c "," then parse_items f r' (v :: acc)
          else if Ascii.eqb c "]" then Some (JArr (rev (v :: acc)), r')
          else None
      | [] => None
      end
  end.
Proof. reflexivity. Qed.

Lemma parse_members_step f r acc :
  parse_members (S f) (dquote :: r) acc =
  match parse_string r with
  | None => None
  | Some (k, r1) =>
      match skip_ws r1 with
      | c1 :: r2 =>
          if Ascii.eqb c1 ":" then
            match parse_value f r2 with
            | None => None
            | Some (v, r3) =>
                let acc' := (string_of_list_ascii k, v) :: acc in
                match skip_ws r3 with
                | c3 :: r4 =>
                    if Ascii.eqb c3 "," then parse_members f r4 acc'
                    else if Ascii.eqb c3 "}" then
                      Some (JObj (object_of_members (rev acc')), r4)
                    else None
                | [] => None
                end
            end
          else None
      | [] => None
      end
  end.
Proof. reflexivity. Qed.

Lemma quote_app s rest :
  quote s ++ rest = dquote :: escape_string (chars s) ++ dquote :: rest.
Proof. unfold quote. simpl. rewrite <- app_assoc. reflexivity. Qed.

Lemma ordered_before l1 k l2 k' :
  ordered (l1 ++ k :: l2) = true -> k' ∈ l1 -> precedes k' k = true.
Proof.
  induction l1 as [|k1 l1 IH]; simpl; intros Ho Hin; [inversion Hin|].
  apply andb_prop in Ho as [Hall Ho].
  apply elem_of_cons in Hin as [->|Hin]; [|auto].
  rewrite forallb_app in Hall. apply andb_prop in Hall as [_ Hall].
  simpl in Hall. apply andb_prop in Hall as [Hk _]. exact Hk.
Qed.

Lemma place_last k v o :
  (forall k', k' ∈ map fst o -> precedes k' k = true) -> place k v o = o ++ [(k, v)].
Proof.
  induction o as [|[k' v'] o IH]; simpl; intros Hall; [reflexivity|].
  rewrite (Hall k') by left. rewrite IH; [reflexivity|].
  intros k'' Hin. apply Hall. right. exact Hin.
Qed.

Lemma has_fresh k o : k ∉ map fst o -> has k o = false.
Proof.
  unfold has. induction o as [|[k' v'] o IH]; simpl; intros Hk; [reflexivity|].
  apply not_elem_of_cons in Hk as [Hne Hk].
  destruct (String.eqb_spec k' k); [congruence|auto].
Qed.

Lemma fold_define_fresh l o :
  NoDup (map fst (o ++ l)) -> ordered (map fst (o ++ l)) = true ->
  fold_left (fun o kv => define (fst kv) (snd kv) o) l o = o ++ l.
Proof.
  revert o. induction l as [|[k v] l IH]; intros o Hnd Hord; simpl.
  - rewrite app_nil_r. reflexivity.
  - assert (Hdef : define k v o = o ++ [(k, v)]).
    { unfold define. rewrite has_fresh.
      - apply place_last. intros k' Hin. rewrite map_app in Hord.
        apply (ordered_before _ _ _ _ Hord Hin).
      - rewrite map_app in Hnd. apply NoDup_app in Hnd as (_ & Hdisj & _).
        intros Hin. apply (Hdisj k Hin). simpl. left. }
    rewrite Hdef.
    rewrite IH; rewrite <- app_assoc; [reflexivity|assumption|assumption].
Qed.

Lemma object_of_members_ordered l :
  NoDup (map fst l) -> ordered (map fst l) = true -> object_of_members l = l.
Proof. intros Hnd Hord. unfold object_of_members. rewrite fold_define_fresh; auto. Qed.

Lemma join_cons2 sep p q ps : join sep (p :: q :: ps) = p ++ sep ++ join sep (q :: ps).
Proof. reflexivity. Qed.

Lemma bracket_app (a b c d : ascii) (X J I rest : list ascii) :
  (a :: b :: X ++ J ++ c :: I ++ [d]) ++ rest = a :: (b :: X) ++ J ++ c :: I ++ d :: rest.
Proof.
  simpl. f_equal. f_equal. rewrite <- !app_assoc. f_equal. f_equal. simpl. f_equal.
  rewrite <- app_assoc. reflexivity.
Qed.

Lemma value_ok_step f : items_ok f -> members_ok f -> value_ok (S f).
Proof.
  intros Hitems Hmembers v indent rest Hwf Hsize Hstop.
  destruct v as [|[]|n|s|[|x l]|[|m ms]]; try reflexivity.
  - (* number *)
    destruct (number_text_head n Hwf) as (c & t & Heq & Hc).
    cbn [stringify_at]. rewrite Heq. simpl app. rewrite parse_value_number by assumption.
    change (c :: t ++ rest) with ((c :: t) ++ rest). rewrite <- Heq.
    apply parse_number_text; assumption.
  - (* string *)
    cbn [stringify_at]. rewrite quote_app, parse_value_string, parse_string_quoted by exact Hwf.
    unfold chars. rewrite string_of_list_ascii_of_string. reflexivity.
  - (* non-empty array *)
    remember (x :: l) as items eqn:Hitems_eq.
    assert (Hne : items <> []) by (subst; discriminate).
    assert (Htext : stringify_at indent (JArr items) ++ rest =
      "["%char :: (newline :: indentation (indent + gap))
        ++ join (separator (indent + gap)) (map (stringify_at (indent + gap)) items)
        ++ newline :: indentation indent ++ "]"%char :: rest).
    { subst items. apply bracket_app. }
    rewrite Htext, parse_value_array.
    assert (Hpad : forallb is_ws (newline :: indentation (indent + gap)) = true)
      by (simpl; apply indentation_ws).
    rewrite skip_ws_pad by assumption.
    assert (Hhead : exists c t,
      join (separator (indent + gap)) (map (stringify_at (indent + gap)) items)
        ++ newline :: indentation indent ++ "]"%char :: rest = c :: t
      /\ value_head c = true).
    { subst items. cbn [wf forallb] in Hwf. apply andb_prop in Hwf as [Hwfx _].
      destruct (stringify_head (indent + gap) x Hwfx) as (c & t & Hx & Hc).
      destruct l; simpl; rewrite Hx; simpl; eauto. }
    destruct Hhead as (c & t & Hjoin & Hc).
    destruct (value_head_facts c Hc) as (Hws & Hrb & _).
    rewrite Hjoin at 1. rewrite skip_ws_head by assumption. rewrite Hrb.
    apply (Hitems items [] indent (indent + gap) _ rest); try assumption.
    simpl in Hsize. lia.
  - (* non-empty object *)
    remember (m :: ms) as members eqn:Hmembers_eq.
    assert (Hne : members <> []) by (subst; discriminate).
    assert (Htext : stringify_at indent (JObj members) ++ rest =
      "{"%char :: (newline :: indentation (indent + gap))
        ++ join (separator (indent + gap)) (map (member_text (indent + gap)) members)
        ++ newline :: indentation indent ++ "}"%char :: rest).
    { subst members. apply bracket_app. }
    rewrite Htext, parse_value_object.
    assert (Hpad : forallb is_ws (newline :: indentation (indent + gap)) = true)
      by (simpl; apply indentation_ws).
    rewrite skip_ws_pad by assumption.
    assert (Hhead : exists t,
      join (separator (indent + gap)) (map (member_text (indent + gap)) members)
        ++ newline :: indentation indent ++ "}"%char :: rest = dquote :: t).
    { subst members. destruct ms; simpl; unfold member_text, quote; simpl; eauto. }
    destruct Hhead as (t & Hjoin).
    rewrite Hjoin at 1. rewrite skip_ws_head by reflexivity.
    change (Ascii.eqb dquote "}") with false. cbv iota.
    simpl in Hwf. apply andb_prop in Hwf as [Hnd Hwf].
    apply andb_prop in Hnd as [Hnd Hord]. apply bool_decide_eq_true in Hnd.
    rewrite <- (object_of_members_ordered members Hnd Hord) at 2.
    apply (Hmembers members [] indent (indent + gap) _ rest); try assumption.
    simpl in Hsize. lia.
Qed.

Lemma separator_stop inner t : Number.number_stop (separator inner ++ t) = true.
Proof. reflexivity. Qed.

Lemma items_ok_step f : value_ok f -> items_ok f -> items_ok (S f).
Proof.
  intros Hvalue Hitems l acc indent inner pad rest Hne Hwf Hsize Hpad.
  destruct l as [|x l]; [congruence|]. clear Hne.
  simpl in Hwf. apply andb_prop in Hwf as [Hwfx Hwfl].
  simpl in Hsize.
  rewrite parse_items_step, parse_value_pad by assumption.
  destruct l as [|y l].
  - simpl join. simpl map. unfold join.
    rewrite (Hvalue x inner _ Hwfx) by (reflexivity || lia).
    rewrite skip_ws_newline, skip_ws_indentation, skip_ws_head by reflexivity.
    change (Ascii.eqb "]" ",") with false. change (Ascii.eqb "]" "]") with true.
    cbv iota. simpl rev. reflexivity.
  - change (map (stringify_at inner) (x :: y :: l))
      with (stringify_at inner x :: map (stringify_at inner) (y :: l)).
    remember (y :: l) as tl eqn:Htl.
    assert (Hjoin : join (separator inner) (stringify_at inner x :: map (stringify_at inner) tl)
                    = stringify_at inner x ++ separator inner
                        ++ join (separator inner) (map (stringify_at inner) tl))
      by (subst tl; reflexivity).
    rewrite Hjoin, <- !app_assoc.
    rewrite (Hvalue x inner _ Hwfx) by (apply separator_stop || lia).
    unfold separator at 1.
    change ((","%char :: newline :: indentation inner) ++ ?t)
      with (","%char :: (newline :: indentation inner) ++ t).
    rewrite skip_ws_head by reflexivity.
    change (Ascii.eqb "," ",") with true. cbv iota.
    rewrite (Hitems tl (x :: acc) indent inner (newline :: indentation inner) rest).
    + simpl rev. rewrite <- app_assoc. reflexivity.
    + subst tl; discriminate.
    + assumption.
    + lia.
    + simpl. apply indentation_ws.
Qed.

Lemma member_text_app inner k v t :
  member_text inner (k, v) ++ t =
  dquote :: escape_string (chars k)
    ++ dquote :: ":"%char :: [space] ++ stringify_at inner v ++ t.
Proof.
  unfold member_text. simpl fst. simpl snd. rewrite <- app_assoc, quote_app.
  reflexivity.
Qed.

Lemma members_ok_step f : value_ok f -> members_ok f -> members_ok (S f).
Proof.
  intros Hvalue Hmembers l acc indent inner pad rest Hne Hwf Hsize Hpad.
  destruct l as [|[k x] l]; [congruence|]. clear Hne.
  simpl in Hwf. apply andb_prop in Hwf as [Hwfx Hwfl].
  apply andb_prop in Hwfx as [Hwfk Hwfx].
  simpl in Hsize.
  rewrite parse_members_pad by assumption.
  destruct l as [|y l].
  - simpl map. unfold join. rewrite member_text_app.
    rewrite parse_members_step, parse_string_quoted by exact Hwfk.
    rewrite skip_ws_head by reflexivity.
    change (Ascii.eqb ":" ":") with true. cbv iota.
    rewrite parse_value_pad by reflexivity.
    rewrite (Hvalue x inner _ Hwfx) by (reflexivity || lia).
    cbv zeta.
    rewrite skip_ws_newline, skip_ws_indentation, skip_ws_head by reflexivity.
    change (Ascii.eqb "}" ",") with false. change (Ascii.eqb "}" "}") with true.
    cbv iota. unfold chars. rewrite string_of_list_ascii_of_string. reflexivity.
  - change (map (member_text inner) ((k, x) :: y :: l))
      with (member_text inner (k, x) :: map (member_text inner) (y :: l)).
    remember (y :: l) as tl eqn:Htl.
    assert (Hjoin : join (separator inner) (member_text inner (k, x) :: map (member_text inner) tl)
                    = member_text inner (k, x) ++ separator inner
                        ++ join (separator inner) (map (member_text inner) tl))
      by (subst tl; reflexivity).
    rewrite Hjoin, <- !app_assoc. rewrite member_text_app.
    rewrite parse_members_step, parse_string_quoted by exact Hwfk.
    rewrite skip_ws_head by reflexivity.
    change (Ascii.eqb ":" ":") with true. cbv iota.
    rewrite parse_value_pad by reflexivity.
    rewrite (Hvalue x inner _ Hwfx) by (apply separator_stop || lia).
    cbv zeta. unfold separator at 1.
    change ((","%char :: newline :: indentation inner) ++ ?t)
      with (","%char :: (newline :: indentation inner) ++ t).
    rewrite skip_ws_head by reflexivity.
    change (Ascii.eqb "," ",") with true. cbv iota.
    rewrite (Hmembers tl _ indent inner (newline :: indentation inner) rest).
    + simpl rev. rewrite <- app_assoc. unfold chars.
      rewrite string_of_list_ascii_of_string. reflexivity.
    + subst tl; discriminate.
    + assumption.
    + lia.
    + simpl. apply indentation_ws.
Qed.

Lemma codec_ok f : value_ok f /\ items_ok f /\ members_ok f.
Proof.
  induction f as [|f (Hv & Hi & Hm)].
  - repeat split.
    + intros v ? ? _ Hsize. destruct v; simpl in Hsize; lia.
    + intros [|x l] ? ? ? ? ? Hne _ Hsize; [congruence|]. simpl in Hsize. lia.
    + intros [|x l] ? ? ? ? ? Hne _ Hsize; [congruence|]. simpl in Hsize. lia.
  - auto using value_ok_step, items_ok_step, members_ok_step.
Qed.

(** Characters of a printed value: at least as many as its size. *)
Lemma join_length sep parts :
  1 <= length sep ->
  list_sum (map (@length ascii) parts) + length parts <= S (length (join sep parts)).
Proof.
  intros Hsep. induction parts as [|p [|q ps] IH]; simpl in *; rewrite ?length_app; lia.
Qed.

Lemma sum_size_length {A : Type} (sz : A -> nat) (text : A -> list ascii) (l : list A) :
  Forall (fun y => sz y <= length (text y)) l ->
  list_sum (map (fun y => S (sz y)) l) <= list_sum (map (@length ascii) (map text l)) + length l.
Proof.
  induction 1; simpl; lia.
Qed.

Lemma size_le_length_aux n :
  forall v indent, wf v = true -> size v <= n -> size v <= length (stringify_at indent v).
Proof.
  induction n as [|n IH]; intros v indent Hwf Hn.
  { destruct v; simpl in Hn; lia. }
  destruct v as [|[]|k|s|[|x l]|[|m ms]]; try (simpl; lia).
  - destruct (number_text_head k Hwf) as (c & t & Heq & _). cbn [stringify_at size].
    rewrite Heq. simpl. lia.
  - change (size (JArr (x :: l))) with (S (list_sum (map (fun y => S (size y)) (x :: l)))) in *.
    change (stringify_at indent (JArr (x :: l))) with
      ("["%char :: newline :: indentation (indent + gap)
         ++ join (separator (indent + gap)) (map (stringify_at (indent + gap)) (x :: l))
         ++ newline :: indentation indent ++ ["]"%char]).
    change (wf (JArr (x :: l))) with (forallb wf (x :: l)) in Hwf.
    remember (x :: l) as items.
    simpl length. rewrite !length_app. simpl length.
    pose proof (join_length (separator (indent + gap))
                  (map (stringify_at (indent + gap)) items)) as Hj.
    rewrite length_map in Hj.
    pose proof (sum_size_length size (stringify_at (indent + gap)) items) as Hs.
    assert (Hall : Forall (fun y => size y <= length (stringify_at (indent + gap) y)) items).
    { apply Forall_forall. intros y Hy. apply IH.
      - apply (proj1 (forallb_forall wf items) Hwf), list_elem_of_In, Hy.
      - assert (S (size y) <= list_sum (map (fun x => S (size x)) items)); [|lia].
        clear -Hy. induction items as [|z items IHi]; [inversion Hy|].
        apply elem_of_cons in Hy as [->|Hy]; simpl; [lia|]. specialize (IHi Hy). lia. }
    specialize (Hs Hall). simpl in Hj. lia.
  - change (size (JObj (m :: ms)))
      with (S (list_sum (map (fun kv => S (size (snd kv))) (m :: ms)))) in *.
    change (stringify_at indent (JObj (m :: ms))) with
      ("{"%char :: newline :: indentation (indent + gap)
         ++ join (separator (indent + gap)) (map (member_text (indent + gap)) (m :: ms))
         ++ newline :: indentation indent ++ ["}"%char]).
    change (wf (JObj (m :: ms)))
      with (bool_decide (NoDup (map fst (m :: ms)))
            && ordered (map fst (m :: ms))
            && forallb (fun kv => wf_string (fst kv) && wf (snd kv)) (m :: ms)) in Hwf.
    apply andb_prop in Hwf as [_ Hwf].
    remember (m :: ms) as members.
    simpl length. rewrite !length_app. simpl length.
    pose proof (join_length (separator (indent + gap))
                  (map (member_text (indent + gap)) members)) as Hj.
    rewrite length_map in Hj.
    pose proof (sum_size_length (fun kv => size (snd kv)) (member_text (indent + gap)) members) as Hs.
    assert (Hall : Forall (fun kv => size (snd kv) <= length (member_text (indent + gap) kv)) members).
    { apply Forall_forall. intros kv Hkv. unfold member_text. rewrite length_app. simpl length.
      etransitivity; [apply (IH _ (indent + gap))|lia].
      - pose proof (proj1 (forallb_forall _ members) Hwf kv
                      (proj1 (list_elem_of_In _ _) Hkv)) as Hkvwf.
        apply andb_prop in Hkvwf as [_ Hkvwf]. exact Hkvwf.
      - assert (S (size (snd kv)) <= list_sum (map (fun x => S (size (snd x))) members));
          [|lia].
        clear -Hkv. induction members as [|z members IHi]; [inversion Hkv|].
        apply elem_of_cons in Hkv as [->|Hkv]; simpl; [lia|]. specialize (IHi Hkv). lia. }
    specialize (Hs Hall). simpl in Hj. lia.
Qed.

(** [JSON.parse(JSON.stringify(v, null, 4))] gives [v] back. *)
Lemma parse_stringify v : wf v = true -> parse (stringify v) = Some v.
Proof.
  intros Hwf. unfold parse, stringify, chars.
  rewrite list_ascii_of_string_of_list_ascii.
  destruct (codec_ok (S (length (stringify_at 0 v)))) as (Hv & _).
  pose proof (Hv v 0 [] Hwf) as H. rewrite app_nil_r in H. rewrite H.
  - reflexivity.
  - pose proof (size_le_length_aux (size v) v 0 Hwf). lia.
  - reflexivity.
Qed.

End JSONFacts.

(* ===================================================================== *)
(** ** Facts about promises                                               *)
(* ===================================================================== *)

Lemma truthy_nonempty s : s <> "" -> JS.truthy (Some s) = true.
Proof.
  intros H. unfold JS.truthy. destruct (String.eqb_spec s ""); [congruence|reflexivity].
Qed.

Lemma truthy_inv o : JS.truthy o = true -> exists s, o = Some s /\ s <> "".
Proof.
  destruct o as [s|]; simpl; [|discriminate].
  destruct (String.eqb_spec s ""); [discriminate|]. eauto.
Qed.

Lemma invariant_string_some s message :
  s <> "" -> invariant_string (Some s) message = Resolve s.
Proof. intros H. unfold invariant_string. rewrite truthy_nonempty; auto. Qed.

Lemma bound_binds this : bound this = true <-> exists b c, binds this b c.
Proof.
  unfold bound, binds. split.
  - intros [Hb Hc]%andb_prop.
    apply truthy_inv in Hb as (b & Hb & ?). apply truthy_inv in Hc as (c & Hc & ?).
    exists b, c. auto.
  - intros (b & c & -> & -> & ? & ?). rewrite !truthy_nonempty; auto.
Qed.

(** Sequencing is [Promise_then]. *)
Ltac to_then := try unfold mbind, Promise_bind in *.

Section RunFacts.
Context {World : Type}.
Variable serve : forall r : request, World -> settled (response r) * World.

Lemma run_then {A B : Type} (f : A -> Promise B) (p : Promise A) w :
  run serve (Promise_then f p) w =
  match run serve p w with
  | (Fulfilled a, w1, t1) =>
      let '(x, w2, t2) := run serve (f a) w1 in (x, w2, t1 ++ t2)
  | (Rejected e, w1, t1) => (Rejected e, w1, t1)
  end.
Proof.
  revert w. induction p as [a|e|r k IH]; intros w; simpl.
  - destruct (run serve (f a) w) as [[x w2] t2]. reflexivity.
  - reflexivity.
  - destruct (serve r w) as [x w1]. rewrite IH.
    destruct (run serve (k x) w1) as [[[a|e] w2] t2]; [|reflexivity].
    destruct (run serve (f a) w2) as [[y w3] t3]. reflexivity.
Qed.

Lemma run_await r w :
  run serve (await r) w = let '(x, w1) := serve r w in (x, w1, [r]).
Proof.
  unfold await. simpl. destruct (serve r w) as [[v|e] w1]; reflexivity.
Qed.

(** *** One equation per operation of a bound handle *)

Lemma run_getDBEntries this b prefix w :
  bucketName this = Some b -> b <> "" ->
  run serve (getDBEntries this prefix) w =
  match serve (ListObjectsV2 b prefix "/") w with
  | (Fulfilled out, w1) =>
      (Fulfilled {| folderNames := matchFolders prefix (CommonPrefixes out);
                    objects := matchObjects (Contents out) |},
       w1, [ListObjectsV2 b prefix "/"])
  | (Rejected e, w1) => (Rejected e, w1, [ListObjectsV2 b prefix "/"])
  end.
Proof.
  intros Hb Hne. unfold getDBEntries. rewrite Hb, invariant_string_some by assumption.
  simpl. destruct (serve (ListObjectsV2 b prefix "/") w) as [[out|e] w1]; reflexivity.
Qed.

Lemma run_getDBEntry this b key w :
  bucketName this = Some b -> b <> "" ->
  run serve (getDBEntry this key) w =
  match serve (GetObject b key) w with
  | (Fulfilled out, w1) =>
      (match Body out with
       | Some text =>
           match JSON.parse text with
           | Some v => Fulfilled v
           | None => Rejected SyntaxError
           end
       | None => Rejected (InvariantFailed "Invalid Body from getDBEntry")
       end, w1, [GetObject b key])
  | (Rejected e, w1) => (Rejected e, w1, [GetObject b key])
  end.
Proof.
  intros Hb Hne. unfold getDBEntry. rewrite Hb, invariant_string_some by assumption.
  simpl. destruct (serve (GetObject b key) w) as [[[[text|]]|e] w1]; simpl; try reflexivity.
  destruct (JSON.parse text); reflexivity.
Qed.

Lemma run_uploadDBCollectionEntry this b c key body w :
  binds this b c ->
  run serve (uploadDBCollectionEntry this key body) w =
  let put := PutObject b (c +:+ "/" +:+ key) body None in
  let '(x, w1) := serve put w in (x, w1, [put]).
Proof.
  intros (Hb & Hc & ? & ?). unfold uploadDBCollectionEntry.
  rewrite Hb, Hc, !invariant_string_some by assumption.
  simpl. destruct (serve _ w) as [[[]|e] w1]; reflexivity.
Qed.

Lemma run_uploadDBCollectionMedia this b c key file w :
  binds this b c ->
  run serve (uploadDBCollectionMedia this key file) w =
  let put := PutObject b (c +:+ "/" +:+ key) (Some (File.bytes file))
               (Some (media_content_type file)) in
  let '(x, w1) := serve put w in (x, w1, [put]).
Proof.
  intros (Hb & Hc & ? & ?). unfold uploadDBCollectionMedia.
  rewrite Hb, Hc, !invariant_string_some by assumption.
  simpl. destruct (serve _ w) as [[[]|e] w1]; reflexivity.
Qed.

End RunFacts.

(* ===================================================================== *)
(** ** Facts about the string primitives                                  *)
(* ===================================================================== *)

Lemma prefix_app p s : String.prefix p (p +:+ s) = true.
Proof.
  induction p as [|c p IH]; simpl.
  - destruct s; reflexivity.
  - destruct (ascii_dec c c); [assumption|congruence].
Qed.

Lemma drop_chars_app p s : JS.drop_chars (String.length p) (p +:+ s) = s.
Proof. induction p as [|c p IH]; simpl; [destruct s; reflexivity|assumption]. Qed.

Lemma replace_first_unfold pat s :
  JS.replace_first pat s =
  if String.prefix pat s then JS.drop_chars (String.length pat) s
  else match s with
       | EmptyString => EmptyString
       | String c s' => String c (JS.replace_first pat s')
       end.
Proof. destruct s; reflexivity. Qed.

Lemma replace_first_prefix p s : JS.replace_first p (p +:+ s) = s.
Proof. rewrite replace_first_unfold, prefix_app. apply drop_chars_app. Qed.

Lemma split_nonempty sep s : exists x xs, JS.split sep s = x :: xs.
Proof.
  induction s as [|c s (x & xs & IH)]; simpl; [eauto|].
  destruct (Ascii.eqb c sep); [eauto|]. rewrite IH. eauto.
Qed.

Lemma split_head_clean sep s x xs :
  JS.split sep s = x :: xs -> JS.contains sep x = false.
Proof.
  revert x xs. induction s as [|c s IH]; simpl; intros x xs H.
  - injection H as <- <-. reflexivity.
  - destruct (Ascii.eqb c sep) eqn:Hc.
    + injection H as <- <-. reflexivity.
    + destruct (split_nonempty sep s) as (y & ys & Hs). rewrite Hs in H.
      injection H as <- <-. simpl. rewrite Hc. simpl. eapply IH, Hs.
Qed.

Lemma first_segment_clean s : JS.contains "/" (first_segment s) = false.
Proof.
  unfold first_segment. destruct (split_nonempty "/" s) as (x & xs & H).
  rewrite H. eapply split_head_clean, H.
Qed.

Lemma split_segment sep seg rest :
  JS.contains sep seg = false ->
  exists xs, JS.split sep (seg +:+ String sep rest) = seg :: xs.
Proof.
  induction seg as [|c seg IH]; simpl; intros H.
  - rewrite Ascii.eqb_refl. eauto.
  - apply orb_false_elim in H as [Hc Hseg]. rewrite Hc.
    destruct (IH Hseg) as (xs & ->). eauto.
Qed.

Lemma first_segment_next seg rest :
  JS.contains "/" seg = false -> first_segment (seg +:+ String "/" rest) = seg.
Proof.
  intros H. unfold first_segment. destruct (split_segment "/" seg rest H) as (xs & ->).
  reflexivity.
Qed.

Lemma elem_of_set_add x y s : y ∈ JS.set_add x s <-> y = x \/ y ∈ s.
Proof.
  unfold JS.set_add. case_bool_decide as Hx.
  - split; [auto|]. intros [->|]; assumption.
  - rewrite elem_of_app, list_elem_of_singleton. tauto.
Qed.

Lemma NoDup_set_add x s : NoDup s -> NoDup (JS.set_add x s).
Proof.
  intros H. unfold JS.set_add. case_bool_decide as Hx; [assumption|].
  apply NoDup_app. split; [assumption|]. split.
  - intros y Hy ->%list_elem_of_singleton. contradiction.
  - apply NoDup_singleton.
Qed.

(* ===================================================================== *)
(** ** The prefix lister                                                  *)
(* ===================================================================== *)

Lemma add_folder_some prefix set P :
  P <> "" -> add_folder prefix set {| Prefix := Some P |} = JS.set_add (stripped prefix P) set.
Proof. intros H. unfold add_folder. cbn [Prefix]. rewrite truthy_nonempty; auto. Qed.

Lemma add_folder_cases prefix set p :
  (exists P, p = {| Prefix := Some P |} /\ P <> ""
             /\ add_folder prefix set p = JS.set_add (stripped prefix P) set)
  \/ ((forall P, p = {| Prefix := Some P |} -> P = "") /\ add_folder prefix set p = set).
Proof.
  destruct p as [[P|]].
  - destruct (decide (P = "")) as [->|HP].
    + right. split; [congruence|reflexivity].
    + left. exists P. auto using add_folder_some.
  - right. split; [congruence|reflexivity].
Qed.

Lemma matchFolders_fold prefix prefixes set :
  NoDup set ->
  NoDup (fold_left (add_folder prefix) prefixes set) /\
  forall f, f ∈ fold_left (add_folder prefix) prefixes set <->
            f ∈ set \/ exists P, {| Prefix := Some P |} ∈ prefixes /\ P <> ""
                                 /\ f = stripped prefix P.
Proof.
  revert set. induction prefixes as [|p ps IH]; intros set Hnd; simpl.
  - split; [assumption|]. intros f. split; [auto|].
    intros [H|(P & H & _)]; [assumption|inversion H].
  - destruct (add_folder_cases prefix set p) as [(P & -> & HP & ->)|[Hp ->]].
    + destruct (IH _ (NoDup_set_add (stripped prefix P) _ Hnd)) as [H1 H2].
      split; [exact H1|]. intros f. rewrite H2, elem_of_set_add. split.
      * intros [[->|H]|(Q & HQ & ? & ->)]; auto.
        -- right. exists P. split; [left|auto].
        -- right. exists Q. split; [right; assumption|auto].
      * intros [H|(Q & HQ & ? & ->)]; [auto|].
        apply elem_of_cons in HQ as [[= ->]|HQ]; [auto|]. right. eauto.
    + destruct (IH set Hnd) as [H1 H2]. split; [exact H1|]. intros f. rewrite H2.
      split.
      * intros [H|(Q & HQ & ? & ->)]; [auto|]. right. exists Q. split; [right; assumption|auto].
      * intros [H|(Q & HQ & HQne & ->)]; [auto|].
        apply elem_of_cons in HQ as [HQ|HQ]; [|right; eauto].
        symmetry in HQ. apply Hp in HQ. contradiction.
Qed.

Lemma matchFolders_spec prefix cps :
  NoDup (matchFolders prefix cps) /\
  forall f, f ∈ matchFolders prefix cps <->
            exists P, {| Prefix := Some P |} ∈ default [] cps /\ P <> ""
                      /\ f = stripped prefix P.
Proof.
  destruct cps as [prefixes|]; simpl.
  - destruct (matchFolders_fold prefix prefixes [] (NoDup_nil_2)) as [H1 H2].
    split; [exact H1|]. intros f. etransitivity; [apply H2|].
    split; [intros [H|H]; [inversion H|exact H]|auto].
  - split; [apply NoDup_nil_2|]. intros f. split; [inversion 1|].
    intros (P & H & _). inversion H.
Qed.

(** C4. For every queried prefix and every listing response, the folder
    names that [getDBEntries] returns have no duplicates; each of them is a
    single path component (it contains no [/]) obtained from a common
    prefix of the response by removing the queried prefix and keeping the
    text before the next [/]; and a common prefix of the form
    [prefix ++ segment ++ "/"], which is what the storage service returns
    for a delimiter listing, is reported as [segment], not as the full
    key path. *)
Theorem getDBEntries_folder_names
    {World : Type} (serve : forall r : request, World -> settled (response r) * World)
    (this : S3db) (b : string) (prefix : option string) (w w1 : World)
    (out : ListObjectsOutput) :
  bucketName this = Some b -> b <> "" ->
  serve (ListObjectsV2 b prefix "/") w = (Fulfilled out, w1) ->
  exists es,
    run serve (getDBEntries this prefix) w
      = (Fulfilled es, w1, [ListObjectsV2 b prefix "/"])
    /\ NoDup (folderNames es)
    /\ (forall f, f ∈ folderNames es ->
          JS.contains "/" f = false
          /\ exists P, {| Prefix := Some P |} ∈ default [] (CommonPrefixes out)
                       /\ f = first_segment (JS.replace_first (JS.or_else prefix "") P))
    /\ (forall segment,
          JS.contains "/" segment = false ->
          {| Prefix := Some (JS.or_else prefix "" +:+ segment +:+ "/") |}
            ∈ default [] (CommonPrefixes out) ->
          segment ∈ folderNames es).
Proof.
  intros Hb Hne Hserve. eexists. split.
  { rewrite (run_getDBEntries serve this b) by assumption. rewrite Hserve. reflexivity. }
  simpl. destruct (matchFolders_spec prefix (CommonPrefixes out)) as [Hnd Hin].
  split; [exact Hnd|]. split.
  - intros f (P & HP & _ & ->)%Hin. split; [apply first_segment_clean|]. eauto.
  - intros segment Hclean Hmem. apply Hin.
    eexists. split; [exact Hmem|]. split.
    + destruct (JS.or_else prefix ""); [destruct segment|]; discriminate.
    + unfold stripped. rewrite replace_first_prefix.
      symmetry. apply first_segment_next, Hclean.
Qed.

(** C5. When the listing response has no [Contents] or no
    [CommonPrefixes], [getDBEntries] on a handle with a bucket still
    resolves: the missing section contributes no entry, the other one is
    processed as usual. *)
Theorem getDBEntries_missing_sections
    {World : Type} (serve : forall r : request, World -> settled (response r) * World)
    (this : S3db) (b : string) (prefix : option string) (w w1 : World)
    (out : ListObjectsOutput) :
  bucketName this = Some b -> b <> "" ->
  serve (ListObjectsV2 b prefix "/") w = (Fulfilled out, w1) ->
  Contents out = None \/ CommonPrefixes out = None ->
  exists es,
    run serve (getDBEntries this prefix) w
      = (Fulfilled es, w1, [ListObjectsV2 b prefix "/"])
    /\ (Contents out = None -> objects es = [])
    /\ (CommonPrefixes out = None -> folderNames es = [])
    /\ objects es = matchObjects (Contents out)
    /\ folderNames es = matchFolders prefix (CommonPrefixes out).
Proof.
  intros Hb Hne Hserve _. eexists. split.
  { rewrite (run_getDBEntries serve this b) by assumption. rewrite Hserve. reflexivity. }
  simpl. repeat split; intros ->; reflexivity.
Qed.

(** The constructor-based variant is strict instead: a response without
    [Contents] is refused. *)
Lemma Legacy_getDBEntries_strict
    {World : Type} (serve : forall r : request, World -> settled (response r) * World)
    (this : S3db) (b : string) (prefix : option string) (w w1 : World)
    (out : ListObjectsOutput) :
  bucketName this = Some b -> b <> "" ->
  serve (ListObjectsV2 b prefix "/") w = (Fulfilled out, w1) ->
  Contents out = None ->
  run serve (Legacy.getDBEntries this prefix) w
    = (Rejected (InvariantFailed "Invalid listObjectsV2 contents"), w1,
       [ListObjectsV2 b prefix "/"]).
Proof.
  intros Hb Hne Hserve Hc. unfold Legacy.getDBEntries.
  rewrite Hb, invariant_string_some by assumption. simpl. rewrite Hserve.
  destruct out as [cs cps]. simpl in Hc. subst cs. reflexivity.
Qed.

(** C3. [deleteDBDocumentById] on a bound handle first lists the objects
    under [{collection}/{id}/]. If the listing has no object (no
    [Contents], or an empty one) the operation fails with the
    nothing-to-delete invariant and issues no delete; otherwise it issues
    exactly one [DeleteObjects] request, for exactly the listed keys. *)
Theorem deleteDBDocumentById_lists_then_deletes
    {World : Type} (serve : forall r : request, World -> settled (response r) * World)
    (this : S3db) (b c id : string) (w : World) :
  binds this b c ->
  let listing := ListObjects b (c +:+ "/" +:+ id +:+ "/") in
  run serve (deleteDBDocumentById this id) w =
  match serve listing w with
  | (Rejected e, w1) => (Rejected e, w1, [listing])
  | (Fulfilled out, w1) =>
      match Contents out with
      | Some (o :: os) =>
          let batch := DeleteObjects b (map Key (o :: os)) in
          let '(x, w2) := serve batch w1 in (x, w2, [listing; batch])
      | _ => (Rejected (InvariantFailed (nothing_to_delete id)), w1, [listing])
      end
  end.
Proof.
  intros (Hb & Hc & ? & ?) listing. unfold deleteDBDocumentById.
  rewrite Hb, Hc, !invariant_string_some by assumption. simpl. fold listing.
  destruct (serve listing w) as [[[[[|o os]|] cps]|e] w1]; simpl; try reflexivity.
  destruct (serve (DeleteObjects b (Key o :: map Key os)) w1) as [[[]|e] w2]; reflexivity.
Qed.

(** C10. [getDBDocumentData] returns whatever [JSON.parse] makes of the
    stored body: no shape is checked, an [id] is not looked for. *)
Theorem getDBDocumentData_any_json
    {World : Type} (serve : forall r : request, World -> settled (response r) * World)
    (this : S3db) (b c id body : string) (v : JSON.value) (w w1 : World) :
  binds this b c ->
  serve (GetObject b (c +:+ "/" +:+ id +:+ "/data.json")) w
    = (Fulfilled {| Body := Some body |}, w1) ->
  JSON.parse body = Some v ->
  run serve (getDBDocumentData this id) w
    = (Fulfilled v, w1, [GetObject b (c +:+ "/" +:+ id +:+ "/data.json")]).
Proof.
  intros (Hb & Hc & ? & ?) Hserve Hparse.
  unfold getDBDocumentData, getDBCollectionEntry.
  rewrite Hc, invariant_string_some by assumption. simpl.
  change (Promise_then ?f (Resolve c)) with (f c).
  rewrite (run_getDBEntry serve this b) by assumption.
  rewrite Hserve. simpl. rewrite Hparse. reflexivity.
Qed.

(** C8. The three values of [getS3dbConfig], spelled out without the
    code's own destructuring: each is the property of the argument when the
    argument has it, and the environment variable only when the argument
    leaves it out; so where both are set the argument wins, and an argument
    that is the empty string is not replaced. When one of the three is then
    absent or empty the function fails with the configuration invariant,
    and otherwise it returns the configuration with exactly the three
    values. The function is no promise and takes no server: it issues no
    request, and the initialisation of the README that is fed a failing
    configuration issues none either. *)
Theorem getS3dbConfig_resolution (env : ProcessEnv) (args : option ConfigArgs)
    (resolved_region resolved_key resolved_secret : option string) :
  let given (property : ConfigArgs -> option string) :=
    match args with Some a => property a | None => None end in
  resolved_region
    = match given awsRegion with Some x => Some x | None => S3_DB_REGION env end ->
  resolved_key
    = match given awsAccessKeyId with
      | Some x => Some x | None => S3_DB_ACCESS_KEY_ID env end ->
  resolved_secret
    = match given awsSecretAccessKey with
      | Some x => Some x | None => S3_DB_SECRET_ACCESS_KEY env end ->
  (resolved_region = None \/ resolved_region = Some ""
   \/ resolved_key = None \/ resolved_key = Some ""
   \/ resolved_secret = None \/ resolved_secret = Some "" ->
   getS3dbConfig env args = Rejected (InvariantFailed config_message)
   /\ forall (World : Type) (serve : forall r : request, World -> settled (response r) * World)
        (bucket collection : string) (w : World),
        run serve (README_initialize env args bucket collection) w
          = (Rejected (InvariantFailed config_message), w, []))
  /\ (forall r k s,
        resolved_region = Some r -> r <> "" ->
        resolved_key = Some k -> k <> "" ->
        resolved_secret = Some s -> s <> "" ->
        getS3dbConfig env args
          = Fulfilled {| region := r;
                         credentials := {| accessKeyId := k; secretAccessKey := s |} |}).
Proof.
  intros given Hr Hk Hs.
  assert (Heq : getS3dbConfig env args =
    if JS.truthy resolved_region && JS.truthy resolved_key && JS.truthy resolved_secret then
      match resolved_region, resolved_key, resolved_secret with
      | Some r, Some k, Some s =>
          Fulfilled {| region := r;
                       credentials := {| accessKeyId := k; secretAccessKey := s |} |}
      | _, _, _ => Rejected (InvariantFailed config_message)
      end
    else Rejected (InvariantFailed config_message)).
  { subst resolved_region resolved_key resolved_secret. unfold given.
    destruct args as [[[?|] [?|] [?|]]|]; reflexivity. }
  clear Hr Hk Hs. split.
  - intros Hfalsy.
    assert (Hrej : getS3dbConfig env args = Rejected (InvariantFailed config_message)).
    { rewrite Heq.
      destruct Hfalsy as [->|[->|[->|[->|[->| ->]]]]];
        cbn [JS.truthy]; rewrite ?andb_false_r; reflexivity. }
    split; [exact Hrej|]. intros. unfold README_initialize. rewrite Hrej. reflexivity.
  - intros r k s Hr Hrne Hk Hkne Hs Hsne. rewrite Heq, Hr, Hk, Hs.
    rewrite !truthy_nonempty by assumption. reflexivity.
Qed.

(* ===================================================================== *)
(** ** Precondition checks                                                *)
(* ===================================================================== *)

Lemma invariant_string_if o message :
  invariant_string o message =
  if JS.truthy o then Resolve (default "" o) else Reject (InvariantFailed message).
Proof.
  destruct o as [s|]; unfold invariant_string; [|reflexivity].
  destruct (JS.truthy (Some s)); reflexivity.
Qed.

Lemma precondition_bucket : precondition_error (InvariantFailed "Invalid bucketName").
Proof. left. reflexivity. Qed.

Lemma precondition_collection : precondition_error (InvariantFailed "Invalid collectionName").
Proof. right. reflexivity. Qed.

#[local] Hint Resolve precondition_bucket precondition_collection : core.

Ltac unbound_cases this H :=
  unfold bound in H;
  destruct (JS.truthy (bucketName this)) eqn:?;
  destruct (JS.truthy (collectionName this)) eqn:?;
  try discriminate H; simpl; eauto.

Section Unbound.
Context {World : Type}.
Variable serve : forall r : request, World -> settled (response r) * World.
Variable this : S3db.
Hypothesis unbound : bound this = false.

(** Apart from [getDBDocumentUrl], an operation on a handle that lacks a
    name is rejected by an invariant before any request to the storage
    service is made. *)

Lemma unbound_getDBDocumentIds w :
  exists e, precondition_error e
    /\ run serve (getDBDocumentIds this) w = (Rejected e, w, []).
Proof.
  unfold getDBDocumentIds, getDBEntries. rewrite !invariant_string_if.
  unbound_cases this unbound.
Qed.

Lemma unbound_getDBDocumentData id w :
  exists e, precondition_error e
    /\ run serve (getDBDocumentData this id) w = (Rejected e, w, []).
Proof.
  unfold getDBDocumentData, getDBCollectionEntry, getDBEntry.
  rewrite !invariant_string_if. unbound_cases this unbound.
Qed.

Lemma unbound_getDBDocumentMedia id w :
  exists e, precondition_error e
    /\ run serve (getDBDocumentMedia this id) w = (Rejected e, w, []).
Proof.
  unfold getDBDocumentMedia, getDBCollectionEntries, getDBEntries.
  rewrite !invariant_string_if. unbound_cases this unbound.
Qed.

Lemma unbound_deleteDBDocumentById id w :
  exists e, precondition_error e
    /\ run serve (deleteDBDocumentById this id) w = (Rejected e, w, []).
Proof.
  unfold deleteDBDocumentById. rewrite !invariant_string_if. unbound_cases this unbound.
Qed.

Lemma unbound_deleteDBDocumentMedia id names w :
  exists e, precondition_error e
    /\ run serve (deleteDBDocumentMedia this id names) w = (Rejected e, w, []).
Proof.
  unfold deleteDBDocumentMedia. rewrite !invariant_string_if. unbound_cases this unbound.
Qed.

Lemma unbound_uploadDBCollectionEntry key body w :
  exists e, precondition_error e
    /\ run serve (uploadDBCollectionEntry this key body) w = (Rejected e, w, []).
Proof.
  unfold uploadDBCollectionEntry. rewrite !invariant_string_if. unbound_cases this unbound.
Qed.

(** [uuid()] is called before the first check. *)
Lemma unbound_uploadDBDocument document fresh w w1 :
  serve Uuid w = (Fulfilled fresh, w1) ->
  exists e, precondition_error e
    /\ run serve (uploadDBDocument this document) w = (Rejected e, w1, [Uuid]).
Proof.
  intros Huuid. unfold uploadDBDocument. simpl. rewrite Huuid. simpl.
  destruct (unbound_uploadDBCollectionEntry (fresh +:+ "/") None w1) as (e & He & Hrun).
  destruct (negb (JSON.has "id" document) || negb (JSON.truthy (JSON.get "id" document)));
    [|destruct (JSON.get "id" document) as [supplied|]].
  - exists e. split; [assumption|].
    to_then. rewrite run_then. rewrite run_then. rewrite Hrun. reflexivity.
  - edestruct (unbound_uploadDBCollectionEntry) as (e' & He' & Hrun').
    exists e'. split; [assumption|]. simpl. to_then. rewrite run_then, Hrun'. reflexivity.
  - exists e. split; [assumption|].
    to_then. rewrite run_then. rewrite run_then. rewrite Hrun. reflexivity.
Qed.

Lemma unbound_getDBDocumentUrl id w :
  JS.truthy (bucketName this) = false ->
  run serve (getDBDocumentUrl this id) w
    = (Rejected (InvariantFailed "Invalid bucketName"), w, []).
Proof.
  intros H. unfold getDBDocumentUrl. rewrite invariant_string_if, H. reflexivity.
Qed.

End Unbound.

(** Whatever the collection name is, also undefined or empty,
    [getDBDocumentUrl] on a handle with a bucket asks for a signed URL. *)
Lemma run_getDBDocumentUrl
    {World : Type} (serve : forall r : request, World -> settled (response r) * World)
    (this : S3db) (b id : string) (w : World) :
  bucketName this = Some b -> b <> "" ->
  let signing :=
    GetSignedUrl b (JS.template (collectionName this) +:+ "/" +:+ id +:+ "/data.json") in
  run serve (getDBDocumentUrl this id) w
  = let '(x, w1) := serve signing w in (x, w1, [signing]).
Proof.
  intros Hb Hne signing. unfold getDBDocumentUrl.
  rewrite Hb, invariant_string_some by assumption. to_then. cbn [Promise_then].
  exact (run_await serve signing w).
Qed.

(** [S3db.initialize] with an empty collection name returns such a
    handle: the bucket is bound, the collection name is falsy. *)
Lemma initialize_empty_collection :
  (run MemS3.serve (initialize demo_config "b1" "") MemS3.empty).1.1
  = Fulfilled {| bucketName := Some "b1"; collectionName := Some "" |}.
Proof. vm_compute. reflexivity. Qed.

(** C7, at the inputs where it fails. On a handle whose bucket is bound
    and whose collection is not (the name is undefined, or it is the empty
    string that every [invariant] of the class refuses),
    [getDBDocumentUrl] does not fail: it asks for a signed URL of the key
    [undefined/{id}/data.json], respectively [/{id}/data.json]. *)
Theorem getDBDocumentUrl_unbound_collection
    {World : Type} (serve : forall r : request, World -> settled (response r) * World)
    (w : World) :
  let undefined_name := {| bucketName := Some "b1"; collectionName := None |} in
  let empty_name := {| bucketName := Some "b1"; collectionName := Some "" |} in
  let signing := GetSignedUrl "b1" "undefined/u1/data.json" in
  let signing' := GetSignedUrl "b1" "/u1/data.json" in
  bound undefined_name = false
  /\ run serve (getDBDocumentUrl undefined_name "u1") w
     = (let '(x, w1) := serve signing w in (x, w1, [signing]))
  /\ bound empty_name = false
  /\ run serve (getDBDocumentUrl empty_name "u1") w
     = (let '(x, w1) := serve signing' w in (x, w1, [signing'])).
Proof.
  intros undefined_name empty_name signing signing'.
  split; [reflexivity|]. split; [|split; [reflexivity|]].
  - change (getDBDocumentUrl undefined_name "u1") with (await signing).
    exact (run_await serve signing w).
  - change (getDBDocumentUrl empty_name "u1") with (await signing').
    exact (run_await serve signing' w).
Qed.

(* ===================================================================== *)
(** ** Media upload                                                       *)
(* ===================================================================== *)

Section Media.
Context {World : Type}.
Variable serve : forall r : request, World -> settled (response r) * World.

Lemma run_settle {A : Type} (p : Promise A) w :
  run serve (Promise_settle p) w =
  let '(x, w1, t) := run serve p w in (Fulfilled x, w1, t).
Proof.
  revert w. induction p as [a|e|r k IH]; intros w; simpl; try reflexivity.
  destruct (serve r w) as [x w1]. rewrite IH.
  destruct (run serve (k x) w1) as [[y w2] t]. reflexivity.
Qed.

Lemma run_settle_each_media this b c id media w :
  binds this b c ->
  exists rs w1,
    run serve
      (settle_each
         (map (fun file => uploadDBCollectionMedia this (id +:+ "/" +:+ File.name file) file)
              media)) w
    = (Fulfilled rs, w1, map (media_put b c id) media).
Proof.
  intros Hbinds. revert w. induction media as [|file media IH]; intros w; simpl.
  - eauto.
  - rewrite run_then, run_settle.
    rewrite (run_uploadDBCollectionMedia serve this b c) by assumption.
    cbv zeta. fold (media_put b c id file).
    destruct (serve (media_put b c id file) w) as [x w1].
    rewrite run_then. destruct (IH w1) as (rs & w2 & ->). simpl.
    rewrite app_nil_r. eauto.
Qed.

(** On a bound handle the requests of [uploadDBDocumentMedia] are one
    [PutObject] per file, in list order, each for the key
    [{collection}/{id}/{filename}]. *)
Lemma uploadDBDocumentMedia_requests this b c id media w :
  binds this b c ->
  (run serve (uploadDBDocumentMedia this id media) w).2 = map (media_put b c id) media.
Proof.
  intros Hbinds. unfold uploadDBDocumentMedia, Promise_all. to_then.
  rewrite !run_then.
  destruct (run_settle_each_media this b c id media w Hbinds) as (rs & w1 & ->).
  destruct (collect rs); simpl; rewrite ?app_nil_r; reflexivity.
Qed.

End Media.

Lemma split_clean sep s : JS.contains sep s = false -> JS.split sep s = [s].
Proof.
  induction s as [|c s IH]; simpl; [reflexivity|].
  intros [Hc Hs]%orb_false_elim. rewrite Hc, IH by assumption. reflexivity.
Qed.

Lemma split_at_separator sep seg rest :
  JS.contains sep seg = false ->
  JS.split sep (seg +:+ String sep rest) = seg :: JS.split sep rest.
Proof.
  induction seg as [|c seg IH]; simpl; intros H.
  - rewrite Ascii.eqb_refl. reflexivity.
  - apply orb_false_elim in H as [Hc Hseg]. rewrite Hc, IH by assumption. reflexivity.
Qed.

(** A name with exactly one dot gets [image/] followed by its extension. *)
Lemma media_content_type_one_dot stem ext bytes :
  JS.contains "." stem = false -> JS.contains "." ext = false ->
  media_content_type {| File.name := stem +:+ String "." ext; File.bytes := bytes |}
    = "image/" +:+ ext.
Proof.
  intros Hstem Hext. unfold media_content_type. simpl File.name.
  rewrite split_at_separator, split_clean by assumption. reflexivity.
Qed.

(** A name without a dot has no second part: the template literal spells
    out [undefined]. *)
Lemma media_content_type_no_dot :
  media_content_type {| File.name := "noext"; File.bytes := "" |} = "image/undefined".
Proof. reflexivity. Qed.

(** C9, at the input where it fails. The content type is built from the
    second dot-separated part of the name, not from the final extension:
    [photo.min.png] and [photo.min.jpg] are both stored as [image/min]. *)
Theorem media_content_type_second_segment
    {World : Type} (serve : forall r : request, World -> settled (response r) * World)
    (w : World) :
  let png := {| File.name := "photo.min.png"; File.bytes := "PNG" |} in
  let jpg := {| File.name := "photo.min.jpg"; File.bytes := "JPG" |} in
  media_content_type png = "image/min"
  /\ media_content_type jpg = "image/min"
  /\ (run serve (uploadDBDocumentMedia demo_handle "u0" [png; jpg]) w).2
     = [PutObject "b1" "c1/u0/photo.min.png" (Some "PNG") (Some "image/min");
        PutObject "b1" "c1/u0/photo.min.jpg" (Some "JPG") (Some "image/min")].
Proof.
  intros png jpg. split; [reflexivity|]. split; [reflexivity|].
  rewrite (uploadDBDocumentMedia_requests serve demo_handle "b1" "c1").
  - reflexivity.
  - repeat split; discriminate.
Qed.

(* ===================================================================== *)
(** ** The store on the reference object store                            *)
(* ===================================================================== *)

Lemma put_buckets w b k body ctype bk :
  MemS3.buckets (MemS3.put w b k body ctype bk) !! b
  = Some (<[k := {| MemS3.content := default "" body; MemS3.contentType := ctype;
                    MemS3.modified := MemS3.clock w |}]> bk).
Proof. unfold MemS3.put. simpl. apply lookup_insert_eq. Qed.

Lemma put_object_at w b k body ctype bk :
  MemS3.content <$> MemS3.object_at (MemS3.put w b k body ctype bk) b k
  = Some (default "" body).
Proof.
  unfold MemS3.object_at. rewrite put_buckets. simpl. rewrite lookup_insert_eq.
  reflexivity.
Qed.

Lemma serve_put w b k body ctype bk :
  MemS3.buckets w !! b = Some bk ->
  MemS3.serve (PutObject b k body ctype) w
  = (Fulfilled (), MemS3.put w b k body ctype bk).
Proof. intros H. simpl. unfold MemS3.in_bucket. rewrite H. reflexivity. Qed.

Lemma serve_get w b k o :
  MemS3.object_at w b k = Some o ->
  MemS3.serve (GetObject b k) w = (Fulfilled {| Body := Some (MemS3.content o) |}, w).
Proof.
  unfold MemS3.object_at. intros H. simpl. unfold MemS3.in_bucket.
  destruct (MemS3.buckets w !! b) as [bk|]; [|discriminate]. simpl in H.
  rewrite H. reflexivity.
Qed.

Lemma run_upload_entry this b c key body w bk :
  binds this b c ->
  MemS3.buckets w !! b = Some bk ->
  run MemS3.serve (uploadDBCollectionEntry this key body) w
  = (Fulfilled (), MemS3.put w b (c +:+ "/" +:+ key) body None bk,
     [PutObject b (c +:+ "/" +:+ key) body None]).
Proof.
  intros Hbinds Hbk. rewrite (run_uploadDBCollectionEntry _ this b c) by assumption.
  cbv zeta. rewrite (serve_put _ _ _ _ _ bk) by assumption. reflexivity.
Qed.

Lemma resolve_id_cases document fresh :
  id_typed document = true ->
  (supplies_id document = true
   /\ JSON.get "id" document = Some (JSON.JStr (resolve_id document fresh))
   /\ JSON.truthy (JSON.get "id" document) = true /\ JSON.has "id" document = true)
  \/ (supplies_id document = false /\ resolve_id document fresh = fresh
      /\ negb (JSON.has "id" document) || negb (JSON.truthy (JSON.get "id" document)) = true).
Proof.
  intros Htyped. unfold supplies_id, resolve_id, id_typed, JSON.has in *.
  destruct (JSON.get "id" document) as [[]|]; try discriminate Htyped; simpl; auto.
  destruct (String.eqb s ""); simpl; auto.
Qed.

(** The run of an upload on the reference store. *)
Lemma run_uploadDBDocument
    (this : S3db) (b c : string) (document : JSON.object) (w : MemS3.world)
    (bk : gmap string MemS3.stored) :
  binds this b c ->
  MemS3.buckets w !! b = Some bk ->
  id_typed document = true ->
  let fresh := MemS3.uuids w (MemS3.issued w) in
  let id := resolve_id document fresh in
  let key := c +:+ "/" +:+ id +:+ "/data.json" in
  let body := JSON.stringify (JSON.JObj (JSON.set "id" (JSON.JStr id) document)) in
  exists w',
    run MemS3.serve (uploadDBDocument this document) w
      = (Fulfilled id, w',
         Uuid :: (if supplies_id document then []
                  else [PutObject b (c +:+ "/" +:+ fresh +:+ "/") None None])
           ++ [PutObject b key (Some body) None])
    /\ MemS3.content <$> MemS3.object_at w' b key = Some body.
Proof.
  intros Hbinds Hbk Htyped fresh id key body.
  unfold uploadDBDocument. to_then.
  set (w0 := {| MemS3.buckets := MemS3.buckets w; MemS3.clock := MemS3.clock w;
                MemS3.uuids := MemS3.uuids w; MemS3.issued := S (MemS3.issued w) |}).
  assert (Hbk0 : MemS3.buckets w0 !! b = Some bk) by exact Hbk.
  destruct (resolve_id_cases document fresh Htyped)
    as [(Hs & Hget & Htruthy & Hhas)|(Hs & Hid & Hcond)]; fold id in Hget || fold id in Hid.
  - eexists. split.
    + rewrite run_then.
      change (run MemS3.serve (await Uuid) w) with (Fulfilled fresh, w0, [Uuid]).
      cbv iota beta zeta.
      rewrite Hs, Hhas, Htruthy, Hget. simpl negb. simpl orb. cbv iota.
      cbn [Promise_then]. rewrite run_then.
      rewrite (run_upload_entry this b c _ _ w0 bk) by assumption.
      cbn [JSON.to_string run app]. reflexivity.
    + apply put_object_at.
  - eexists. split.
    + rewrite run_then.
      change (run MemS3.serve (await Uuid) w) with (Fulfilled fresh, w0, [Uuid]).
      cbv iota beta zeta.
      rewrite Hs, Hcond.
      rewrite run_then, run_then.
      rewrite (run_upload_entry this b c _ _ w0 bk) by assumption.
      cbn [run]. cbv iota beta zeta. rewrite run_then.
      erewrite (run_upload_entry this b c) by (try assumption; apply put_buckets).
      cbn [JSON.to_string run app]. subst key body. rewrite Hid. reflexivity.
    + apply put_object_at.
Qed.

Lemma set_keys k v o :
  map fst (JSON.set k v o) = if JSON.has k o then map fst o else map fst o ++ [k].
Proof.
  unfold JSON.has. induction o as [|[k' v'] o IH]; simpl; [reflexivity|].
  destruct (String.eqb k' k); simpl; [reflexivity|]. rewrite IH.
  destruct (JSON.get k o); reflexivity.
Qed.

Lemma has_elem_of k o : JSON.has k o = false -> k ∉ map fst o.
Proof.
  unfold JSON.has. induction o as [|[k' v'] o IH]; simpl; [intros _; apply not_elem_of_nil|].
  destruct (String.eqb_spec k' k); [discriminate|]. intros H.
  apply not_elem_of_cons. auto.
Qed.

Lemma set_values k v o :
  JSON.wf_string k = true -> JSON.wf v = true ->
  forallb (fun kv => JSON.wf_string (fst kv) && JSON.wf (snd kv)) o = true ->
  forallb (fun kv => JSON.wf_string (fst kv) && JSON.wf (snd kv)) (JSON.set k v o) = true.
Proof.
  intros Hk Hv. induction o as [|[k' v'] o IH]; simpl; [rewrite Hk, Hv; reflexivity|].
  intros [Hv' Ho]%andb_prop. apply andb_prop in Hv' as [Hk' Hv'].
  destruct (String.eqb k' k); simpl.
  - rewrite Hk', Hv, Ho. reflexivity.
  - rewrite Hk', Hv', IH by assumption. reflexivity.
Qed.

Lemma ordered_last k ks :
  JSON.array_index k = None -> JSON.ordered ks = true -> JSON.ordered (ks ++ [k]) = true.
Proof.
  intros Hk. induction ks as [|k' ks IH]; simpl; [reflexivity|].
  intros [Hall Ho]%andb_prop. rewrite forallb_app, Hall, IH by assumption. simpl.
  unfold JSON.precedes. rewrite Hk. destruct (JSON.array_index k'); reflexivity.
Qed.

Lemma wf_set k v o :
  JSON.array_index k = None ->
  JSON.wf_string k = true -> JSON.wf v = true -> JSON.wf_object o = true ->
  JSON.wf_object (JSON.set k v o) = true.
Proof.
  unfold JSON.wf_object. simpl. intros Hi Hk Hv [Hnd Ho]%andb_prop.
  apply andb_prop in Hnd as [Hnd Hord].
  apply bool_decide_eq_true in Hnd. rewrite set_keys.
  apply andb_true_intro. split; [apply andb_true_intro; split|].
  - apply bool_decide_eq_true. destruct (JSON.has k o) eqn:Hh; [assumption|].
    apply NoDup_app. split; [assumption|]. split; [|apply NoDup_singleton].
    intros x Hx ->%list_elem_of_singleton. revert Hx. apply has_elem_of, Hh.
  - destruct (JSON.has k o); [assumption|]. apply ordered_last; assumption.
  - apply set_values; assumption.
Qed.

Lemma get_wf k v o : JSON.wf_object o = true -> JSON.get k o = Some v -> JSON.wf v = true.
Proof.
  unfold JSON.wf_object. simpl. intros [_ Ho]%andb_prop.
  induction o as [|[k' v'] o IH]; simpl; [discriminate|].
  simpl in Ho. apply andb_prop in Ho as [Hkv Ho]. apply andb_prop in Hkv as [_ Hv'].
  destruct (String.eqb k' k); [intros [= <-]; assumption|auto].
Qed.

(** The identifier of a well-formed document, or a generated identifier
    that is a JavaScript string, is a JavaScript string. *)
Lemma resolve_id_wf document fresh :
  JSON.wf_object document = true -> JSON.wf_string fresh = true ->
  JSON.wf_string (resolve_id document fresh) = true.
Proof.
  intros Hwf Hfresh. unfold resolve_id.
  destruct (JSON.get "id" document) as [v|] eqn:Hget; [|assumption].
  pose proof (get_wf _ _ _ Hwf Hget) as Hv.
  destruct v; try assumption. destruct (String.eqb s ""); assumption.
Qed.

(** The [id] property of an object, read and written at its first place. *)
Lemma get_first k v pre post :
  k ∉ map fst pre -> JSON.get k (pre ++ (k, v) :: post) = Some v.
Proof.
  induction pre as [|[k' v'] pre IH]; simpl; intros Hk.
  - rewrite String.eqb_refl. reflexivity.
  - apply not_elem_of_cons in Hk as [Hne Hk].
    destruct (String.eqb_spec k' k); [congruence|auto].
Qed.

Lemma set_first k v v' pre post :
  k ∉ map fst pre -> JSON.set k v' (pre ++ (k, v) :: post) = pre ++ (k, v') :: post.
Proof.
  induction pre as [|[k' w'] pre IH]; simpl; intros Hk.
  - rewrite String.eqb_refl. reflexivity.
  - apply not_elem_of_cons in Hk as [Hne Hk].
    destruct (String.eqb_spec k' k); [congruence|]. rewrite IH by assumption. reflexivity.
Qed.

Lemma get_absent k o : k ∉ map fst o -> JSON.get k o = None.
Proof.
  induction o as [|[k' v'] o IH]; simpl; intros Hk; [reflexivity|].
  apply not_elem_of_cons in Hk as [Hne Hk].
  destruct (String.eqb_spec k' k); [congruence|auto].
Qed.

Lemma set_absent k v o : k ∉ map fst o -> JSON.set k v o = o ++ [(k, v)].
Proof.
  induction o as [|[k' v'] o IH]; simpl; intros Hk; [reflexivity|].
  apply not_elem_of_cons in Hk as [Hne Hk].
  destruct (String.eqb_spec k' k); [congruence|]. rewrite IH by assumption. reflexivity.
Qed.

(** C1. On a bound handle whose bucket exists, [uploadDBDocument] resolves
    with an identifier and leaves a JSON text at
    [{collection}/{id}/data.json], whatever was there before. The text is
    that of the stored object, and [JSON.parse] reads the stored object back
    from it. Identifier, stored object and requests are spelled out on the
    members of the document. A document whose first [id] member is a
    non-empty string keeps that identifier and is stored as it is, by one
    put after the call of the generator: the store is asked nothing. A
    document whose [id] is the empty string, or that has no [id], takes the
    generated identifier: the [id] member is overwritten in its place,
    respectively added after the last member, and the put of the folder
    placeholder comes before the put of the body. *)
Theorem uploadDBDocument_writes
    (this : S3db) (b c : string) (document : JSON.object) (w : MemS3.world)
    (bk : gmap string MemS3.stored) :
  binds this b c ->
  MemS3.buckets w !! b = Some bk ->
  id_typed document = true ->
  let fresh := MemS3.uuids w (MemS3.issued w) in
  let body_put (id : string) (stored : JSON.object) :=
    PutObject b (c +:+ "/" +:+ id +:+ "/data.json")
      (Some (JSON.stringify (JSON.JObj stored))) None in
  let placeholder_put := PutObject b (c +:+ "/" +:+ fresh +:+ "/") None None in
  exists id stored w' t,
    run MemS3.serve (uploadDBDocument this document) w = (Fulfilled id, w', t)
    /\ MemS3.content <$> MemS3.object_at w' b (c +:+ "/" +:+ id +:+ "/data.json")
       = Some (JSON.stringify (JSON.JObj stored))
    /\ (JSON.wf_object document = true -> JSON.wf_string fresh = true ->
        JSON.parse (JSON.stringify (JSON.JObj stored)) = Some (JSON.JObj stored))
    /\ (forall pre s post,
          document = pre ++ ("id", JSON.JStr s) :: post -> "id" ∉ map fst pre ->
          (s <> "" ->
           id = s /\ stored = document /\ t = [Uuid; body_put s document])
          /\ (s = "" ->
              id = fresh
              /\ stored = pre ++ ("id", JSON.JStr fresh) :: post
              /\ t = [Uuid; placeholder_put; body_put fresh stored]))
    /\ ("id" ∉ map fst document ->
        id = fresh
        /\ stored = document ++ [("id", JSON.JStr fresh)]
        /\ t = [Uuid; placeholder_put; body_put fresh stored]).
Proof.
  intros Hbinds Hbk Htyped fresh body_put placeholder_put.
  destruct (run_uploadDBDocument this b c document w bk Hbinds Hbk Htyped)
    as (w' & Hrun & Hstored).
  cbv zeta in Hrun, Hstored. fold fresh in Hrun, Hstored.
  set (id := resolve_id document fresh) in *.
  exists id, (JSON.set "id" (JSON.JStr id) document), w'. eexists.
  split; [exact Hrun|]. split; [exact Hstored|]. split; [|split].
  - intros Hwf Hfresh. apply JSONFacts.parse_stringify.
    apply (wf_set "id" (JSON.JStr id) document); [reflexivity|reflexivity| |assumption].
    apply resolve_id_wf; assumption.
  - intros pre s post Hdoc Hpre.
    assert (Hget : JSON.get "id" document = Some (JSON.JStr s))
      by (rewrite Hdoc; apply get_first, Hpre).
    split.
    + intros Hs. apply String.eqb_neq in Hs.
      assert (Hid : id = s) by (unfold id, resolve_id; rewrite Hget, Hs; reflexivity).
      assert (Hset : JSON.set "id" (JSON.JStr id) document = document).
      { rewrite Hid. rewrite Hdoc at 1. rewrite set_first by assumption.
        symmetry. exact Hdoc. }
      split; [exact Hid|]. split; [exact Hset|].
      unfold supplies_id. rewrite Hget, Hs. cbn [negb app]. unfold body_put.
      rewrite Hset, Hid. reflexivity.
    + intros ->.
      assert (Hid : id = fresh) by (unfold id, resolve_id; rewrite Hget; reflexivity).
      assert (Hset : JSON.set "id" (JSON.JStr id) document
                     = pre ++ ("id", JSON.JStr fresh) :: post).
      { rewrite Hid. rewrite Hdoc at 1. apply set_first, Hpre. }
      split; [exact Hid|]. split; [exact Hset|].
      unfold supplies_id. rewrite Hget. cbn [String.eqb negb app]. unfold body_put.
      rewrite Hset, Hid. reflexivity.
  - intros Hno.
    assert (Hget : JSON.get "id" document = None) by apply get_absent, Hno.
    assert (Hid : id = fresh) by (unfold id, resolve_id; rewrite Hget; reflexivity).
    assert (Hset : JSON.set "id" (JSON.JStr id) document
                   = document ++ [("id", JSON.JStr fresh)]).
    { rewrite Hid. apply set_absent, Hno. }
    split; [exact Hid|]. split; [exact Hset|].
    unfold supplies_id. rewrite Hget. cbn [app]. unfold body_put.
    rewrite Hset, Hid. reflexivity.
Qed.

Lemma run_getDBDocumentData
    {World : Type} (serve : forall r : request, World -> settled (response r) * World)
    (this : S3db) (b c id : string) (w : World) :
  binds this b c ->
  let reading := GetObject b (c +:+ "/" +:+ id +:+ "/data.json") in
  run serve (getDBDocumentData this id) w =
  match serve reading w with
  | (Fulfilled out, w1) =>
      (match Body out with
       | Some text =>
           match JSON.parse text with
           | Some v => Fulfilled v
           | None => Rejected SyntaxError
           end
       | None => Rejected (InvariantFailed "Invalid Body from getDBEntry")
       end, w1, [reading])
  | (Rejected e, w1) => (Rejected e, w1, [reading])
  end.
Proof.
  intros (Hb & Hc & ? & ?) reading.
  unfold getDBDocumentData, getDBCollectionEntry.
  rewrite Hc, invariant_string_some by assumption. to_then. cbn [Promise_then].
  apply run_getDBEntry; assumption.
Qed.

(** C2. On a bound handle whose bucket exists, every document that
    [JSON.stringify] and [JSON.parse] carry ([JSON.wf_object]: its Numbers,
    fractions included, are the finite ones but [-0], its strings are
    JavaScript strings, the members of its objects are the properties of a
    JavaScript object), once uploaded and read back under the returned
    identifier, comes back as the very document with its [id] property
    overwritten in its place, or added after the last member, by that
    identifier: every other member is as it was, nested values included.
    The generator of identifiers hands out a JavaScript string. *)
Theorem upload_then_get
    (this : S3db) (b c : string) (document : JSON.object) (w : MemS3.world)
    (bk : gmap string MemS3.stored) :
  binds this b c ->
  MemS3.buckets w !! b = Some bk ->
  id_typed document = true ->
  JSON.wf_object document = true ->
  JSON.wf_string (MemS3.uuids w (MemS3.issued w)) = true ->
  exists id w1 t1 t2 returned,
    run MemS3.serve (uploadDBDocument this document) w = (Fulfilled id, w1, t1)
    /\ run MemS3.serve (getDBDocumentData this id) w1
       = (Fulfilled (JSON.JObj returned), w1, t2)
    /\ (forall pre v post,
          document = pre ++ ("id", v) :: post -> "id" ∉ map fst pre ->
          returned = pre ++ ("id", JSON.JStr id) :: post)
    /\ ("id" ∉ map fst document -> returned = document ++ [("id", JSON.JStr id)]).
Proof.
  intros Hbinds Hbk Htyped Hwf Hfresh.
  destruct (run_uploadDBDocument this b c document w bk Hbinds Hbk Htyped)
    as (w1 & Hrun & Hstored).
  cbv zeta in Hrun, Hstored.
  set (id := resolve_id document (MemS3.uuids w (MemS3.issued w))) in *.
  exists id, w1. eexists _, _, (JSON.set "id" (JSON.JStr id) document).
  split; [exact Hrun|]. split; [|split].
  - rewrite (run_getDBDocumentData MemS3.serve this b c) by assumption. cbv zeta.
    destruct (MemS3.object_at w1 b _) as [o|] eqn:Ho; [|discriminate Hstored].
    injection Hstored as Hcontent.
    rewrite (serve_get _ _ _ o Ho). cbn [Body]. rewrite Hcontent.
    rewrite JSONFacts.parse_stringify; [reflexivity|].
    apply (wf_set "id" (JSON.JStr _) document); [reflexivity|reflexivity| |assumption].
    apply resolve_id_wf; assumption.
  - intros pre v post Hdoc Hpre. rewrite Hdoc at 1. apply set_first, Hpre.
  - intros Hno. apply set_absent, Hno.
Qed.

(* ===================================================================== *)
(** ** Media listing                                                      *)
(* ===================================================================== *)

(** The listing behind [getDBDocumentMedia] asks for the prefix
    [{collection}/{id}], without the [/] that closes the document folder. *)
Lemma getDBDocumentMedia_request
    {World : Type} (serve : forall r : request, World -> settled (response r) * World)
    (this : S3db) (b c id : string) (w : World) :
  binds this b c ->
  (run serve (getDBDocumentMedia this id) w).2
    = [ListObjectsV2 b (Some (c +:+ "/" +:+ id)) "/"].
Proof.
  intros (Hb & Hc & ? & ?). unfold getDBDocumentMedia, getDBCollectionEntries.
  rewrite Hc, invariant_string_some by assumption. to_then. cbn [Promise_then].
  rewrite run_then, (run_getDBEntries serve this b) by assumption.
  destruct (serve _ w) as [[out|e] w1]; reflexivity.
Qed.

(** Whatever is returned has passed the filter on the name. *)
Lemma getDBDocumentMedia_filtered
    {World : Type} (serve : forall r : request, World -> settled (response r) * World)
    (this : S3db) (id : string) (w : World) (media : list DBObject) :
  (run serve (getDBDocumentMedia this id) w).1.1 = Fulfilled media ->
  forall o, o ∈ media -> name o <> "data.json".
Proof.
  unfold getDBDocumentMedia. to_then. rewrite run_then.
  destruct (run serve (getDBCollectionEntries this id) w) as [[[es|e] w1] t];
    simpl; [|discriminate].
  intros [= <-] o Ho. apply list_elem_of_filter in Ho as [Hname _]. exact Hname.
Qed.

(** C6, at the input where it fails. The picture [a.png] is stored under
    [c1/u0/], yet [getDBDocumentMedia] of [u0] returns no entry: its
    listing is taken at the prefix [c1/u0], under which the whole folder
    rolls up into the single common prefix [c1/u0/]. *)
Theorem getDBDocumentMedia_misses_media :
  MemS3.content <$> MemS3.object_at demo_world_with_media "b1" "c1/u0/a.png" = Some "PNG"
  /\ run MemS3.serve (getDBDocumentMedia demo_handle "u0") demo_world_with_media
     = (Fulfilled [], demo_world_with_media, [ListObjectsV2 "b1" (Some "c1/u0") "/"]).
Proof. split; vm_compute; reflexivity. Qed.

(** With the [/], a listing does report the folder, and it names the
    entries by their full keys: the body is [c1/u0/data.json], which the
    comparison with [data.json] of [getDBDocumentMedia] would let pass. *)
Lemma getDBCollectionEntries_full_keys :
  (run MemS3.serve (getDBCollectionEntries demo_handle "u0/") demo_world_with_media).1.1
  = Fulfilled
      {| folderNames := [];
         objects := [{| name := "c1/u0/a.png"; lastModified := 3%Z |};
                     {| name := "c1/u0/data.json"; lastModified := 2%Z |};
                     {| name := "c1/u0/"; lastModified := 1%Z |}] |}.
Proof. vm_compute. reflexivity. Qed.

(* ===================================================================== *)
(** ** Deletion on the reference object store                             *)
(* ===================================================================== *)

Lemma omap_none {A B : Type} (l : list A) : omap (fun _ : A => @None B) l = [].
Proof. induction l; simpl; auto. Qed.

Lemma filter_all {A : Type} (P : A -> Prop) `{forall x, Decision (P x)} (l : list A) :
  (forall x, P x) -> filter P l = l.
Proof.
  intros HP. induction l as [|x l IH]; [reflexivity|].
  rewrite filter_cons_True by apply HP. rewrite IH. reflexivity.
Qed.

(** Without a delimiter nothing rolls up: the listing is the objects whose
    key starts with the prefix. *)
Lemma list_objects_flat bk prefix :
  MemS3.list_objects bk prefix ""
  = {| Contents :=
         MemS3.some_unless_empty
           (map MemS3.as_object
              (filter (fun kv => String.prefix prefix kv.1 = true) (map_to_list bk)));
       CommonPrefixes := None |}.
Proof.
  unfold MemS3.list_objects, MemS3.rollup. simpl String.eqb. cbv iota.
  rewrite omap_none. rewrite filter_all by reflexivity. reflexivity.
Qed.

Lemma lookup_delete_keys keys (bk : gmap string MemS3.stored) k :
  MemS3.delete_keys keys bk !! k = if bool_decide (Some k ∈ keys) then None else bk !! k.
Proof.
  unfold MemS3.delete_keys. revert bk.
  induction keys as [|[k'|] keys IH]; intros bk; cbn [fold_left].
  - rewrite bool_decide_eq_false_2 by apply not_elem_of_nil. reflexivity.
  - rewrite IH. destruct (decide (k' = k)) as [->|Hne].
    + rewrite (bool_decide_eq_true_2 (Some k ∈ Some k :: keys)) by left.
      case_bool_decide; [reflexivity|apply lookup_delete_eq].
    + rewrite lookup_delete_ne by assumption.
      apply (f_equal (fun x : bool => if x then None else bk !! k)).
      apply bool_decide_ext. rewrite elem_of_cons. split; [auto|].
      intros [[=]|]; [congruence|assumption].
  - rewrite IH. apply (f_equal (fun x : bool => if x then None else bk !! k)).
    apply bool_decide_ext. rewrite elem_of_cons. split; [auto|].
    intros [[=]|]; assumption.
Qed.

(** On the reference store: with no object under [{collection}/{id}/] the
    deletion is refused and the store is left as it was; with objects
    there, one batch removes every one of them. *)
Lemma deleteDBDocumentById_on_store this b c id w bk :
  binds this b c ->
  MemS3.buckets w !! b = Some bk ->
  let folder := c +:+ "/" +:+ id +:+ "/" in
  let under := filter (fun kv => String.prefix folder kv.1 = true) (map_to_list bk) in
  let keys := map (fun kv : string * MemS3.stored => Some kv.1) under in
  run MemS3.serve (deleteDBDocumentById this id) w =
  match under with
  | [] => (Rejected (InvariantFailed (nothing_to_delete id)), w, [ListObjects b folder])
  | _ :: _ =>
      (Fulfilled (),
       MemS3.with_buckets w (<[b := MemS3.delete_keys keys bk]> (MemS3.buckets w)),
       [ListObjects b folder; DeleteObjects b keys])
  end
  /\ forall k, String.prefix folder k = true -> MemS3.delete_keys keys bk !! k = None.
Proof.
  intros Hbinds Hbk folder under keys. split.
  - destruct Hbinds as (Hb & Hc & ? & ?). unfold deleteDBDocumentById.
    rewrite Hb, Hc, !invariant_string_some by assumption. to_then.
    cbn [Promise_then]. fold folder.
    rewrite run_then, (run_await MemS3.serve (ListObjects b folder)).
    cbn [MemS3.serve]. unfold MemS3.in_bucket. rewrite Hbk.
    rewrite list_objects_flat. fold under. cbn [Contents].
    destruct under as [|kv under'] eqn:Hunder; [reflexivity|].
    cbn [MemS3.some_unless_empty fmap option_fmap option_map map length Nat.ltb Nat.leb].
    match goal with |- context [await ?r] => rewrite (run_await MemS3.serve r) end.
    cbn [MemS3.serve]. unfold MemS3.in_bucket. rewrite Hbk.
    subst keys. cbn [map app MemS3.as_object Key fst]. rewrite !map_map. reflexivity.
  - intros k Hk. rewrite lookup_delete_keys.
    case_bool_decide as Hin; [reflexivity|].
    destruct (bk !! k) as [o|] eqn:Ho; [|reflexivity].
    exfalso. apply Hin. subst keys.
    change (Some k) with ((fun kv : string * MemS3.stored => Some kv.1) (k, o)).
    apply (list_elem_of_fmap_2 (fun kv : string * MemS3.stored => Some kv.1)).
    apply list_elem_of_filter. split; [exact Hk|]. apply elem_of_map_to_list, Ho.
Qed.

(* ===================================================================== *)
(** ** The constructor-based variant                                      *)
(* ===================================================================== *)

(** It reports a folder by its whole common prefix. *)
Lemma Legacy_getDBEntries_full_prefix :
  (run MemS3.serve (Legacy.getDBEntries demo_handle (Some "c1/")) demo_world_with_media).1.1
  = Fulfilled {| folderNames := ["c1/u0/"];
                 objects := [{| name := "c1/"; lastModified := 0%Z |}] |}.
Proof. vm_compute. reflexivity. Qed.

(** It keeps an empty [id]: the body goes to [c1//data.json]. *)
Lemma Legacy_uploadDBDocument_empty_id :
  let document := [("id", JSON.JStr "")] in
  exists w',
    run MemS3.serve (Legacy.uploadDBDocument demo_handle document) demo_world
    = (Fulfilled "", w',
       [Uuid; PutObject "b1" "c1//data.json" (Some (JSON.stringify (JSON.JObj document)))
                None]).
Proof. eexists. vm_compute. reflexivity. Qed.

(* ===================================================================== *)
(** ** Precondition checks of the media operations                        *)
(* ===================================================================== *)

Section UnboundMedia.
Context {World : Type}.
Variable serve : forall r : request, World -> settled (response r) * World.
Variable this : S3db.
Hypothesis unbound : bound this = false.

Lemma unbound_uploadDBCollectionMedia :
  exists e, precondition_error e
    /\ forall key file, uploadDBCollectionMedia this key file = Reject e.
Proof.
  unfold bound in unbound.
  destruct (JS.truthy (bucketName this)) eqn:Hb.
  - destruct (JS.truthy (collectionName this)) eqn:Hc; [discriminate unbound|].
    exists (InvariantFailed "Invalid collectionName"). split; [right; reflexivity|].
    intros key file. unfold uploadDBCollectionMedia.
    rewrite !invariant_string_if, Hb, Hc. reflexivity.
  - exists (InvariantFailed "Invalid bucketName"). split; [left; reflexivity|].
    intros key file. unfold uploadDBCollectionMedia.
    rewrite !invariant_string_if, Hb. reflexivity.
Qed.

Lemma run_settle_each_rejected {A B : Type} (e : error) (l : list B) w :
  run serve (settle_each (map (fun _ => @Reject A e) l)) w
  = (Fulfilled (map (fun _ => Rejected e) l), w, []).
Proof.
  induction l as [|x l IH]; [reflexivity|]. cbn [map settle_each]. to_then.
  cbn [Promise_settle Promise_then]. rewrite run_then, IH. reflexivity.
Qed.

(** With at least one file the upload of media is rejected before any
    request. *)
Lemma unbound_uploadDBDocumentMedia id file media w :
  exists e, precondition_error e
    /\ run serve (uploadDBDocumentMedia this id (file :: media)) w = (Rejected e, w, []).
Proof.
  destruct unbound_uploadDBCollectionMedia as (e & He & Heq).
  exists e. split; [assumption|]. unfold uploadDBDocumentMedia, Promise_all. to_then.
  rewrite (map_ext _ (fun _ => Reject e)) by (intros; apply Heq).
  rewrite !run_then, run_settle_each_rejected. reflexivity.
Qed.

Lemma unbound_uploadDBDocumentWithMedia document media fresh w w1 :
  serve Uuid w = (Fulfilled fresh, w1) ->
  exists e, precondition_error e
    /\ (run serve (uploadDBDocumentWithMedia this document media) w = (Rejected e, w, [])
        \/ run serve (uploadDBDocumentWithMedia this document media) w
           = (Rejected e, w1, [Uuid])).
Proof.
  intros Huuid. unfold uploadDBDocumentWithMedia, invariant. to_then.
  destruct (JS.truthy (collectionName this)) eqn:Hc.
  - cbn [Promise_then].
    destruct (unbound_uploadDBDocument serve this unbound document fresh w w1 Huuid)
      as (e & He & Hrun).
    exists e. split; [assumption|]. right. rewrite run_then, Hrun. reflexivity.
  - exists (InvariantFailed "Invalid collectionName"). split; [right; reflexivity|].
    left. reflexivity.
Qed.

End UnboundMedia.

(** An upload of no media runs no check at all: it resolves on any handle. *)
Lemma uploadDBDocumentMedia_nothing
    {World : Type} (serve : forall r : request, World -> settled (response r) * World)
    (this : S3db) (id : string) (w : World) :
  run serve (uploadDBDocumentMedia this id []) w = (Fulfilled (), w, []).
Proof. reflexivity. Qed.

(* ===================================================================== *)
(** ** Initialisation                                                     *)
(* ===================================================================== *)

Lemma run_getDBCollectionNames
    {World : Type} (serve : forall r : request, World -> settled (response r) * World)
    (this : S3db) (b : string) (w : World) :
  bucketName this = Some b -> b <> "" ->
  run serve (getDBCollectionNames this) w =
  match serve (ListObjectsV2 b None "/") w with
  | (Fulfilled out, w1) =>
      (Fulfilled (matchFolders None (CommonPrefixes out)), w1, [ListObjectsV2 b None "/"])
  | (Rejected e, w1) => (Rejected e, w1, [ListObjectsV2 b None "/"])
  end.
Proof.
  intros Hb Hne. unfold getDBCollectionNames. to_then.
  rewrite run_then, (run_getDBEntries serve this b) by assumption.
  destruct (serve _ w) as [[out|e] w1]; reflexivity.
Qed.

Lemma run_getDBBuckets
    {World : Type} (serve : forall r : request, World -> settled (response r) * World)
    (w : World) :
  run serve getDBBuckets w =
  match serve ListBuckets w with
  | (Fulfilled out, w1) => (Fulfilled (default [] (Buckets out)), w1, [ListBuckets])
  | (Rejected e, w1) => (Rejected e, w1, [ListBuckets])
  end.
Proof.
  unfold getDBBuckets. to_then. rewrite run_then, (run_await serve ListBuckets).
  destruct (serve ListBuckets w) as [[out|e] w1]; reflexivity.
Qed.

(** The run of [S3db.initialize] for a non-empty bucket name. *)
Lemma run_initialize
    {World : Type} (serve : forall r : request, World -> settled (response r) * World)
    (cfg : S3ClientConfig) (b c : string) (w : World) :
  b <> "" ->
  let listing := ListObjectsV2 b None "/" in
  let folder := PutObject b (c +:+ "/") None None in
  run serve (initialize cfg b c) w =
  match serve ListBuckets w with
  | (Rejected e, w1) => (Rejected e, w1, [ListBuckets])
  | (Fulfilled out, w1) =>
      let listed :=
        existsb (fun x => bool_decide (Name x = Some b)) (default [] (Buckets out)) in
      let '(x, w2, t1) :=
        if listed then (Fulfilled (), w1, [])
        else let '(x, w2) := serve (CreateBucket b) w1 in (x, w2, [CreateBucket b]) in
      match x with
      | Rejected e => (Rejected e, w2, ListBuckets :: t1)
      | Fulfilled _ =>
          match serve listing w2 with
          | (Rejected e, w3) => (Rejected e, w3, ListBuckets :: t1 ++ [listing])
          | (Fulfilled out2, w3) =>
              if JS.truthy (find (fun n => String.eqb n c)
                              (matchFolders None (CommonPrefixes out2)))
              then (Fulfilled (handle_of b c), w3, ListBuckets :: t1 ++ [listing])
              else
                let '(y, w4) := serve folder w3 in
                (match y with
                 | Fulfilled _ => Fulfilled (handle_of b c)
                 | Rejected e => Rejected e
                 end, w4, ListBuckets :: t1 ++ [listing; folder])
          end
      end
  end.
Proof.
  intros Hne listing folder. unfold initialize. to_then.
  rewrite run_then, run_getDBBuckets.
  destruct (serve ListBuckets w) as [[out|e] w1]; [|reflexivity].
  cbv zeta. rewrite run_then.
  destruct (existsb _ (default [] (Buckets out))); cbn [negb].
  - cbn [run]. rewrite run_then.
    rewrite (run_getDBCollectionNames serve _ b) by (assumption || reflexivity).
    fold listing. destruct (serve listing w1) as [[out2|e] w3]; [|reflexivity].
    rewrite run_then.
    destruct (JS.truthy _); cbn [negb].
    + reflexivity.
    + rewrite (run_await serve folder). destruct (serve folder w3) as [[[]|e] w4]; reflexivity.
  - rewrite (run_await serve (CreateBucket b)).
    destruct (serve (CreateBucket b) w1) as [[[]|e] w2]; [|reflexivity].
    rewrite run_then.
    rewrite (run_getDBCollectionNames serve _ b) by (assumption || reflexivity).
    fold listing. destruct (serve listing w2) as [[out2|e] w3]; [|reflexivity].
    rewrite run_then.
    destruct (JS.truthy _); cbn [negb].
    + reflexivity.
    + rewrite (run_await serve folder). destruct (serve folder w3) as [[[]|e] w4]; reflexivity.
Qed.

(* ===================================================================== *)
(** ** What an operation never requests                                   *)
(* ===================================================================== *)

Lemma only_then {A B : Type} (P : request -> Prop) (f : A -> Promise B) (p : Promise A) :
  only P p -> (forall a, only P (f a)) -> only P (Promise_then f p).
Proof.
  intros Hp Hf. induction Hp as [a|e|r k Hr Hk IH]; cbn [Promise_then].
  - apply Hf.
  - constructor.
  - constructor; assumption.
Qed.

Lemma only_await (P : request -> Prop) (r : request) : P r -> only P (await r).
Proof. intros Hr. constructor; [assumption|]. intros [v|e]; constructor. Qed.

Lemma only_invariant_string (P : request -> Prop) o message :
  only P (invariant_string o message).
Proof.
  rewrite invariant_string_if. destruct (JS.truthy o); constructor.
Qed.

Lemma only_invariant (P : request -> Prop) condition message :
  only P (invariant condition message).
Proof. destruct condition; constructor. Qed.

Lemma only_invariant_defined (P : request -> Prop) {A : Type} (x : option A) message :
  only P (invariant_defined x message).
Proof. destruct x; constructor. Qed.

Lemma only_settle {A : Type} (P : request -> Prop) (p : Promise A) :
  only P p -> only P (Promise_settle p).
Proof. induction 1; cbn [Promise_settle]; constructor; auto. Qed.

Lemma only_all {A : Type} (P : request -> Prop) (ps : list (Promise A)) :
  Forall (only P) ps -> only P (Promise_all ps).
Proof.
  intros Hps. unfold Promise_all. to_then. apply only_then.
  - induction Hps as [|p ps Hp Hps IH]; cbn [settle_each]; [constructor|].
    to_then. apply only_then; [apply only_settle, Hp|]. intros x.
    apply only_then; [exact IH|]. intros xs. constructor.
  - intros rs. destruct (collect rs); constructor.
Qed.

Lemma only_weaken {A : Type} (P Q : request -> Prop) (p : Promise A) :
  (forall r, P r -> Q r) -> only P p -> only Q p.
Proof. intros HPQ. induction 1; constructor; auto. Qed.

(** What the program may request bounds what a run does request. *)
Lemma only_run
    {World : Type} (serve : forall r : request, World -> settled (response r) * World)
    {A : Type} (P : request -> Prop) (p : Promise A) (w : World) :
  only P p -> Forall P (run serve p w).2.
Proof.
  intros Hp. revert w. induction Hp as [a|e|r k Hr Hk IH]; intros w; cbn [run].
  - constructor.
  - constructor.
  - destruct (serve r w) as [x w1]. specialize (IH x w1).
    destruct (run serve (k x) w1) as [[res w2] t]. constructor; assumption.
Qed.

Ltac only_request :=
  match goal with |- only ?P (await ?r) => apply (only_await P r) end.

Ltac only_steps :=
  to_then;
  repeat first
    [ apply only_invariant_string | apply only_invariant
    | apply only_invariant_defined | apply only_Resolve | apply only_Reject
    | apply only_then; [|intros ?] | only_request ].

Lemma only_getDBEntries (P : request -> Prop) this prefix :
  (forall b, bucketName this = Some b -> P (ListObjectsV2 b prefix "/")) ->
  only P (getDBEntries this prefix).
Proof.
  intros HP. unfold getDBEntries. to_then. rewrite invariant_string_if.
  destruct (JS.truthy (bucketName this)) eqn:Hb; cbn [Promise_then]; [|constructor].
  apply truthy_inv in Hb as (b & Hb & _). rewrite Hb. cbn [default].
  apply only_then; [only_request; apply HP, Hb|]. intros out. constructor.
Qed.

Lemma append_assoc (a b c : string) : (a +:+ b) +:+ c = a +:+ b +:+ c.
Proof.
  induction a as [|x a IH]; [reflexivity|].
  change (String x ((a +:+ b) +:+ c) = String x (a +:+ b +:+ c)). congruence.
Qed.

(** Past [invariant(s, message)] the continuation runs on a non-empty
    string, the value of [s]. *)
Lemma only_checked (P : request -> Prop) {B : Type} o message (f : string -> Promise B) :
  (forall s, o = Some s -> s <> "" -> only P (f s)) ->
  only P (Promise_then f (invariant_string o message)).
Proof.
  intros Hf. rewrite invariant_string_if.
  destruct (JS.truthy o) eqn:Ho; cbn [Promise_then]; [|constructor].
  apply truthy_inv in Ho as (s & -> & Hs). cbn [default]. auto.
Qed.

Section Only.
Variable P : request -> Prop.
Variable this : S3db.

Lemma only_getDBEntry key :
  (forall b, bucketName this = Some b -> P (GetObject b key)) ->
  only P (getDBEntry this key).
Proof.
  intros HP. unfold getDBEntry. to_then. apply only_checked. intros b Hb _.
  apply only_then; [only_request; auto|]. intros out.
  apply only_then; [apply only_invariant_defined|]. intros text.
  destruct (JSON.parse text); constructor.
Qed.

Lemma only_getDBDocumentIds :
  (forall b c, bucketName this = Some b -> collectionName this = Some c ->
               P (ListObjectsV2 b (Some (c +:+ "/")) "/")) ->
  only P (getDBDocumentIds this).
Proof.
  intros HP. unfold getDBDocumentIds. to_then. apply only_checked. intros c Hc _.
  apply only_then; [|constructor]. apply only_getDBEntries. auto.
Qed.

Lemma only_getDBDocumentData id :
  (forall b c, bucketName this = Some b -> collectionName this = Some c ->
               P (GetObject b (c +:+ "/" +:+ id +:+ "/data.json"))) ->
  only P (getDBDocumentData this id).
Proof.
  intros HP. unfold getDBDocumentData, getDBCollectionEntry. to_then.
  apply only_checked. intros c Hc _. apply only_getDBEntry. auto.
Qed.

Lemma only_getDBDocumentMedia id :
  (forall b c, bucketName this = Some b -> collectionName this = Some c ->
               P (ListObjectsV2 b (Some (c +:+ "/" +:+ id)) "/")) ->
  only P (getDBDocumentMedia this id).
Proof.
  intros HP. unfold getDBDocumentMedia, getDBCollectionEntries. to_then.
  apply only_then; [|constructor].
  apply only_checked. intros c Hc _. apply only_getDBEntries. auto.
Qed.

Lemma only_getDBDocumentUrl id :
  (forall b, bucketName this = Some b ->
             P (GetSignedUrl b (JS.template (collectionName this) +:+ "/" +:+ id
                                  +:+ "/data.json"))) ->
  only P (getDBDocumentUrl this id).
Proof.
  intros HP. unfold getDBDocumentUrl. to_then. apply only_checked. intros b Hb _.
  only_request. auto.
Qed.

Lemma only_uploadDBCollectionEntry key body :
  (forall b c, bucketName this = Some b -> collectionName this = Some c ->
               P (PutObject b (c +:+ "/" +:+ key) body None)) ->
  only P (uploadDBCollectionEntry this key body).
Proof.
  intros HP. unfold uploadDBCollectionEntry. to_then. apply only_checked. intros b Hb _.
  apply only_checked. intros c Hc _. only_request. auto.
Qed.

Lemma only_uploadDBCollectionMedia key file :
  (forall b c, bucketName this = Some b -> collectionName this = Some c ->
               P (PutObject b (c +:+ "/" +:+ key) (Some (File.bytes file))
                    (Some (media_content_type file)))) ->
  only P (uploadDBCollectionMedia this key file).
Proof.
  intros HP. unfold uploadDBCollectionMedia. to_then. apply only_checked. intros b Hb _.
  apply only_checked. intros c Hc _. only_request. auto.
Qed.

(** The requests of the three uploads: the generator, and puts into the
    bucket of the handle at keys of its collection. *)
Lemma only_uploadDBDocument document :
  P Uuid ->
  (forall b c key body, bucketName this = Some b -> collectionName this = Some c ->
                        P (PutObject b (c +:+ "/" +:+ key) body None)) ->
  only P (uploadDBDocument this document).
Proof.
  intros HU HP. unfold uploadDBDocument. to_then.
  apply only_then; [only_request; assumption|]. intros fresh.
  assert (Hplace : only P (Promise_then (fun _ : unit => Resolve (JSON.JStr fresh))
                             (uploadDBCollectionEntry this (fresh +:+ "/") None))).
  { apply only_then; [|constructor]. apply only_uploadDBCollectionEntry. auto. }
  apply only_then.
  - destruct (negb (JSON.has "id" document) || negb (JSON.truthy (JSON.get "id" document)));
      [exact Hplace|]. destruct (JSON.get "id" document); [constructor|exact Hplace].
  - intros id. apply only_then; [|constructor]. apply only_uploadDBCollectionEntry. auto.
Qed.

Lemma only_uploadDBDocumentMedia id media :
  (forall b c file, bucketName this = Some b -> collectionName this = Some c ->
                    file ∈ media -> P (media_put b c id file)) ->
  only P (uploadDBDocumentMedia this id media).
Proof.
  intros HP. unfold uploadDBDocumentMedia. to_then.
  apply only_then; [|constructor]. apply only_all.
  apply Forall_forall. intros p Hp. apply list_elem_of_fmap in Hp as (file & -> & Hin).
  apply only_uploadDBCollectionMedia. intros b c Hb Hc.
  exact (HP b c file Hb Hc Hin).
Qed.

Lemma only_uploadDBDocumentWithMedia document media :
  P Uuid ->
  (forall b c key body ctype, bucketName this = Some b -> collectionName this = Some c ->
                              P (PutObject b (c +:+ "/" +:+ key) body ctype)) ->
  only P (uploadDBDocumentWithMedia this document media).
Proof.
  intros HU HP. unfold uploadDBDocumentWithMedia. to_then.
  apply only_then; [apply only_invariant|]. intros _.
  apply only_then; [apply only_uploadDBDocument; auto|]. intros id.
  apply only_then; [|constructor]. apply only_uploadDBDocumentMedia.
  intros b c file Hb Hc _. apply HP; assumption.
Qed.

Lemma only_deleteDBDocumentById id :
  (forall b c, bucketName this = Some b -> collectionName this = Some c ->
               P (ListObjects b (c +:+ "/" +:+ id +:+ "/"))) ->
  (forall b keys, bucketName this = Some b -> P (DeleteObjects b keys)) ->
  only P (deleteDBDocumentById this id).
Proof.
  intros HL HD. unfold deleteDBDocumentById. to_then. apply only_checked. intros b Hb _.
  apply only_checked. intros c Hc _.
  apply only_then; [only_request; auto|]. intros out.
  destruct (Contents out) as [contents|]; cbn [fmap option_fmap option_map]; [|constructor].
  destruct (Nat.ltb 0 _); [only_request; auto|constructor].
Qed.

Lemma only_deleteDBDocumentMedia id mediaNames :
  (forall b c, bucketName this = Some b -> collectionName this = Some c ->
     P (DeleteObjects b
          (map (fun mediaName => Some (c +:+ "/" +:+ id +:+ "/" +:+ mediaName))
               mediaNames))) ->
  only P (deleteDBDocumentMedia this id mediaNames).
Proof.
  intros HP. unfold deleteDBDocumentMedia. to_then. apply only_checked. intros b Hb _.
  apply only_checked. intros c Hc _. only_request. auto.
Qed.

End Only.

Lemma only_getDBBuckets (P : request -> Prop) : P ListBuckets -> only P getDBBuckets.
Proof.
  intros HP. unfold getDBBuckets. to_then. apply only_then; [only_request; exact HP|].
  intros out. constructor.
Qed.

Lemma only_getDBCollectionNames (P : request -> Prop) this :
  (forall b, bucketName this = Some b -> P (ListObjectsV2 b None "/")) ->
  only P (getDBCollectionNames this).
Proof.
  intros HP. unfold getDBCollectionNames. to_then. apply only_then; [|constructor].
  apply only_getDBEntries. exact HP.
Qed.

Lemma only_initialize (P : request -> Prop) cfg b c :
  P ListBuckets -> P (CreateBucket b) -> P (ListObjectsV2 b None "/") ->
  P (PutObject b (c +:+ "/") None None) ->
  only P (initialize cfg b c).
Proof.
  intros H1 H2 H3 H4. unfold initialize. to_then.
  apply only_then; [apply only_getDBBuckets, H1|]. intros buckets.
  apply only_then; [destruct (negb _); [only_request; exact H2|constructor]|]. intros _.
  apply only_then.
  { apply only_getDBCollectionNames. cbn [bucketName]. intros b' [= <-]. exact H3. }
  intros names. apply only_then; [|constructor].
  destruct (negb _); [only_request; exact H4|constructor].
Qed.

Lemma only_Strict_initialize (P : request -> Prop) cfg b c :
  P ListBuckets -> P (ListObjectsV2 b None "/") ->
  only P (Strict.initialize cfg b c).
Proof.
  intros H1 H3. unfold Strict.initialize. to_then.
  apply only_then; [apply only_getDBBuckets, H1|]. intros buckets.
  apply only_then; [apply only_invariant|]. intros _.
  apply only_then.
  { apply only_getDBCollectionNames. cbn [bucketName]. intros b' [= <-]. exact H3. }
  intros names. apply only_then; [apply only_invariant|constructor].
Qed.

(** X1. The four reads of the class never issue a request that changes the
    store, whatever the handle, the server and its answers. *)
Theorem reads_never_write
    {World : Type} (serve : forall r : request, World -> settled (response r) * World)
    (this : S3db) (id : string) (w : World) :
  Forall (fun r => is_write r = false) (run serve (getDBDocumentIds this) w).2
  /\ Forall (fun r => is_write r = false) (run serve (getDBDocumentData this id) w).2
  /\ Forall (fun r => is_write r = false) (run serve (getDBDocumentMedia this id) w).2
  /\ Forall (fun r => is_write r = false) (run serve (getDBDocumentUrl this id) w).2.
Proof.
  repeat split; apply only_run.
  - apply only_getDBDocumentIds. reflexivity.
  - apply only_getDBDocumentData. reflexivity.
  - apply only_getDBDocumentMedia. reflexivity.
  - apply only_getDBDocumentUrl. reflexivity.
Qed.

(** X2. An upload generates identifiers and puts objects, and nothing else:
    it never lists or reads what is stored (no check for an existing
    document), and never deletes (nothing is undone when a later put is
    refused). Every put goes into the bucket of the handle, at a key under
    the prefix of its collection. *)
Theorem uploads_put_in_collection
    {World : Type} (serve : forall r : request, World -> settled (response r) * World)
    (this : S3db) (document : JSON.object) (id : string) (media : list File.t)
    (w : World) :
  Forall (put_in_collection this) (run serve (uploadDBDocument this document) w).2
  /\ Forall (put_in_collection this) (run serve (uploadDBDocumentMedia this id media) w).2
  /\ Forall (put_in_collection this)
       (run serve (uploadDBDocumentWithMedia this document media) w).2.
Proof.
  assert (Hput : forall b c key body ctype,
             bucketName this = Some b -> collectionName this = Some c ->
             put_in_collection this (PutObject b (c +:+ "/" +:+ key) body ctype)).
  { intros b c key body ctype Hb Hc. split; [assumption|]. exists c. split; [assumption|].
    rewrite <- append_assoc. apply prefix_app. }
  repeat split; apply only_run.
  - apply only_uploadDBDocument; [exact I|]. intros. apply Hput; assumption.
  - apply only_uploadDBDocumentMedia. intros b c file Hb Hc _. apply Hput; assumption.
  - apply only_uploadDBDocumentWithMedia; [exact I|]. intros. apply Hput; assumption.
Qed.

(** X3. Every request of every public operation of a handle addresses the
    bucket of the handle or no bucket at all. *)
Theorem operations_stay_in_bucket
    {World : Type} (serve : forall r : request, World -> settled (response r) * World)
    (this : S3db) (id : string) (document : JSON.object) (media : list File.t)
    (mediaNames : list string) (w : World) :
  Forall (within this) (run serve (getDBDocumentIds this) w).2
  /\ Forall (within this) (run serve (getDBDocumentData this id) w).2
  /\ Forall (within this) (run serve (getDBDocumentMedia this id) w).2
  /\ Forall (within this) (run serve (getDBDocumentUrl this id) w).2
  /\ Forall (within this) (run serve (uploadDBDocument this document) w).2
  /\ Forall (within this) (run serve (uploadDBDocumentMedia this id media) w).2
  /\ Forall (within this) (run serve (uploadDBDocumentWithMedia this document media) w).2
  /\ Forall (within this) (run serve (deleteDBDocumentById this id) w).2
  /\ Forall (within this) (run serve (deleteDBDocumentMedia this id mediaNames) w).2.
Proof.
  repeat split; apply only_run.
  - apply only_getDBDocumentIds. intros b c Hb _. exact Hb.
  - apply only_getDBDocumentData. intros b c Hb _. exact Hb.
  - apply only_getDBDocumentMedia. intros b c Hb _. exact Hb.
  - apply only_getDBDocumentUrl. intros b Hb. exact Hb.
  - apply only_uploadDBDocument; [exact I|]. intros b c key body Hb _. exact Hb.
  - apply only_uploadDBDocumentMedia. intros b c file Hb _ _. exact Hb.
  - apply only_uploadDBDocumentWithMedia; [exact I|]. intros b c key body ctype Hb _. exact Hb.
  - apply only_deleteDBDocumentById; [intros b c Hb _|intros b keys Hb]; exact Hb.
  - apply only_deleteDBDocumentMedia. intros b c Hb _. exact Hb.
Qed.

(** X4. The requests of the two initialisations. The one of
    [part_001] creates what is missing and issues nothing but the listing of
    the buckets, the creation of the bucket, the listing of its top level
    and the put of the folder of the collection; the strict one of
    [part_002] only reads. *)
Theorem initialize_requests
    {World : Type} (serve : forall r : request, World -> settled (response r) * World)
    (cfg : S3ClientConfig) (b c : string) (w : World) :
  Forall (fun r => r ∈ [ListBuckets; CreateBucket b; ListObjectsV2 b None "/";
                         PutObject b (c +:+ "/") None None])
    (run serve (initialize cfg b c) w).2
  /\ Forall (fun r => r ∈ [ListBuckets; ListObjectsV2 b None "/"])
       (run serve (Strict.initialize cfg b c) w).2.
Proof.
  split; apply only_run.
  - apply only_initialize; set_solver.
  - apply only_Strict_initialize; set_solver.
Qed.

(* ===================================================================== *)
(** ** The two initialisations                                            *)
(* ===================================================================== *)

(** [!!names.find((name) => name === c)]: the name is listed and is not
    the empty string. *)
Lemma find_name_truthy c names :
  JS.truthy (find (fun n => String.eqb n c) names) = true <-> c ∈ names /\ c <> "".
Proof.
  induction names as [|x names IH]; cbn [find].
  - split; [discriminate|]. intros [H _]. inversion H.
  - destruct (String.eqb x c) eqn:Hx.
    + apply String.eqb_eq in Hx as ->. cbn [JS.truthy]. split.
      * intros H. split; [left|]. intros ->. discriminate.
      * intros [_ H]. apply negb_true_iff, String.eqb_neq, H.
    + apply String.eqb_neq in Hx. rewrite IH. split.
      * intros [H1 H2]. split; [right|]; assumption.
      * intros [H1 H2]. split; [|assumption].
        apply elem_of_cons in H1 as [->|H1]; [congruence|assumption].
Qed.

(** A handle whose bucket name is the empty string lists nothing. *)
Lemma getDBCollectionNames_empty_bucket
    {World : Type} (serve : forall r : request, World -> settled (response r) * World)
    (this : S3db) (w : World) :
  bucketName this = Some "" ->
  run serve (getDBCollectionNames this) w
    = (Rejected (InvariantFailed "Invalid bucketName"), w, []).
Proof.
  intros Hb. unfold getDBCollectionNames, getDBEntries. rewrite Hb. reflexivity.
Qed.

(** The run of the strict [initialize] for a non-empty bucket name. *)
Lemma run_Strict_initialize
    {World : Type} (serve : forall r : request, World -> settled (response r) * World)
    (cfg : S3ClientConfig) (b c : string) (w : World) :
  b <> "" ->
  let listing := ListObjectsV2 b None "/" in
  run serve (Strict.initialize cfg b c) w =
  match serve ListBuckets w with
  | (Rejected e, w1) => (Rejected e, w1, [ListBuckets])
  | (Fulfilled out, w1) =>
      if existsb (fun x => bool_decide (Name x = Some b)) (default [] (Buckets out))
      then
        match serve listing w1 with
        | (Rejected e, w2) => (Rejected e, w2, [ListBuckets; listing])
        | (Fulfilled out2, w2) =>
            (if JS.truthy (find (fun n => String.eqb n c)
                             (matchFolders None (CommonPrefixes out2)))
             then Fulfilled (handle_of b c)
             else Rejected (InvariantFailed "Invalid collection in current bucket"),
             w2, [ListBuckets; listing])
        end
      else (Rejected (InvariantFailed "Invalid bucketName in S3"), w1, [ListBuckets])
  end.
Proof.
  intros Hne listing. unfold Strict.initialize. to_then.
  rewrite run_then, run_getDBBuckets.
  destruct (serve ListBuckets w) as [[out|e] w1]; [|reflexivity].
  cbv zeta. rewrite run_then.
  destruct (existsb _ (default [] (Buckets out))); [|reflexivity].
  cbn [invariant run]. rewrite run_then.
  rewrite (run_getDBCollectionNames serve _ b) by (assumption || reflexivity).
  fold listing. destruct (serve listing w1) as [[out2|e] w2]; [|reflexivity].
  rewrite run_then. destruct (JS.truthy _); reflexivity.
Qed.

(** With the empty string for a bucket name neither initialisation
    resolves. *)
Lemma initialize_empty_bucket
    {World : Type} (serve : forall r : request, World -> settled (response r) * World)
    (cfg : S3ClientConfig) (c : string) (w : World) :
  (exists e, (run serve (initialize cfg "" c) w).1.1 = Rejected e)
  /\ (exists e, (run serve (Strict.initialize cfg "" c) w).1.1 = Rejected e).
Proof.
  split.
  - unfold initialize. to_then. rewrite run_then, run_getDBBuckets.
    destruct (serve ListBuckets w) as [[out|e] w1]; [|eauto].
    cbv zeta. rewrite run_then.
    destruct (negb _).
    + rewrite (run_await serve (CreateBucket "")).
      destruct (serve (CreateBucket "") w1) as [[[]|e] w2]; [|eauto].
      rewrite run_then, getDBCollectionNames_empty_bucket by reflexivity. eauto.
    + cbn [run]. rewrite run_then, getDBCollectionNames_empty_bucket by reflexivity. eauto.
  - unfold Strict.initialize. to_then. rewrite run_then, run_getDBBuckets.
    destruct (serve ListBuckets w) as [[out|e] w1]; [|eauto].
    cbv zeta. rewrite run_then.
    destruct (existsb _ _); [|cbn; eauto].
    cbn [invariant run]. rewrite run_then, getDBCollectionNames_empty_bucket by reflexivity.
    eauto.
Qed.

Lemma or_else_empty prefix : JS.or_else prefix "" = default "" prefix.
Proof. destruct prefix as [[|a s]|]; reflexivity. Qed.

(** The name of a folder that the listing reports under the prefix. *)
Lemma stripped_folder prefix seg :
  JS.contains "/" seg = false ->
  stripped prefix (default "" prefix +:+ seg +:+ "/") = seg.
Proof.
  intros Hseg. unfold stripped. rewrite or_else_empty, replace_first_prefix.
  apply (first_segment_next seg ""), Hseg.
Qed.

Lemma folder_nonempty p seg : p +:+ seg +:+ "/" <> "".
Proof. destruct p; [destruct seg|]; discriminate. Qed.

(** X5. What the handle of a successful initialisation is. The bucket name
    is known to be non-empty (an empty one is refused when the collections
    are listed), the collection name is taken as it comes: the handle is
    usable exactly when the collection name is not the empty string. The
    top level of the bucket has been listed. *)
Theorem initialize_handle
    {World : Type} (serve : forall r : request, World -> settled (response r) * World)
    (cfg : S3ClientConfig) (b c : string) (w w1 : World) (h : S3db) (t : list request) :
  run serve (initialize cfg b c) w = (Fulfilled h, w1, t) ->
  h = handle_of b c /\ b <> ""
  /\ (bound h = true <-> c <> "")
  /\ ListObjectsV2 b None "/" ∈ t.
Proof.
  intros Hrun.
  assert (Hb : b <> "").
  { intros ->. destruct (initialize_empty_bucket serve cfg c w) as [[e He] _].
    rewrite Hrun in He. discriminate. }
  rewrite (run_initialize serve cfg b c w Hb) in Hrun. cbv zeta in Hrun.
  assert (Hh : h = handle_of b c /\ ListObjectsV2 b None "/" ∈ t).
  { destruct (serve ListBuckets w) as [[out|e] w0]; [|discriminate].
    destruct (existsb _ _).
    - destruct (serve (ListObjectsV2 b None "/") w0) as [[out2|e] w3]; [|discriminate].
      destruct (JS.truthy _).
      + injection Hrun as <- _ <-. split; [reflexivity|set_solver].
      + destruct (serve (PutObject b (c +:+ "/") None None) w3) as [[[]|e] w4];
          [|discriminate].
        injection Hrun as <- _ <-. split; [reflexivity|set_solver].
    - destruct (serve (CreateBucket b) w0) as [[[]|e] w2]; [|discriminate].
      destruct (serve (ListObjectsV2 b None "/") w2) as [[out2|e] w3]; [|discriminate].
      destruct (JS.truthy _).
      + injection Hrun as <- _ <-. split; [reflexivity|set_solver].
      + destruct (serve (PutObject b (c +:+ "/") None None) w3) as [[[]|e] w4];
          [|discriminate].
        injection Hrun as <- _ <-. split; [reflexivity|set_solver]. }
  destruct Hh as [-> Ht]. repeat split; try assumption.
  - unfold bound, handle_of. cbn [bucketName collectionName].
    rewrite (truthy_nonempty b Hb). cbn [andb JS.truthy].
    intros H ->. discriminate.
  - intros Hc. unfold bound, handle_of. cbn [bucketName collectionName].
    rewrite (truthy_nonempty b Hb), (truthy_nonempty c Hc). reflexivity.
Qed.

(** X6. When nothing is missing, that is when the bucket is listed and its
    top level shows the folder of the collection, both initialisations
    issue the two listings and nothing else, and hand out the same handle. *)
Theorem initialize_nothing_missing
    {World : Type} (serve : forall r : request, World -> settled (response r) * World)
    (cfg : S3ClientConfig) (b c : string) (w w1 w2 : World)
    (out : ListBucketsOutput) (out2 : ListObjectsOutput) :
  b <> "" -> c <> "" -> JS.contains "/" c = false ->
  serve ListBuckets w = (Fulfilled out, w1) ->
  {| Name := Some b |} ∈ default [] (Buckets out) ->
  serve (ListObjectsV2 b None "/") w1 = (Fulfilled out2, w2) ->
  {| Prefix := Some (c +:+ "/") |} ∈ default [] (CommonPrefixes out2) ->
  run serve (initialize cfg b c) w
    = (Fulfilled (handle_of b c), w2, [ListBuckets; ListObjectsV2 b None "/"])
  /\ run serve (Strict.initialize cfg b c) w
     = (Fulfilled (handle_of b c), w2, [ListBuckets; ListObjectsV2 b None "/"]).
Proof.
  intros Hb Hc Hclean Hlist Hin Hlist2 Hin2.
  assert (Hlisted : existsb (fun x => bool_decide (Name x = Some b))
                      (default [] (Buckets out)) = true).
  { apply existsb_exists. exists {| Name := Some b |}. split.
    - apply list_elem_of_In, Hin.
    - apply bool_decide_eq_true. reflexivity. }
  assert (Hfound : JS.truthy (find (fun n => String.eqb n c)
                                (matchFolders None (CommonPrefixes out2))) = true).
  { apply find_name_truthy. split; [|assumption].
    apply matchFolders_spec. exists (c +:+ "/"). split; [assumption|]. split.
    - apply (folder_nonempty "" c).
    - symmetry. apply (stripped_folder None c Hclean). }
  split.
  - rewrite (run_initialize serve cfg b c w Hb). cbv zeta.
    rewrite Hlist, Hlisted, Hlist2, Hfound. reflexivity.
  - rewrite (run_Strict_initialize serve cfg b c w Hb). cbv zeta.
    rewrite Hlist, Hlisted, Hlist2, Hfound. reflexivity.
Qed.

(** X7. The strict initialisation refines the one that creates what is
    missing: where the strict one resolves, the other one does the same,
    with the same handle, the same requests (two listings, no write) and
    the same final state. *)
Theorem Strict_initialize_refines
    {World : Type} (serve : forall r : request, World -> settled (response r) * World)
    (cfg : S3ClientConfig) (b c : string) (w w1 : World) (h : S3db) (t : list request) :
  run serve (Strict.initialize cfg b c) w = (Fulfilled h, w1, t) ->
  run serve (initialize cfg b c) w = (Fulfilled h, w1, t)
  /\ t = [ListBuckets; ListObjectsV2 b None "/"].
Proof.
  intros Hrun.
  assert (Hb : b <> "").
  { intros ->. destruct (initialize_empty_bucket serve cfg c w) as [_ [e He]].
    rewrite Hrun in He. discriminate. }
  rewrite (run_Strict_initialize serve cfg b c w Hb) in Hrun.
  rewrite (run_initialize serve cfg b c w Hb). cbv zeta in *.
  destruct (serve ListBuckets w) as [[out|e] w0]; [|discriminate].
  destruct (existsb _ _); [|discriminate].
  destruct (serve (ListObjectsV2 b None "/") w0) as [[out2|e] w3]; [|discriminate].
  destruct (JS.truthy _); [|discriminate].
  injection Hrun as <- <- <-. split; reflexivity.
Qed.

(** X8. A collection name that no listing can show, the empty string or a
    name with a slash in it. The strict initialisation refuses it on every
    server; the other one never finds its folder, so that every successful
    initialisation ends with the put of the folder. *)
Theorem initialize_unlistable_collection
    {World : Type} (serve : forall r : request, World -> settled (response r) * World)
    (cfg : S3ClientConfig) (b c : string) (w : World) :
  c = "" \/ JS.contains "/" c = true ->
  (exists e, (run serve (Strict.initialize cfg b c) w).1.1 = Rejected e)
  /\ (forall h w1 t,
        run serve (initialize cfg b c) w = (Fulfilled h, w1, t) ->
        last t = Some (PutObject b (c +:+ "/") None None)).
Proof.
  intros Hc.
  assert (Hfound : forall cps,
             JS.truthy (find (fun n => String.eqb n c) (matchFolders None cps)) = false).
  { intros cps. apply not_true_is_false. intros H.
    apply find_name_truthy in H as [Hin Hne]. destruct Hc as [->|Hc]; [congruence|].
    apply matchFolders_spec in Hin as (P & _ & _ & ->).
    unfold stripped in Hc. rewrite first_segment_clean in Hc. discriminate. }
  destruct (decide (b = "")) as [->|Hb].
  { destruct (initialize_empty_bucket serve cfg c w) as [[e He] Hs]. split; [exact Hs|].
    intros h w1 t Hrun. rewrite Hrun in He. discriminate. }
  split.
  - rewrite (run_Strict_initialize serve cfg b c w Hb). cbv zeta.
    destruct (serve ListBuckets w) as [[out|e] w0]; [|eauto].
    destruct (existsb _ _); [|eauto].
    destruct (serve (ListObjectsV2 b None "/") w0) as [[out2|e] w3]; [|eauto].
    rewrite Hfound. eauto.
  - intros h w1 t. rewrite (run_initialize serve cfg b c w Hb). cbv zeta.
    destruct (serve ListBuckets w) as [[out|e] w0]; [|discriminate].
    destruct (existsb _ _).
    + destruct (serve (ListObjectsV2 b None "/") w0) as [[out2|e] w3]; [|discriminate].
      rewrite Hfound.
      destruct (serve (PutObject b (c +:+ "/") None None) w3) as [[[]|e] w4];
        [|discriminate].
      intros [= <- <- <-]. reflexivity.
    + destruct (serve (CreateBucket b) w0) as [[[]|e] w2]; [|discriminate].
      destruct (serve (ListObjectsV2 b None "/") w2) as [[out2|e] w3]; [|discriminate].
      rewrite Hfound.
      destruct (serve (PutObject b (c +:+ "/") None None) w3) as [[[]|e] w4];
        [|discriminate].
      intros [= <- <- <-]. reflexivity.
Qed.

(* ===================================================================== *)
(** ** Listings of the reference store                                    *)
(* ===================================================================== *)

Lemma default_some_unless_empty {A : Type} (l : list A) :
  default [] (MemS3.some_unless_empty l) = l.
Proof. destruct l; reflexivity. Qed.

Lemma prefix_inv p k :
  String.prefix p k = true -> k = p +:+ JS.drop_chars (String.length p) k.
Proof.
  revert k. induction p as [|a p IH]; intros k H.
  - destruct k; reflexivity.
  - destruct k as [|x k]; [discriminate|]. cbn [String.prefix] in H.
    destruct (ascii_dec a x) as [->|]; [|discriminate].
    cbn [String.length JS.drop_chars].
    change (String x k = String x (p +:+ JS.drop_chars (String.length p) k)).
    f_equal. apply IH, H.
Qed.

Lemma prefix_slash c s : String.prefix "/" (String c s) = true <-> c = "/"%char.
Proof.
  cbn [String.prefix]. destruct (ascii_dec "/" c) as [<-|Hne].
  - split; [reflexivity|]. intros _. destruct s; reflexivity.
  - split; [discriminate|]. intros ->. congruence.
Qed.

Lemma upto_segment seg rest :
  JS.contains "/" seg = false ->
  MemS3.upto "/" (seg +:+ String "/" rest) = Some (seg +:+ "/").
Proof.
  induction seg as [|a seg IH]; intros Hseg.
  - change (MemS3.upto "/" (String "/" rest) = Some "/"). cbn [MemS3.upto].
    rewrite (proj2 (prefix_slash "/" rest)); reflexivity.
  - cbn [JS.contains] in Hseg. apply orb_false_iff in Hseg as [Ha Hseg].
    change (MemS3.upto "/" (String a (seg +:+ String "/" rest))
            = Some (String a (seg +:+ "/"))).
    cbn [MemS3.upto]. destruct (String.prefix "/" _) eqn:Hp.
    + apply prefix_slash in Hp as ->. discriminate.
    + rewrite (IH Hseg). reflexivity.
Qed.

Lemma upto_inv s g :
  MemS3.upto "/" s = Some g ->
  exists seg rest, s = seg +:+ String "/" rest /\ g = seg +:+ "/"
                   /\ JS.contains "/" seg = false.
Proof.
  revert g. induction s as [|a s IH]; intros g H; cbn [MemS3.upto] in H.
  - discriminate.
  - destruct (String.prefix "/" (String a s)) eqn:Hp.
    + apply prefix_slash in Hp as ->. injection H as <-. exists "", s. auto.
    + destruct (MemS3.upto "/" s) as [g'|] eqn:Hu; [|discriminate].
      injection H as <-. destruct (IH g' eq_refl) as (seg & rest & -> & -> & Hseg).
      exists (String a seg), rest. repeat split. cbn [JS.contains].
      rewrite Hseg, orb_false_r. apply not_true_is_false. intros Ha.
      apply Ascii.eqb_eq in Ha as ->.
      rewrite (proj2 (prefix_slash "/" _)) in Hp; [discriminate|reflexivity].
Qed.

Lemma rollup_segment p seg rest :
  JS.contains "/" seg = false ->
  MemS3.rollup p "/" (p +:+ seg +:+ String "/" rest) = Some (p +:+ seg +:+ "/").
Proof.
  intros Hseg. unfold MemS3.rollup. cbn [String.eqb Ascii.eqb].
  rewrite drop_chars_app, (upto_segment seg rest Hseg). reflexivity.
Qed.

Lemma rollup_inv p k g :
  String.prefix p k = true -> MemS3.rollup p "/" k = Some g ->
  exists seg rest, k = p +:+ seg +:+ String "/" rest /\ g = p +:+ seg +:+ "/"
                   /\ JS.contains "/" seg = false.
Proof.
  intros Hp Hr. unfold MemS3.rollup in Hr. cbn [String.eqb Ascii.eqb] in Hr.
  destruct (MemS3.upto "/" _) as [g'|] eqn:Hu; [|discriminate]. injection Hr as <-.
  apply upto_inv in Hu as (seg & rest & Hk & -> & Hseg).
  exists seg, rest. repeat split; [|assumption].
  rewrite (prefix_inv p k Hp) at 1. rewrite Hk. reflexivity.
Qed.

(** The groups of a listing: the rolled-up prefixes of the keys under the
    prefix that go past a delimiter. *)
Lemma list_objects_groups bk p d g :
  {| Prefix := Some g |} ∈ default [] (CommonPrefixes (MemS3.list_objects bk p d))
  <-> exists k o, bk !! k = Some o /\ String.prefix p k = true
                  /\ MemS3.rollup p d k = Some g.
Proof.
  unfold MemS3.list_objects. cbn [CommonPrefixes]. rewrite default_some_unless_empty.
  rewrite list_elem_of_fmap. split.
  - intros (g' & [= ->] & Hg). rewrite elem_of_remove_dups in Hg.
    apply list_elem_of_omap in Hg as ([k o] & Hin & Hr).
    apply list_elem_of_filter in Hin as [Hp Hin]. apply elem_of_map_to_list in Hin.
    exists k, o. auto.
  - intros (k & o & Hk & Hp & Hr). exists g. split; [reflexivity|].
    rewrite elem_of_remove_dups. apply list_elem_of_omap. exists (k, o). split; [|exact Hr].
    apply list_elem_of_filter. split; [exact Hp|]. apply elem_of_map_to_list, Hk.
Qed.

(** A key with a further segment under the prefix shows as a folder. *)
Lemma folder_listed bk prefix seg rest o :
  bk !! (default "" prefix +:+ seg +:+ String "/" rest) = Some o ->
  JS.contains "/" seg = false ->
  seg ∈ matchFolders prefix
          (CommonPrefixes (MemS3.list_objects bk (default "" prefix) "/")).
Proof.
  intros Hk Hseg. apply matchFolders_spec.
  exists (default "" prefix +:+ seg +:+ "/"). split; [|split].
  - apply list_objects_groups. eexists _, o. split; [exact Hk|]. split.
    + apply prefix_app.
    + apply rollup_segment, Hseg.
  - apply folder_nonempty.
  - symmetry. apply stripped_folder, Hseg.
Qed.

(** Every folder of the listing comes from such a key. *)
Lemma folder_listed_inv bk prefix seg :
  seg ∈ matchFolders prefix
          (CommonPrefixes (MemS3.list_objects bk (default "" prefix) "/")) ->
  JS.contains "/" seg = false
  /\ exists rest o, bk !! (default "" prefix +:+ seg +:+ String "/" rest) = Some o.
Proof.
  intros Hin. apply matchFolders_spec in Hin as (P & HP & _ & ->).
  apply list_objects_groups in HP as (k & o & Hk & Hp & Hr).
  apply rollup_inv in Hr as (seg & rest & -> & -> & Hseg); [|exact Hp].
  rewrite (stripped_folder prefix seg Hseg). split; [exact Hseg|]. eauto.
Qed.

(** The listing of the buckets shows the buckets of the store. *)
Lemma bucket_listed (bs : gmap string (gmap string MemS3.stored)) b :
  existsb (fun x => bool_decide (Name x = Some b))
    (map (fun kv : string * gmap string MemS3.stored => {| Name := Some kv.1 |})
       (map_to_list bs))
  = bool_decide (is_Some (bs !! b)).
Proof.
  destruct (bs !! b) as [bk|] eqn:Hb.
  - rewrite (bool_decide_eq_true_2 _ (mk_is_Some _ _ eq_refl)).
    apply existsb_exists. exists {| Name := Some b |}. split.
    + apply list_elem_of_In, list_elem_of_fmap. exists (b, bk). split; [reflexivity|].
      apply elem_of_map_to_list, Hb.
    + apply bool_decide_eq_true. reflexivity.
  - rewrite bool_decide_eq_false_2 by (intros [x Hx]; discriminate).
    apply not_true_is_false. intros H. apply existsb_exists in H as (x & Hin & Hx).
    apply list_elem_of_In, list_elem_of_fmap in Hin as ([k bk] & -> & Hin).
    apply elem_of_map_to_list in Hin. apply bool_decide_eq_true in Hx.
    cbn in Hx. injection Hx as ->. congruence.
Qed.

(** On a store that has the bucket and the folder of the collection, the
    initialisation reads twice and changes nothing. *)
Lemma initialize_settled cfg b c w bk o :
  b <> "" -> c <> "" -> JS.contains "/" c = false ->
  MemS3.buckets w !! b = Some bk -> bk !! (c +:+ "/") = Some o ->
  run MemS3.serve (initialize cfg b c) w
    = (Fulfilled (handle_of b c), w, [ListBuckets; ListObjectsV2 b None "/"]).
Proof.
  intros Hb Hc Hclean Hbk Hfolder.
  rewrite (run_initialize MemS3.serve cfg b c w Hb). cbv zeta.
  cbn [MemS3.serve Buckets default id]. rewrite bucket_listed, Hbk.
  rewrite (bool_decide_eq_true_2 _ (mk_is_Some _ _ eq_refl)).
  unfold MemS3.in_bucket. rewrite Hbk.
  assert (Hfound : JS.truthy (find (fun n => String.eqb n c)
             (matchFolders None (CommonPrefixes (MemS3.list_objects bk "" "/")))) = true).
  { apply find_name_truthy. split; [|assumption].
    apply (folder_listed bk None c "" o); assumption. }
  cbn [default]. rewrite Hfound. reflexivity.
Qed.

(** X9. Initialising twice. On the reference store the initialisation for a
    listable collection name always resolves, and a second initialisation
    of the resulting store finds everything in place: it issues the two
    listings and leaves the store as it is. *)
Theorem initialize_twice cfg b c w :
  b <> "" -> c <> "" -> JS.contains "/" c = false ->
  exists w1 t,
    run MemS3.serve (initialize cfg b c) w = (Fulfilled (handle_of b c), w1, t)
    /\ run MemS3.serve (initialize cfg b c) w1
       = (Fulfilled (handle_of b c), w1, [ListBuckets; ListObjectsV2 b None "/"]).
Proof.
  intros Hb Hc Hclean.
  assert (Hput : forall w2 bk,
             MemS3.buckets w2 !! b = Some bk ->
             let w3 := MemS3.put w2 b (c +:+ "/") None None bk in
             run MemS3.serve (initialize cfg b c) w3
             = (Fulfilled (handle_of b c), w3, [ListBuckets; ListObjectsV2 b None "/"])).
  { intros w2 bk Hbk w3.
    eapply (initialize_settled cfg b c w3); try eassumption.
    - apply put_buckets.
    - apply lookup_insert_eq. }
  rewrite (run_initialize MemS3.serve cfg b c w Hb). cbv zeta.
  cbn [MemS3.serve Buckets default id]. rewrite bucket_listed.
  destruct (MemS3.buckets w !! b) as [bk|] eqn:Hbk.
  - rewrite (bool_decide_eq_true_2 _ (mk_is_Some _ _ eq_refl)).
    unfold MemS3.in_bucket. rewrite Hbk. cbn [default].
    destruct (JS.truthy _) eqn:Hfound.
    + eexists _, _. split; [reflexivity|].
      rewrite (run_initialize MemS3.serve cfg b c w Hb). cbv zeta.
      cbn [MemS3.serve Buckets default id]. rewrite bucket_listed, Hbk.
      rewrite (bool_decide_eq_true_2 _ (mk_is_Some _ _ eq_refl)).
      unfold MemS3.in_bucket. rewrite Hbk. cbn [default]. rewrite Hfound. reflexivity.
    + rewrite Hbk. eexists _, _. split; [reflexivity|]. apply (Hput w bk Hbk).
  - rewrite bool_decide_eq_false_2 by (intros [x Hx]; discriminate).
    unfold MemS3.in_bucket.
    assert (Hnew : MemS3.buckets (MemS3.with_buckets w (<[b := ∅]> (MemS3.buckets w))) !! b
                   = Some ∅) by apply lookup_insert_eq.
    rewrite Hnew. cbn [default].
    destruct (JS.truthy _) eqn:Hfound.
    + apply find_name_truthy in Hfound as [Hin _].
      apply (folder_listed_inv ∅ None c) in Hin as (_ & rest & o & Hk).
      rewrite lookup_empty in Hk. discriminate.
    + rewrite Hnew. eexists _, _. split; [reflexivity|]. apply (Hput _ ∅ Hnew).
Qed.

(** The listing that [getDBDocumentIds] gets from the reference store. *)
Lemma run_getDBDocumentIds_store this b c w bk :
  binds this b c ->
  MemS3.buckets w !! b = Some bk ->
  run MemS3.serve (getDBDocumentIds this) w
    = (Fulfilled (matchFolders (Some (c +:+ "/"))
                    (CommonPrefixes (MemS3.list_objects bk (c +:+ "/") "/"))),
       w, [ListObjectsV2 b (Some (c +:+ "/")) "/"]).
Proof.
  intros (Hb & Hc & Hbne & Hcne) Hbk.
  unfold getDBDocumentIds. to_then. rewrite Hc, (invariant_string_some c) by assumption.
  cbn [Promise_then]. rewrite run_then, (run_getDBEntries MemS3.serve this b) by assumption.
  cbn [MemS3.serve]. unfold MemS3.in_bucket. rewrite Hbk. reflexivity.
Qed.

(** A document folder shows among the identifiers, and only such. *)
Lemma document_listed bk c id :
  id ∈ matchFolders (Some (c +:+ "/"))
         (CommonPrefixes (MemS3.list_objects bk (c +:+ "/") "/"))
  <-> JS.contains "/" id = false
      /\ exists rest o, bk !! (c +:+ "/" +:+ id +:+ "/" +:+ rest) = Some o.
Proof.
  split.
  - intros Hin. apply (folder_listed_inv bk (Some (c +:+ "/")) id) in Hin
      as (Hclean & rest & o & Hk).
    split; [exact Hclean|]. exists rest, o. cbn [default Datatypes.id] in Hk.
    rewrite append_assoc in Hk. exact Hk.
  - intros (Hclean & rest & o & Hk).
    apply (folder_listed bk (Some (c +:+ "/")) id rest o); [|exact Hclean].
    cbn [default Datatypes.id]. rewrite append_assoc. exact Hk.
Qed.

(** X10. The identifiers of a collection on the reference store: each once,
    none with a slash, and exactly the first segments of the keys that go
    on past a slash under the prefix of the collection. *)
Theorem getDBDocumentIds_on_store this b c w bk :
  binds this b c ->
  MemS3.buckets w !! b = Some bk ->
  exists ids,
    run MemS3.serve (getDBDocumentIds this) w
      = (Fulfilled ids, w, [ListObjectsV2 b (Some (c +:+ "/")) "/"])
    /\ NoDup ids
    /\ forall id, id ∈ ids <->
         JS.contains "/" id = false
         /\ exists rest o, bk !! (c +:+ "/" +:+ id +:+ "/" +:+ rest) = Some o.
Proof.
  intros Hbinds Hbk. eexists. split; [|split].
  - apply (run_getDBDocumentIds_store this b c w bk Hbinds Hbk).
  - apply matchFolders_spec.
  - apply document_listed.
Qed.

(* ===================================================================== *)
(** ** What a run leaves in the reference store                           *)
(* ===================================================================== *)

Lemma object_at_buckets w w' :
  MemS3.buckets w' = MemS3.buckets w ->
  forall b k, MemS3.object_at w' b k = MemS3.object_at w b k.
Proof. intros H b k. unfold MemS3.object_at. rewrite H. reflexivity. Qed.

Lemma object_at_insert w b bk' b' k :
  MemS3.object_at (MemS3.with_buckets w (<[b := bk']> (MemS3.buckets w))) b' k
  = if bool_decide (b' = b) then bk' !! k else MemS3.object_at w b' k.
Proof.
  unfold MemS3.object_at. cbn [MemS3.with_buckets MemS3.buckets].
  destruct (bool_decide_reflect (b' = b)) as [->|Hne].
  - rewrite lookup_insert_eq. reflexivity.
  - rewrite lookup_insert_ne by congruence. reflexivity.
Qed.

Lemma object_at_put w b key body ctype bk b' k :
  MemS3.buckets w !! b = Some bk ->
  MemS3.object_at (MemS3.put w b key body ctype bk) b' k
  = if bool_decide (b' = b /\ k = key)
    then Some {| MemS3.content := default "" body; MemS3.contentType := ctype;
                 MemS3.modified := MemS3.clock w |}
    else MemS3.object_at w b' k.
Proof.
  intros Hbk. unfold MemS3.put, MemS3.tick, MemS3.object_at.
  cbn [MemS3.buckets MemS3.with_buckets].
  destruct (decide (b' = b)) as [->|Hne].
  - rewrite lookup_insert_eq. cbn [mbind option_bind]. destruct (decide (k = key)) as [->|Hk].
    + rewrite bool_decide_eq_true_2 by auto. apply lookup_insert_eq.
    + rewrite bool_decide_eq_false_2 by (intros [_ ?]; congruence).
      rewrite lookup_insert_ne by congruence. rewrite Hbk. reflexivity.
  - rewrite lookup_insert_ne by congruence.
    rewrite bool_decide_eq_false_2 by (intros [? _]; congruence). reflexivity.
Qed.

(** One request changes the store only where it [touches] it. *)
Lemma serve_frame r w b k :
  ~ touches r b k ->
  MemS3.object_at (MemS3.serve r w).2 b k = MemS3.object_at w b k.
Proof.
  intros Hno. destruct r as [|b'|b' p d|b' p|b' k'|b' k' body ctype|b' ks|b' k'|];
    cbn [MemS3.serve]; unfold MemS3.in_bucket; try reflexivity.
  - destruct (MemS3.buckets w !! b') as [bk|] eqn:Hbk; [reflexivity|]. cbn [snd].
    rewrite object_at_insert. destruct (bool_decide_reflect (b = b')) as [->|]; [|reflexivity].
    unfold MemS3.object_at. rewrite Hbk. apply lookup_empty.
  - destruct (MemS3.buckets w !! b'); reflexivity.
  - destruct (MemS3.buckets w !! b'); reflexivity.
  - destruct (MemS3.buckets w !! b') as [bk|]; [|reflexivity]. destruct (bk !! k'); reflexivity.
  - destruct (MemS3.buckets w !! b') as [bk|] eqn:Hbk; [|reflexivity]. cbn [snd].
    rewrite (object_at_put w b' k' body ctype bk b k Hbk).
    rewrite bool_decide_eq_false_2; [reflexivity|]. intros [-> ->]. apply Hno. split; reflexivity.
  - destruct ks as [|k0 ks]; [reflexivity|].
    destruct (MemS3.buckets w !! b') as [bk|] eqn:Hbk; [|reflexivity]. cbn [snd].
    rewrite object_at_insert. destruct (bool_decide_reflect (b = b')) as [->|]; [|reflexivity].
    rewrite lookup_delete_keys. rewrite bool_decide_eq_false_2.
    + unfold MemS3.object_at. rewrite Hbk. reflexivity.
    + intros Hin. apply Hno. split; [reflexivity|exact Hin].
Qed.

(** A run changes the store only where one of its requests touches it. *)
Lemma run_frame {A : Type} (p : Promise A) w b k :
  Forall (fun r => ~ touches r b k) (run MemS3.serve p w).2 ->
  MemS3.object_at (run MemS3.serve p w).1.2 b k = MemS3.object_at w b k.
Proof.
  revert w. induction p as [a|e|r f IH]; intros w; cbn [run]; try reflexivity.
  destruct (MemS3.serve r w) as [x w1] eqn:Hserve.
  specialize (IH x w1). destruct (run MemS3.serve (f x) w1) as [[res w2] t].
  cbn [fst snd] in *. intros Hall. apply Forall_cons in Hall as [Hr Ht].
  rewrite (IH Ht). pose proof (serve_frame r w b k Hr) as H. rewrite Hserve in H. exact H.
Qed.

(** No request takes a bucket away. *)
Lemma serve_keeps_bucket r w b :
  is_Some (MemS3.buckets w !! b) -> is_Some (MemS3.buckets (MemS3.serve r w).2 !! b).
Proof.
  intros Hb. destruct r as [|b'|b' p d|b' p|b' k'|b' k' body ctype|b' ks|b' k'|];
    cbn [MemS3.serve]; unfold MemS3.in_bucket; try exact Hb.
  - destruct (MemS3.buckets w !! b') as [bk|] eqn:Hbk; [exact Hb|]. cbn.
    destruct (decide (b = b')) as [->|Hne]; [rewrite lookup_insert_eq; eauto|].
    rewrite lookup_insert_ne by congruence. exact Hb.
  - destruct (MemS3.buckets w !! b'); exact Hb.
  - destruct (MemS3.buckets w !! b'); exact Hb.
  - destruct (MemS3.buckets w !! b') as [bk|]; [|exact Hb]. destruct (bk !! k'); exact Hb.
  - destruct (MemS3.buckets w !! b') as [bk|] eqn:Hbk; [|exact Hb]. cbn.
    destruct (decide (b = b')) as [->|Hne]; [rewrite lookup_insert_eq; eauto|].
    rewrite lookup_insert_ne by congruence. exact Hb.
  - destruct ks as [|k0 ks]; [exact Hb|].
    destruct (MemS3.buckets w !! b') as [bk|] eqn:Hbk; [|exact Hb]. cbn.
    destruct (decide (b = b')) as [->|Hne]; [rewrite lookup_insert_eq; eauto|].
    rewrite lookup_insert_ne by congruence. exact Hb.
Qed.

Lemma run_keeps_bucket {A : Type} (p : Promise A) w b :
  is_Some (MemS3.buckets w !! b) ->
  is_Some (MemS3.buckets (run MemS3.serve p w).1.2 !! b).
Proof.
  revert w. induction p as [a|e|r f IH]; intros w Hb; cbn [run]; try exact Hb.
  pose proof (serve_keeps_bucket r w b Hb) as H1.
  destruct (MemS3.serve r w) as [x w1]. specialize (IH x w1 H1).
  destruct (run MemS3.serve (f x) w1) as [[res w2] t]. exact IH.
Qed.

Lemma object_at_Some w b k o :
  MemS3.object_at w b k = Some o <->
  exists bk, MemS3.buckets w !! b = Some bk /\ bk !! k = Some o.
Proof.
  unfold MemS3.object_at. destruct (MemS3.buckets w !! b) as [bk|]; cbn.
  - split; [eauto|]. intros (bk' & [= <-] & H). exact H.
  - split; [discriminate|]. intros (bk' & H & _). discriminate.
Qed.

(** X11. The frame of [uploadDBDocument]. On the reference store an upload
    changes the object at [{collection}/{id}/data.json] and, for a generated
    identifier, the placeholder of its folder; every other object of every
    bucket, the media of the same document among them, stays as it was. *)
Theorem uploadDBDocument_frame
    (this : S3db) (b c : string) (document : JSON.object) (w : MemS3.world)
    (bk : gmap string MemS3.stored) (b' k' : string) :
  binds this b c ->
  MemS3.buckets w !! b = Some bk ->
  id_typed document = true ->
  let fresh := MemS3.uuids w (MemS3.issued w) in
  let id := resolve_id document fresh in
  (b', k') <> (b, data_key c id) ->
  (b', k') <> (b, folder_key c fresh) ->
  MemS3.object_at (run MemS3.serve (uploadDBDocument this document) w).1.2 b' k'
  = MemS3.object_at w b' k'.
Proof.
  intros Hbinds Hbk Htyped fresh id Hdata Hfolder.
  apply run_frame.
  destruct (run_uploadDBDocument this b c document w bk Hbinds Hbk Htyped)
    as (w' & Hrun & _).
  rewrite Hrun. cbn [snd]. apply Forall_cons. split; [exact (fun H => H)|].
  apply Forall_app. split.
  - destruct (supplies_id document); constructor; [|constructor].
    intros [<- <-]. apply Hfolder. reflexivity.
  - constructor; [|constructor]. intros [<- <-]. apply Hdata. reflexivity.
Qed.

Lemma contains_decompose sep s :
  JS.contains sep s = true ->
  exists x rest, s = x +:+ String sep rest /\ JS.contains sep x = false.
Proof.
  induction s as [|d s IH]; cbn [JS.contains]; [discriminate|].
  destruct (Ascii.eqb d sep) eqn:Hd; cbn [orb].
  - intros _. apply Ascii.eqb_eq in Hd as ->. exists "", s. auto.
  - intros Hs. destruct (IH Hs) as (x & rest & -> & Hx). exists (String d x), rest.
    split; [reflexivity|]. cbn [JS.contains]. rewrite Hd, Hx. reflexivity.
Qed.

(** A key under the folder of [id] lies under the folder of the first
    segment of [id]. *)
Lemma first_segment_key c id suffix :
  exists rest,
    c +:+ "/" +:+ id +:+ String "/" suffix
    = c +:+ "/" +:+ first_segment id +:+ String "/" rest.
Proof.
  destruct (JS.contains "/" id) eqn:Hc.
  - apply contains_decompose in Hc as (x & rest & -> & Hx).
    rewrite (first_segment_next x rest Hx). exists (rest +:+ String "/" suffix).
    rewrite append_assoc. reflexivity.
  - unfold first_segment. rewrite (split_clean "/" id Hc). eauto.
Qed.

(** X12. An uploaded document is listed. After an upload on the reference
    store the identifiers of the collection contain the identifier of the
    document exactly when it has no slash in it; with a slash in it the
    document is stored all the same, and the listing shows the first
    segment of its identifier. *)
Theorem upload_then_listed
    (this : S3db) (b c : string) (document : JSON.object) (w : MemS3.world)
    (bk : gmap string MemS3.stored) :
  binds this b c ->
  MemS3.buckets w !! b = Some bk ->
  id_typed document = true ->
  exists id w1 t1 ids t2,
    run MemS3.serve (uploadDBDocument this document) w = (Fulfilled id, w1, t1)
    /\ run MemS3.serve (getDBDocumentIds this) w1 = (Fulfilled ids, w1, t2)
    /\ (id ∈ ids <-> JS.contains "/" id = false)
    /\ first_segment id ∈ ids.
Proof.
  intros Hbinds Hbk Htyped.
  destruct (run_uploadDBDocument this b c document w bk Hbinds Hbk Htyped)
    as (w1 & Hrun & Hstored).
  cbv zeta in Hrun, Hstored.
  set (id := resolve_id document (MemS3.uuids w (MemS3.issued w))) in *.
  destruct (MemS3.object_at w1 b (c +:+ "/" +:+ id +:+ "/data.json")) as [o|] eqn:Ho;
    [|discriminate].
  apply object_at_Some in Ho as (bk1 & Hbk1 & Hkey).
  eexists id, w1, _, _, _. split; [exact Hrun|]. split.
  { apply (run_getDBDocumentIds_store this b c w1 bk1 Hbinds Hbk1). }
  split.
  - rewrite document_listed. split; [tauto|]. intros Hclean. split; [exact Hclean|].
    exists "data.json", o. exact Hkey.
  - apply document_listed. split; [apply first_segment_clean|].
    destruct (first_segment_key c id "data.json") as (rest & Hrest).
    exists rest, o.
    change (bk1 !! (c +:+ "/" +:+ first_segment id +:+ String "/" rest) = Some o).
    rewrite <- Hrest. exact Hkey.
Qed.

(* ===================================================================== *)
(** ** Deleting                                                           *)
(* ===================================================================== *)

Lemma data_key_folder c id : data_key c id = folder_key c id +:+ "data.json".
Proof. unfold data_key, folder_key. rewrite !append_assoc. reflexivity. Qed.

Lemma media_key_folder c id name : media_key c id name = folder_key c id +:+ name.
Proof. unfold media_key, folder_key. rewrite !append_assoc. reflexivity. Qed.

(** The keys that [deleteDBDocumentById] hands to the batch are the keys
    under the folder of the document. *)
Lemma under_folder_keys (bk : gmap string MemS3.stored) folder k :
  Some k ∈ map (fun kv : string * MemS3.stored => Some kv.1)
             (filter (fun kv => String.prefix folder kv.1 = true) (map_to_list bk))
  <-> String.prefix folder k = true /\ is_Some (bk !! k).
Proof.
  rewrite list_elem_of_fmap. split.
  - intros ([k' o] & [= ->] & Hin). apply list_elem_of_filter in Hin as [Hp Hin].
    apply elem_of_map_to_list in Hin. eauto.
  - intros [Hp [o Ho]]. exists (k, o). split; [reflexivity|].
    apply list_elem_of_filter. split; [exact Hp|]. apply elem_of_map_to_list, Ho.
Qed.

(** X13. What [deleteDBDocumentById] leaves behind. When the reference store
    holds an object under the folder of the document, the deletion
    resolves; afterwards no key under [{collection}/{id}/] holds an object
    and every other object of every bucket is as before; reading the
    document is refused with NoSuchKey, the identifier is not listed any
    more, and a second deletion fails with the message of the invariant. *)
Theorem deleteDBDocumentById_removes_document
    (this : S3db) (b c id : string) (w : MemS3.world) (bk : gmap string MemS3.stored)
    (k0 : string) :
  binds this b c ->
  MemS3.buckets w !! b = Some bk ->
  String.prefix (folder_key c id) k0 = true -> is_Some (bk !! k0) ->
  exists w1 t,
    run MemS3.serve (deleteDBDocumentById this id) w = (Fulfilled (), w1, t)
    /\ (forall b' k,
          MemS3.object_at w1 b' k
          = if bool_decide (b' = b) && String.prefix (folder_key c id) k
            then None else MemS3.object_at w b' k)
    /\ run MemS3.serve (getDBDocumentData this id) w1
       = (Rejected (ServiceException "NoSuchKey"), w1, [GetObject b (data_key c id)])
    /\ (exists ids t2,
          run MemS3.serve (getDBDocumentIds this) w1 = (Fulfilled ids, w1, t2)
          /\ id ∉ ids)
    /\ run MemS3.serve (deleteDBDocumentById this id) w1
       = (Rejected (InvariantFailed (nothing_to_delete id)), w1,
          [ListObjects b (folder_key c id)]).
Proof.
  intros Hbinds Hbk Hp0 Hk0.
  destruct (deleteDBDocumentById_on_store this b c id w bk Hbinds Hbk) as [Hrun Hgone].
  cbv zeta in Hrun, Hgone. fold (folder_key c id) in Hrun, Hgone.
  set (under := filter (fun kv : string * MemS3.stored =>
                          String.prefix (folder_key c id) kv.1 = true) (map_to_list bk)) in *.
  set (keys := map (fun kv : string * MemS3.stored => Some kv.1) under) in *.
  set (bk1 := MemS3.delete_keys keys bk) in *.
  set (w1 := MemS3.with_buckets w (<[b := bk1]> (MemS3.buckets w))).
  assert (Hne : under <> []).
  { intros Hnil. destruct Hk0 as [o0 Ho0].
    assert (Hin : (k0, o0) ∈ under).
    { apply list_elem_of_filter. split; [exact Hp0|]. apply elem_of_map_to_list, Ho0. }
    rewrite Hnil in Hin. inversion Hin. }
  assert (Hbk1 : MemS3.buckets w1 !! b = Some bk1) by apply lookup_insert_eq.
  assert (Hlookup : forall k, bk1 !! k
                    = if String.prefix (folder_key c id) k then None else bk !! k).
  { intros k. destruct (String.prefix (folder_key c id) k) eqn:Hp; [apply Hgone, Hp|].
    unfold bk1. rewrite lookup_delete_keys, bool_decide_eq_false_2; [reflexivity|].
    intros Hin. apply under_folder_keys in Hin as [Hp' _]. congruence. }
  exists w1, [ListObjects b (folder_key c id); DeleteObjects b keys].
  split; [|split; [|split; [|split]]].
  - rewrite Hrun. destruct under; [congruence|reflexivity].
  - intros b' k. unfold w1. rewrite object_at_insert.
    destruct (bool_decide_reflect (b' = b)) as [->|Hb']; cbn [andb]; [|reflexivity].
    rewrite Hlookup. destruct (String.prefix _ k); [reflexivity|].
    unfold MemS3.object_at. rewrite Hbk. reflexivity.
  - rewrite (run_getDBDocumentData MemS3.serve this b c id w1 Hbinds). cbv zeta.
    cbn [MemS3.serve]. unfold MemS3.in_bucket. rewrite Hbk1.
    change (c +:+ "/" +:+ id +:+ "/data.json") with (data_key c id).
    rewrite Hlookup, data_key_folder, prefix_app. reflexivity.
  - eexists _, _. split; [apply (run_getDBDocumentIds_store this b c w1 bk1 Hbinds Hbk1)|].
    rewrite document_listed. intros (_ & rest & o & Hk).
    change (c +:+ "/" +:+ id +:+ "/" +:+ rest) with (media_key c id rest) in Hk.
    rewrite Hlookup, media_key_folder, prefix_app in Hk. discriminate.
  - destruct (deleteDBDocumentById_on_store this b c id w1 bk1 Hbinds Hbk1) as [Hrun1 _].
    cbv zeta in Hrun1. fold (folder_key c id) in Hrun1. rewrite Hrun1.
    destruct (filter _ (map_to_list bk1)) as [|[k o] rest] eqn:Hf; [reflexivity|].
    assert (Hin : (k, o) ∈ filter (fun kv : string * MemS3.stored =>
                     String.prefix (folder_key c id) kv.1 = true) (map_to_list bk1)).
    { rewrite Hf. left. }
    apply list_elem_of_filter in Hin as [Hp Hin]. apply elem_of_map_to_list in Hin.
    cbn [fst] in Hp. rewrite Hlookup, Hp in Hin. discriminate.
Qed.

(** X14. What [deleteDBDocumentMedia] leaves behind. The batch is sent
    without a look at the store. With at least one name it resolves whether
    or not the names exist, takes away the objects at
    [{collection}/{id}/{name}] for the names given and nothing else, and
    takes the body of the document when [data.json] is among the names.
    Without a name the empty batch is sent all the same, and the refusal of
    the store is passed on. *)
Theorem deleteDBDocumentMedia_on_store
    (this : S3db) (b c id : string) (mediaNames : list string) (w : MemS3.world)
    (bk : gmap string MemS3.stored) :
  binds this b c ->
  MemS3.buckets w !! b = Some bk ->
  (mediaNames = [] ->
   run MemS3.serve (deleteDBDocumentMedia this id mediaNames) w
   = (Rejected (ServiceException "MalformedXML"), w, [DeleteObjects b []]))
  /\ (mediaNames <> [] ->
      exists w1 t,
        run MemS3.serve (deleteDBDocumentMedia this id mediaNames) w = (Fulfilled (), w1, t)
        /\ (forall name, name ∈ mediaNames ->
              MemS3.object_at w1 b (media_key c id name) = None)
        /\ (forall b' k,
              (forall name, name ∈ mediaNames -> (b', k) <> (b, media_key c id name)) ->
              MemS3.object_at w1 b' k = MemS3.object_at w b' k)
        /\ ("data.json" ∈ mediaNames ->
            run MemS3.serve (getDBDocumentData this id) w1
            = (Rejected (ServiceException "NoSuchKey"), w1,
               [GetObject b (data_key c id)]))).
Proof.
  intros Hbinds Hbk. pose proof Hbinds as (Hb & Hc & Hbne & Hcne).
  set (keys := map (fun mediaName => Some (media_key c id mediaName)) mediaNames).
  assert (Hrun : run MemS3.serve (deleteDBDocumentMedia this id mediaNames) w
                 = let '(x, w1) := MemS3.serve (DeleteObjects b keys) w in
                   (x, w1, [DeleteObjects b keys])).
  { unfold deleteDBDocumentMedia. to_then.
    rewrite Hb, Hc, !invariant_string_some by assumption. cbn [Promise_then].
    fold keys. apply (run_await MemS3.serve (DeleteObjects b keys)). }
  split.
  { intros Hnil. rewrite Hrun. unfold keys. rewrite Hnil. reflexivity. }
  intros Hnames.
  set (w1 := MemS3.with_buckets w (<[b := MemS3.delete_keys keys bk]> (MemS3.buckets w))).
  assert (Hbk1 : MemS3.buckets w1 !! b = Some (MemS3.delete_keys keys bk))
    by apply lookup_insert_eq.
  assert (Hin : forall k, Some k ∈ keys <-> exists name, name ∈ mediaNames
                                                         /\ k = media_key c id name).
  { intros k. unfold keys. rewrite list_elem_of_fmap. split.
    - intros (name & [= ->] & Hname). eauto.
    - intros (name & Hname & ->). eauto. }
  assert (Hgone : forall name, name ∈ mediaNames ->
                    MemS3.object_at w1 b (media_key c id name) = None).
  { intros name Hname. unfold w1. rewrite object_at_insert, bool_decide_eq_true_2 by reflexivity.
    rewrite lookup_delete_keys, bool_decide_eq_true_2; [reflexivity|]. apply Hin. eauto. }
  exists w1, [DeleteObjects b keys]. split; [|split; [|split]].
  - rewrite Hrun. unfold keys at 1. destruct mediaNames as [|name names]; [congruence|].
    cbn [map MemS3.serve]. unfold MemS3.in_bucket. rewrite Hbk. reflexivity.
  - exact Hgone.
  - intros b' k Hother. unfold w1. rewrite object_at_insert.
    destruct (bool_decide_reflect (b' = b)) as [->|Hb']; [|reflexivity].
    rewrite lookup_delete_keys, bool_decide_eq_false_2.
    + unfold MemS3.object_at. rewrite Hbk. reflexivity.
    + intros Hk. apply Hin in Hk as (name & Hname & ->). apply (Hother name Hname). reflexivity.
  - intros Hdata. rewrite (run_getDBDocumentData MemS3.serve this b c id w1 Hbinds). cbv zeta.
    cbn [MemS3.serve]. unfold MemS3.in_bucket. rewrite Hbk1.
    specialize (Hgone "data.json" Hdata). unfold MemS3.object_at in Hgone.
    rewrite Hbk1 in Hgone. cbn [mbind option_bind] in Hgone.
    change (media_key c id "data.json") with (c +:+ "/" +:+ id +:+ "/data.json") in Hgone.
    rewrite Hgone. reflexivity.
Qed.

(* ===================================================================== *)
(** ** Uploading media                                                    *)
(* ===================================================================== *)

Section MediaRun.
Context {World : Type}.
Variable serve : forall r : request, World -> settled (response r) * World.

Lemma put_media_length b c id media w :
  length (put_media serve b c id media w).1 = length media.
Proof.
  revert w. induction media as [|file media IH]; intros w; cbn [put_media]; [reflexivity|].
  destruct (serve (media_put b c id file) w) as [x w1]. specialize (IH w1).
  destruct (put_media serve b c id media w1) as [xs w2]. cbn in *. congruence.
Qed.

(** The promises of the files, each settled in its turn. *)
Lemma run_settle_each_put_media this b c id media w :
  binds this b c ->
  run serve
    (settle_each
       (map (fun file => uploadDBCollectionMedia this (id +:+ "/" +:+ File.name file) file)
          media)) w
  = let '(xs, w1) := put_media serve b c id media w in
    (Fulfilled xs, w1, map (media_put b c id) media).
Proof.
  intros Hbinds. revert w. induction media as [|file media IH]; intros w.
  - reflexivity.
  - cbn [map settle_each put_media]. to_then. rewrite run_then, run_settle.
    rewrite (run_uploadDBCollectionMedia serve this b c) by assumption.
    cbv zeta. fold (media_put b c id file).
    destruct (serve (media_put b c id file) w) as [x w1].
    rewrite run_then, IH. destruct (put_media serve b c id media w1) as [xs w2].
    cbn [run app]. rewrite app_nil_r. reflexivity.
Qed.

Lemma run_uploadDBDocumentMedia this b c id media w :
  binds this b c ->
  run serve (uploadDBDocumentMedia this id media) w
  = let '(xs, w1) := put_media serve b c id media w in
    (match collect xs with
     | Fulfilled _ => Fulfilled ()
     | Rejected e => Rejected e
     end, w1, map (media_put b c id) media).
Proof.
  intros Hbinds. unfold uploadDBDocumentMedia, Promise_all. to_then.
  rewrite !run_then, (run_settle_each_put_media this b c id media w Hbinds).
  destruct (put_media serve b c id media w) as [xs w1].
  destruct (collect xs); cbn [run]; rewrite ?app_nil_r; reflexivity.
Qed.

End MediaRun.

Lemma collect_fulfilled {A : Type} (xs : list (settled A)) :
  (exists l, collect xs = Fulfilled l) <-> Forall (fun x => exists a, x = Fulfilled a) xs.
Proof.
  induction xs as [|[a|e] xs IH]; cbn [collect].
  - split; [constructor|eauto].
  - split.
    + intros [l Hl]. constructor; [eauto|]. apply IH.
      destruct (collect xs); [eauto|discriminate].
    + intros H. apply Forall_cons in H as [_ H]. apply IH in H as [l ->]. eauto.
  - split; [intros [l Hl]; discriminate|].
    intros H. apply Forall_cons in H as [[a Ha] _]. discriminate.
Qed.

Lemma collect_rejected {A : Type} (xs : list (settled A)) e :
  collect xs = Rejected e ->
  exists l1 l2, xs = l1 ++ Rejected e :: l2
                /\ Forall (fun x => exists a, x = Fulfilled a) l1.
Proof.
  induction xs as [|[a|e'] xs IH]; cbn [collect].
  - discriminate.
  - destruct (collect xs) as [l|e'']; [discriminate|]. intros [= ->].
    destruct (IH eq_refl) as (l1 & l2 & -> & Hl1). exists (Fulfilled a :: l1), l2.
    split; [reflexivity|]. constructor; eauto.
  - intros [= ->]. exists [], xs. split; [reflexivity|constructor].
Qed.

(** X15. [uploadDBDocumentMedia] with a put that is refused, on a server
    that answers each request when it is issued. Each file is put, in the
    order of the list, also after a refusal; the state at the end is the
    state after the last put (what was stored before and after the refusal
    stays stored). The call resolves exactly when every put was accepted,
    and otherwise rejects with the refusal of the first refused file of the
    list. *)
Theorem uploadDBDocumentMedia_settles_all
    {World : Type} (serve : forall r : request, World -> settled (response r) * World)
    (this : S3db) (b c id : string) (media : list File.t) (w : World) :
  binds this b c ->
  let answers := (put_media serve b c id media w).1 in
  let result := (run serve (uploadDBDocumentMedia this id media) w).1.1 in
  (run serve (uploadDBDocumentMedia this id media) w).2 = map (media_put b c id) media
  /\ (run serve (uploadDBDocumentMedia this id media) w).1.2
     = (put_media serve b c id media w).2
  /\ length answers = length media
  /\ (result = Fulfilled () <-> Forall (fun x => x = Fulfilled ()) answers)
  /\ (forall e, result = Rejected e ->
        exists accepted later,
          answers = accepted ++ Rejected e :: later
          /\ Forall (fun x => x = Fulfilled ()) accepted).
Proof.
  intros Hbinds answers result. subst answers result.
  rewrite (run_uploadDBDocumentMedia serve this b c id media w Hbinds).
  pose proof (put_media_length serve b c id media w) as Hlen.
  destruct (put_media serve b c id media w) as [xs w1]. cbn [fst snd] in *.
  assert (Hunit : forall l : list (settled unit),
             Forall (fun x => exists a, x = Fulfilled a) l
             <-> Forall (fun x => x = Fulfilled ()) l).
  { intros l. apply Forall_iff. intros x. split; [intros [[] ->]; reflexivity|eauto]. }
  repeat split; try assumption.
  - intros H. apply Hunit, collect_fulfilled.
    destruct (collect xs); [eauto|discriminate].
  - intros H. apply Hunit, collect_fulfilled in H as [l ->]. reflexivity.
  - intros e He. destruct (collect xs) as [l|e'] eqn:Hcollect; [discriminate|].
    injection He as ->. apply collect_rejected in Hcollect as (l1 & l2 & -> & Hl1).
    exists l1, l2. split; [reflexivity|]. apply Hunit, Hl1.
Qed.

(** The puts of the media on the reference store: all accepted when the
    bucket exists. *)
Lemma put_media_store b c id media w :
  is_Some (MemS3.buckets w !! b) ->
  (put_media MemS3.serve b c id media w).1 = map (fun _ => Fulfilled ()) media
  /\ is_Some (MemS3.buckets (put_media MemS3.serve b c id media w).2 !! b).
Proof.
  revert w. induction media as [|file media IH]; intros w Hb; [split; [reflexivity|exact Hb]|].
  cbn [put_media map].
  pose proof (serve_keeps_bucket (media_put b c id file) w b Hb) as Hb1.
  destruct Hb as [bk Hbk].
  assert (Hserve : MemS3.serve (media_put b c id file) w
                   = (Fulfilled (), MemS3.put w b (media_key c id (File.name file))
                                      (Some (File.bytes file))
                                      (Some (media_content_type file)) bk)).
  { apply (serve_put w b _ _ _ bk Hbk). }
  rewrite Hserve in *. cbn [snd] in Hb1. destruct (IH _ Hb1) as [IH1 IH2].
  destruct (put_media MemS3.serve b c id media _) as [xs w2]. cbn [fst snd] in *.
  split; [rewrite IH1; reflexivity|exact IH2].
Qed.

Lemma put_media_frame b c id media w b' k :
  (forall file, file ∈ media -> (b', k) <> (b, media_key c id (File.name file))) ->
  MemS3.object_at (put_media MemS3.serve b c id media w).2 b' k = MemS3.object_at w b' k.
Proof.
  revert w. induction media as [|file media IH]; intros w Hother; [reflexivity|].
  cbn [put_media].
  assert (Hfile : ~ touches (media_put b c id file) b' k).
  { intros [<- <-]. apply (Hother file); [left|reflexivity]. }
  pose proof (serve_frame _ w b' k Hfile) as H1.
  destruct (MemS3.serve (media_put b c id file) w) as [x w1].
  assert (IH1 := IH w1 (fun f Hf => Hother f (list_elem_of_further _ _ _ Hf))).
  destruct (put_media MemS3.serve b c id media w1) as [xs w2]. cbn [snd] in *. congruence.
Qed.

Lemma media_key_inj c id n1 n2 : media_key c id n1 = media_key c id n2 -> n1 = n2.
Proof.
  unfold media_key. intros H.
  repeat (apply (inj (String.app _)) in H). exact H.
Qed.

Lemma put_media_stored b c id media w file :
  is_Some (MemS3.buckets w !! b) ->
  NoDup (map File.name media) -> file ∈ media ->
  exists o,
    MemS3.object_at (put_media MemS3.serve b c id media w).2 b
      (media_key c id (File.name file)) = Some o
    /\ MemS3.content o = File.bytes file
    /\ MemS3.contentType o = Some (media_content_type file).
Proof.
  revert w. induction media as [|f media IH]; intros w Hb Hnodup Hin; [inversion Hin|].
  cbn [map] in Hnodup. apply NoDup_cons in Hnodup as [Hfresh Hnodup].
  cbn [put_media].
  pose proof (serve_keeps_bucket (media_put b c id f) w b Hb) as Hb1.
  destruct Hb as [bk Hbk].
  pose proof (serve_put w b (media_key c id (File.name f)) (Some (File.bytes f))
                (Some (media_content_type f)) bk Hbk) as Hserve.
  change (PutObject b (media_key c id (File.name f)) (Some (File.bytes f))
            (Some (media_content_type f))) with (media_put b c id f) in Hserve.
  rewrite Hserve in *. cbn [snd] in Hb1.
  apply elem_of_cons in Hin as [->|Hin].
  - pose proof (put_media_frame b c id media
                  (MemS3.put w b (media_key c id (File.name f)) (Some (File.bytes f))
                     (Some (media_content_type f)) bk)
                  b (media_key c id (File.name f))) as Hframe.
    destruct (put_media MemS3.serve b c id media _) as [xs w2]. cbn [snd] in *.
    rewrite Hframe.
    + rewrite (object_at_put w b _ _ _ bk b _ Hbk), bool_decide_eq_true_2 by auto.
      eexists. split; [reflexivity|]. split; reflexivity.
    + intros g Hg [= Hkey]. apply media_key_inj in Hkey. apply Hfresh.
      rewrite Hkey. apply list_elem_of_fmap. eauto.
  - specialize (IH _ Hb1 Hnodup Hin).
    destruct (put_media MemS3.serve b c id media _) as [xs w2]. exact IH.
Qed.

Lemma collect_all_fulfilled {A : Type} (l : list A) :
  collect (map (fun _ => Fulfilled ()) l) = Fulfilled (map (fun _ => ()) l).
Proof. induction l as [|a l IH]; cbn [map collect]; [reflexivity|]. rewrite IH. reflexivity. Qed.

(** X16. [uploadDBDocumentMedia] on the reference store. With the bucket in
    place the call resolves; each file, the names being distinct, is then
    stored at [{collection}/{id}/{name}] with its bytes and the content
    type computed from its name; every other object is as before, so that
    the body of the document is kept unless a file is named [data.json]. *)
Theorem uploadDBDocumentMedia_on_store
    (this : S3db) (b c id : string) (media : list File.t) (w : MemS3.world)
    (bk : gmap string MemS3.stored) :
  binds this b c ->
  MemS3.buckets w !! b = Some bk ->
  NoDup (map File.name media) ->
  exists w1,
    run MemS3.serve (uploadDBDocumentMedia this id media) w
      = (Fulfilled (), w1, map (media_put b c id) media)
    /\ (forall file, file ∈ media ->
          exists o,
            MemS3.object_at w1 b (media_key c id (File.name file)) = Some o
            /\ MemS3.content o = File.bytes file
            /\ MemS3.contentType o = Some (media_content_type file))
    /\ (forall b' k,
          (forall file, file ∈ media -> (b', k) <> (b, media_key c id (File.name file))) ->
          MemS3.object_at w1 b' k = MemS3.object_at w b' k)
    /\ ((forall file, file ∈ media -> File.name file <> "data.json") ->
        MemS3.object_at w1 b (data_key c id) = MemS3.object_at w b (data_key c id)).
Proof.
  intros Hbinds Hbk Hnodup.
  assert (Hb : is_Some (MemS3.buckets w !! b)) by eauto.
  exists (put_media MemS3.serve b c id media w).2.
  split; [|split; [|split]].
  - rewrite (run_uploadDBDocumentMedia MemS3.serve this b c id media w Hbinds).
    destruct (put_media_store b c id media w Hb) as [Hxs _].
    destruct (put_media MemS3.serve b c id media w) as [xs w1]. cbn [fst snd] in *.
    rewrite Hxs, collect_all_fulfilled. reflexivity.
  - intros file Hin. apply (put_media_stored b c id media w file Hb Hnodup Hin).
  - intros b' k. apply put_media_frame.
  - intros Hnames. apply put_media_frame. intros file Hin [= Hkey].
    change (data_key c id) with (media_key c id "data.json") in Hkey.
    apply media_key_inj in Hkey. apply (Hnames file Hin). congruence.
Qed.

(* ===================================================================== *)
(** ** A document with its media                                          *)
(* ===================================================================== *)

(** X17. A document with its media, end to end on the reference store. The
    document is any JSON-serializable object, its Numbers with fractions and
    exponents included. When the names of the files are distinct and none is
    [data.json], the call resolves with the identifier of the document; the
    document can be read back under it, and every file is stored in its
    folder. *)
Theorem uploadDBDocumentWithMedia_on_store
    (this : S3db) (b c : string) (document : JSON.object) (media : list File.t)
    (w : MemS3.world) (bk : gmap string MemS3.stored) :
  binds this b c ->
  MemS3.buckets w !! b = Some bk ->
  id_typed document = true ->
  JSON.wf_object document = true ->
  JSON.wf_string (MemS3.uuids w (MemS3.issued w)) = true ->
  NoDup (map File.name media) ->
  (forall file, file ∈ media -> File.name file <> "data.json") ->
  exists id w1 t t2,
    run MemS3.serve (uploadDBDocumentWithMedia this document media) w
      = (Fulfilled id, w1, t)
    /\ id = resolve_id document (MemS3.uuids w (MemS3.issued w))
    /\ run MemS3.serve (getDBDocumentData this id) w1
       = (Fulfilled (JSON.JObj (JSON.set "id" (JSON.JStr id) document)), w1, t2)
    /\ (forall file, file ∈ media ->
          exists o,
            MemS3.object_at w1 b (media_key c id (File.name file)) = Some o
            /\ MemS3.content o = File.bytes file).
Proof.
  intros Hbinds Hbk Htyped Hwf Hfresh Hnodup Hnames.
  pose proof Hbinds as (Hb & Hc & Hbne & Hcne).
  destruct (run_uploadDBDocument this b c document w bk Hbinds Hbk Htyped)
    as (w0 & Hrun & Hstored).
  cbv zeta in Hrun, Hstored.
  set (id := resolve_id document (MemS3.uuids w (MemS3.issued w))) in *.
  destruct (MemS3.object_at w0 b (c +:+ "/" +:+ id +:+ "/data.json")) as [o|] eqn:Ho;
    [|discriminate Hstored].
  injection Hstored as Hcontent.
  assert (Hb0 : is_Some (MemS3.buckets w0 !! b)).
  { apply object_at_Some in Ho as (bk0 & Hbk0 & _). eauto. }
  set (w1 := (put_media MemS3.serve b c id media w0).2).
  assert (Hmedia : run MemS3.serve (uploadDBDocumentMedia this id media) w0
                   = (Fulfilled (), w1, map (media_put b c id) media)).
  { rewrite (run_uploadDBDocumentMedia MemS3.serve this b c id media w0 Hbinds).
    destruct (put_media_store b c id media w0 Hb0) as [Hxs _]. unfold w1.
    destruct (put_media MemS3.serve b c id media w0) as [xs w2]. cbn [fst snd] in *.
    rewrite Hxs, collect_all_fulfilled. reflexivity. }
  assert (Hkept : MemS3.object_at w1 b (data_key c id) = Some o).
  { unfold w1. rewrite put_media_frame; [exact Ho|].
    intros file Hin [= Hkey]. change (data_key c id) with (media_key c id "data.json") in Hkey.
    apply media_key_inj in Hkey. apply (Hnames file Hin). congruence. }
  eexists id, w1, _, _. split; [|split; [reflexivity|split]].
  - unfold uploadDBDocumentWithMedia. to_then. rewrite Hc, (truthy_nonempty c Hcne).
    cbn [invariant Promise_then]. rewrite run_then, Hrun. rewrite run_then, Hmedia.
    cbn [run]. reflexivity.
  - rewrite (run_getDBDocumentData MemS3.serve this b c id w1 Hbinds). cbv zeta.
    unfold data_key in Hkept. rewrite (serve_get _ _ _ o Hkept). cbn [Body]. rewrite Hcontent.
    rewrite JSONFacts.parse_stringify; [reflexivity|].
    apply (wf_set "id" (JSON.JStr _) document); [reflexivity|reflexivity| |assumption].
    apply resolve_id_wf; assumption.
  - intros file Hin.
    destruct (put_media_stored b c id media w0 file Hb0 Hnodup Hin) as (o' & Ho' & Hbytes & _).
    eauto.
Qed.

(* ===================================================================== *)
(** ** The objects of a listing                                           *)
(* ===================================================================== *)

(** The entry that the loop over [Contents] keeps for an object. *)
Lemma matchObjects_step (acc : list DBObject) (contents : list _Object) :
  fold_left
    (fun acc o =>
       match Key o, LastModified o with
       | Some name, Some lastModified =>
           if JS.truthy (Some name)
           then acc ++ [{| name := name; lastModified := lastModified |}]
           else acc
       | _, _ => acc
       end) contents acc
  = acc ++ matchObjects (Some contents).
Proof.
  unfold matchObjects. revert acc. induction contents as [|o contents IH]; intros acc.
  - cbn [fold_left]. rewrite app_nil_r. reflexivity.
  - cbn [fold_left]. rewrite IH. rewrite (IH (match Key o, LastModified o with
                                                 | Some _, Some _ => _ | _, _ => _ end)).
    destruct (Key o) as [n|], (LastModified o) as [d|]; cbn [app];
      try reflexivity.
    destruct (JS.truthy (Some n)); [rewrite <- app_assoc|]; reflexivity.
Qed.

Lemma matchObjects_cons o contents :
  matchObjects (Some (o :: contents))
  = match Key o, LastModified o with
    | Some name, Some lastModified =>
        if JS.truthy (Some name)
        then {| name := name; lastModified := lastModified |}
               :: matchObjects (Some contents)
        else matchObjects (Some contents)
    | _, _ => matchObjects (Some contents)
    end.
Proof.
  unfold matchObjects at 1. cbn [fold_left]. rewrite matchObjects_step.
  destruct (Key o) as [n|], (LastModified o) as [d|]; try reflexivity.
  destruct (JS.truthy (Some n)); reflexivity.
Qed.

(** X18. The objects that [getDBEntries] reports are the objects of the
    listing that carry a non-empty key and a date, in the order of the
    listing, under their full keys. *)
Theorem matchObjects_keeps_order (Contents : option (list _Object)) :
  map (fun o => (Some (name o), Some (lastModified o))) (matchObjects Contents)
  = filter (fun kd => JS.truthy kd.1 = true /\ is_Some kd.2)
      (map (fun o => (Key o, LastModified o)) (default [] Contents)).
Proof.
  destruct Contents as [contents|]; [|reflexivity]. cbn [default Datatypes.id].
  induction contents as [|o contents IH]; [reflexivity|].
  rewrite matchObjects_cons. cbn [map]. rewrite filter_cons. cbn [fst snd].
  destruct (Key o) as [n|] eqn:Hn, (LastModified o) as [d|] eqn:Hd.
  - destruct (JS.truthy (Some n)) eqn:Ht.
    + rewrite decide_True by eauto. cbn [map name lastModified]. rewrite IH. reflexivity.
    + rewrite decide_False by (intros [? _]; congruence). exact IH.
  - rewrite decide_False by (intros [_ [? ?]]; congruence). exact IH.
  - rewrite decide_False by (intros [? _]; discriminate). exact IH.
  - rewrite decide_False by (intros [? _]; discriminate). exact IH.
Qed.

Lemma matchObjects_elem o contents :
  o ∈ matchObjects (Some contents) ->
  exists obj, obj ∈ contents /\ Key obj = Some (name o).
Proof.
  induction contents as [|x contents IH]; [intros H; inversion H|].
  rewrite matchObjects_cons. intros H.
  assert (Hrest : o ∈ matchObjects (Some contents) ->
                  exists obj, obj ∈ x :: contents /\ Key obj = Some (name o)).
  { intros Hin. destruct (IH Hin) as (obj & Hobj & Hkey). exists obj. split; [right|]; auto. }
  destruct (Key x) as [n|] eqn:Hn, (LastModified x) as [d|]; auto.
  destruct (JS.truthy (Some n)); auto.
  apply elem_of_cons in H as [->|H]; auto.
  exists x. split; [left|exact Hn].
Qed.

Lemma matchObjects_some_unless_empty l :
  matchObjects (MemS3.some_unless_empty l) = matchObjects (Some l).
Proof. destruct l; reflexivity. Qed.

Lemma folder_key_split c id rest :
  folder_key c id +:+ rest = (c +:+ "/" +:+ id) +:+ "" +:+ String "/" rest.
Proof. unfold folder_key. rewrite !append_assoc. reflexivity. Qed.

(** X19. [getDBDocumentMedia] on the reference store. The listing is asked
    for the prefix [{collection}/{id}] with the delimiter [/], so that the
    folder of the document is rolled up into a common prefix: whatever the
    store holds, no object under [{collection}/{id}/] is ever reported.
    What is reported are objects whose key goes on after [{collection}/{id}]
    without a further slash, the objects of no document. *)
Theorem getDBDocumentMedia_on_store
    (this : S3db) (b c id : string) (w : MemS3.world) (bk : gmap string MemS3.stored) :
  binds this b c ->
  MemS3.buckets w !! b = Some bk ->
  exists found,
    run MemS3.serve (getDBDocumentMedia this id) w
      = (Fulfilled found, w, [ListObjectsV2 b (Some (c +:+ "/" +:+ id)) "/"])
    /\ forall o, o ∈ found ->
         String.prefix (folder_key c id) (name o) = false
         /\ String.prefix (c +:+ "/" +:+ id) (name o) = true
         /\ is_Some (bk !! name o).
Proof.
  intros Hbinds Hbk. pose proof Hbinds as (Hb & Hc & Hbne & Hcne).
  eexists. split.
  - unfold getDBDocumentMedia, getDBCollectionEntries.
    rewrite Hc, invariant_string_some by assumption. to_then. cbn [Promise_then].
    rewrite run_then, (run_getDBEntries MemS3.serve this b) by assumption.
    cbn [MemS3.serve]. unfold MemS3.in_bucket. rewrite Hbk. reflexivity.
  - intros o Hin. cbn [objects default Datatypes.id] in Hin.
    apply list_elem_of_filter in Hin as [_ Hin].
    unfold MemS3.list_objects in Hin. cbn [Contents] in Hin.
    rewrite matchObjects_some_unless_empty in Hin.
    apply matchObjects_elem in Hin as (obj & Hobj & Hkey).
    apply list_elem_of_fmap in Hobj as ([k st] & -> & Hleaf).
    cbn [MemS3.as_object Key fst] in Hkey. injection Hkey as <-.
    apply list_elem_of_filter in Hleaf as [Hroll Hmatch].
    apply list_elem_of_filter in Hmatch as [Hp Hstored].
    apply elem_of_map_to_list in Hstored. cbn [fst] in *.
    split; [|split; [exact Hp|eauto]].
    apply not_true_is_false. intros Hfolder. apply prefix_inv in Hfolder.
    rewrite Hfolder, folder_key_split in Hroll.
    rewrite (rollup_segment (c +:+ "/" +:+ id) "" _ eq_refl) in Hroll. discriminate.
Qed.

(* ===================================================================== *)
(** ** The variants of the sources compared                               *)
(* ===================================================================== *)

(** X20. The three configuration functions. The one of [part_002] is the one
    of [util.ts] without an environment, the one of [s3db.ts] is the one of
    [util.ts] without an argument: they accept the same inputs with the
    same result, and differ in the message of the failure only. *)
Theorem getS3dbConfig_variants (env : ProcessEnv) (args : ConfigArgs) :
  same_outcome (Strict.getS3dbConfigFromEnv args) (getS3dbConfig empty_env (Some args))
  /\ same_outcome (Constructor.getS3dbConfig env) (getS3dbConfig env None).
Proof.
  split.
  - destruct args as [[r|] [k|] [s|]]; unfold Strict.getS3dbConfigFromEnv, getS3dbConfig;
      cbn [awsRegion awsAccessKeyId awsSecretAccessKey with_default empty_env
           S3_DB_REGION S3_DB_ACCESS_KEY_ID S3_DB_SECRET_ACCESS_KEY];
      repeat match goal with |- context [JS.truthy ?o] => destruct (JS.truthy o) end;
      cbn; auto.
  - destruct env as [[r|] [k|] [s|]]; unfold Constructor.getS3dbConfig, getS3dbConfig;
      cbn [awsRegion awsAccessKeyId awsSecretAccessKey with_default
           S3_DB_REGION S3_DB_ACCESS_KEY_ID S3_DB_SECRET_ACCESS_KEY];
      repeat match goal with |- context [JS.truthy ?o] => destruct (JS.truthy o) end;
      cbn; auto.
Qed.

(** X21. The two versions of [uploadDBDocument]. They are the same program
    for every document without an [id] property and for every document
    whose [id] is truthy. *)
Theorem Legacy_uploadDBDocument_agrees (this : S3db) (document : JSON.object) :
  JSON.has "id" document = false \/ JSON.truthy (JSON.get "id" document) = true ->
  Legacy.uploadDBDocument this document = uploadDBDocument this document.
Proof.
  unfold Legacy.uploadDBDocument, uploadDBDocument, JSON.has.
  destruct (JSON.get "id" document) as [v|] eqn:Hget.
  - intros [H|H]; [discriminate|]. rewrite H. reflexivity.
  - intros _. reflexivity.
Qed.

(** X22. Where they differ. For a document whose [id] is present and falsy
    (the empty string, with the declared type) the older version keeps
    that identifier: it puts the body at the key made from it and no
    placeholder, while the current version starts with the placeholder of a
    generated identifier. *)
Theorem Legacy_uploadDBDocument_keeps_falsy_id
    {World : Type} (serve : forall r : request, World -> settled (response r) * World)
    (this : S3db) (b c : string) (document : JSON.object) (v : JSON.value)
    (fresh : string) (w w1 : World) :
  binds this b c ->
  JSON.get "id" document = Some v -> JSON.truthy (Some v) = false ->
  serve Uuid w = (Fulfilled fresh, w1) ->
  (run serve (Legacy.uploadDBDocument this document) w).2
    = [Uuid;
       PutObject b (data_key c (JSON.to_string v))
         (Some (JSON.stringify (JSON.JObj (JSON.set "id" v document)))) None]
  /\ exists t, (run serve (uploadDBDocument this document) w).2
               = Uuid :: PutObject b (folder_key c fresh) None None :: t.
Proof.
  intros Hbinds Hget Hfalsy Huuid. split.
  - unfold Legacy.uploadDBDocument. to_then. rewrite run_then, (run_await serve Uuid), Huuid.
    rewrite Hget. cbn [Promise_then]. rewrite run_then.
    rewrite (run_uploadDBCollectionEntry serve this b c) by assumption. cbv zeta.
    unfold data_key.
    destruct (serve (PutObject b _ _ None) w1) as [[[]|e] w2]; reflexivity.
  - unfold uploadDBDocument. to_then. rewrite run_then, (run_await serve Uuid), Huuid.
    unfold JSON.has. rewrite Hget, Hfalsy. cbn [negb orb]. rewrite !run_then.
    rewrite (run_uploadDBCollectionEntry serve this b c) by assumption. cbv zeta.
    unfold folder_key.
    destruct (serve (PutObject b _ None None) w1) as [[[]|e] w2]; [|eauto].
    cbn [run]. cbv iota beta. rewrite run_then.
    rewrite (run_uploadDBCollectionEntry serve this b c) by assumption. cbv zeta.
    destruct (serve (PutObject b _ _ None) w2) as [[[]|e] w3]; eauto.
Qed.

(** The loop of the older [getDBEntries] over the common prefixes. *)
Lemma Legacy_folders_step (prefixes : list CommonPrefix) (acc : list string) :
  fold_left
    (fun acc p =>
       match Prefix p with
       | Some Prefix => if JS.truthy (Some Prefix) then acc ++ [Prefix] else acc
       | None => acc
       end) prefixes acc
  = acc ++ fold_left
             (fun acc p =>
                match Prefix p with
                | Some Prefix => if JS.truthy (Some Prefix) then acc ++ [Prefix] else acc
                | None => acc
                end) prefixes [].
Proof.
  revert acc. induction prefixes as [|p prefixes IH]; intros acc; cbn [fold_left].
  - rewrite app_nil_r. reflexivity.
  - rewrite IH. rewrite (IH (match Prefix p with Some _ => _ | None => _ end)).
    destruct (Prefix p) as [P|]; [|reflexivity].
    destruct (JS.truthy (Some P)); [rewrite <- app_assoc|]; reflexivity.
Qed.

Lemma matchFolders_of_Legacy prefix (prefixes : list CommonPrefix) (set : list string) :
  fold_left (add_folder prefix) prefixes set
  = fold_left (fun set P => JS.set_add (stripped prefix P) set)
      (fold_left
         (fun acc p =>
            match Prefix p with
            | Some Prefix => if JS.truthy (Some Prefix) then acc ++ [Prefix] else acc
            | None => acc
            end) prefixes [])
      set.
Proof.
  revert set. induction prefixes as [|p prefixes IH]; intros set; cbn [fold_left];
    [reflexivity|].
  rewrite Legacy_folders_step, fold_left_app, IH. f_equal.
  unfold add_folder. destruct (Prefix p) as [P|]; [|reflexivity].
  destruct (JS.truthy (Some P)); reflexivity.
Qed.

(** X23. The two versions of [getDBEntries]. Where the older one resolves,
    the current one resolves as well, after the same request and with the
    same objects; its folder names are the full prefixes of the older one,
    each stripped of the prefix of the listing and cut at the first slash,
    duplicates dropped. *)
Theorem Legacy_getDBEntries_refined
    {World : Type} (serve : forall r : request, World -> settled (response r) * World)
    (this : S3db) (prefix : option string) (w w1 : World) (old : DBEntries)
    (t : list request) :
  run serve (Legacy.getDBEntries this prefix) w = (Fulfilled old, w1, t) ->
  run serve (getDBEntries this prefix) w
  = (Fulfilled
       {| folderNames :=
            fold_left (fun set P => JS.set_add (stripped prefix P) set) (folderNames old) [];
          objects := objects old |}, w1, t).
Proof.
  unfold Legacy.getDBEntries, getDBEntries. to_then. rewrite !invariant_string_if.
  destruct (JS.truthy (bucketName this)); cbn [Promise_then]; [|discriminate].
  rewrite !run_then.
  match goal with |- context [await ?r] => rewrite !(run_await serve r) end.
  destruct (serve _ w) as [[out|e] w2]; [|discriminate].
  destruct (Contents out) as [contents|] eqn:Hc; cbn [invariant_defined Promise_then run];
    [|discriminate].
  destruct (CommonPrefixes out) as [prefixes|] eqn:Hp;
    cbn [invariant_defined Promise_then run]; [|discriminate].
  intros [= <- <- <-]. cbn [folderNames objects matchFolders].
  rewrite matchFolders_of_Legacy. reflexivity.
Qed.

(* ===================================================================== *)
(** ** [streamToString]                                                   *)
(* ===================================================================== *)

Lemma collect_stream_data acc chunks events :
  collect_stream acc (map OnData chunks ++ events) = collect_stream (acc ++ chunks) events.
Proof.
  revert acc. induction chunks as [|chunk chunks IH]; intros acc; cbn [map app collect_stream].
  - rewrite app_nil_r. reflexivity.
  - rewrite IH, <- app_assoc. reflexivity.
Qed.

Lemma concat_chunks_app l1 l2 :
  concat_chunks (l1 ++ l2) = concat_chunks l1 +:+ concat_chunks l2.
Proof.
  induction l1 as [|x l1 IH]; cbn [app concat_chunks]; [reflexivity|].
  rewrite IH, append_assoc. reflexivity.
Qed.

(** X24. [streamToString] settles once, with the first [end] or [error]. A
    stream that ends after its chunks gives their concatenation, whatever
    it emits afterwards and however the text was cut into chunks; a stream
    that fails first gives the failure and drops the chunks; a stream that
    does neither leaves the promise pending. *)
Theorem streamToString_settles_once
    (chunks chunks' : list string) (e : error) (rest : list stream_event) :
  streamToString (map OnData chunks ++ OnEnd :: rest)
    = Some (Fulfilled (concat_chunks chunks))
  /\ streamToString (map OnData chunks ++ OnError e :: rest) = Some (Rejected e)
  /\ streamToString (map OnData chunks) = None
  /\ streamToString (map OnData (chunks ++ chunks') ++ OnEnd :: rest)
     = Some (Fulfilled (concat_chunks chunks +:+ concat_chunks chunks')).
Proof.
  unfold streamToString. repeat split.
  - rewrite collect_stream_data. reflexivity.
  - rewrite collect_stream_data. reflexivity.
  - rewrite <- (app_nil_r (map OnData chunks)), collect_stream_data. reflexivity.
  - rewrite collect_stream_data. cbn [app collect_stream]. rewrite concat_chunks_app.
    reflexivity.
Qed.

(* ===================================================================== *)
(** ** Failures                                                           *)
(* ===================================================================== *)

(** X25. A handle that lacks a name. Listing, reading and deleting are
    refused by an invariant before any request, and the server is left as
    it is; an upload of a document is refused after its identifier has been
    generated and before any put; an upload of media is refused without a
    request when there is a file, and resolves without a check when there
    is none. *)
Theorem unbound_operations_reject
    {World : Type} (serve : forall r : request, World -> settled (response r) * World)
    (this : S3db) (id : string) (mediaNames : list string) (document : JSON.object)
    (file : File.t) (media : list File.t) (w : World) :
  bound this = false ->
  (exists e, precondition_error e
     /\ run serve (getDBDocumentIds this) w = (Rejected e, w, []))
  /\ (exists e, precondition_error e
        /\ run serve (getDBDocumentData this id) w = (Rejected e, w, []))
  /\ (exists e, precondition_error e
        /\ run serve (getDBDocumentMedia this id) w = (Rejected e, w, []))
  /\ (exists e, precondition_error e
        /\ run serve (deleteDBDocumentById this id) w = (Rejected e, w, []))
  /\ (exists e, precondition_error e
        /\ run serve (deleteDBDocumentMedia this id mediaNames) w = (Rejected e, w, []))
  /\ (forall fresh w1,
        serve Uuid w = (Fulfilled fresh, w1) ->
        exists e, precondition_error e
          /\ run serve (uploadDBDocument this document) w = (Rejected e, w1, [Uuid]))
  /\ (exists e, precondition_error e
        /\ run serve (uploadDBDocumentMedia this id (file :: media)) w = (Rejected e, w, []))
  /\ run serve (uploadDBDocumentMedia this id []) w = (Fulfilled (), w, []).
Proof.
  intros Hunbound. repeat split.
  - apply (unbound_getDBDocumentIds serve this Hunbound).
  - apply (unbound_getDBDocumentData serve this Hunbound).
  - apply (unbound_getDBDocumentMedia serve this Hunbound).
  - apply (unbound_deleteDBDocumentById serve this Hunbound).
  - apply (unbound_deleteDBDocumentMedia serve this Hunbound).
  - intros fresh w1. apply (unbound_uploadDBDocument serve this Hunbound).
  - apply (unbound_uploadDBDocumentMedia serve this Hunbound).
Qed.

(** X26. The failures of [getDBDocumentData] on a bound handle, each after
    the one request for [{collection}/{id}/data.json]: a refusal of the
    service is passed on as it is, a response without a body fails the
    invariant on the body, and a body that is not a JSON text fails in
    [JSON.parse]. *)
Theorem getDBDocumentData_failures
    {World : Type} (serve : forall r : request, World -> settled (response r) * World)
    (this : S3db) (b c id : string) (w w1 : World)
    (answer : settled GetObjectOutput) :
  binds this b c ->
  serve (GetObject b (data_key c id)) w = (answer, w1) ->
  (forall e, answer = Rejected e ->
     run serve (getDBDocumentData this id) w
     = (Rejected e, w1, [GetObject b (data_key c id)]))
  /\ (answer = Fulfilled {| Body := None |} ->
      run serve (getDBDocumentData this id) w
      = (Rejected (InvariantFailed "Invalid Body from getDBEntry"), w1,
         [GetObject b (data_key c id)]))
  /\ (forall body, answer = Fulfilled {| Body := Some body |} -> JSON.parse body = None ->
      run serve (getDBDocumentData this id) w
      = (Rejected SyntaxError, w1, [GetObject b (data_key c id)])).
Proof.
  intros Hbinds Hserve.
  pose proof (run_getDBDocumentData serve this b c id w Hbinds) as Hrun. cbv zeta in Hrun.
  unfold data_key in *. rewrite Hserve in Hrun. rewrite Hrun. repeat split.
  - intros e ->. reflexivity.
  - intros ->. reflexivity.
  - intros body -> Hparse. cbn [Body]. rewrite Hparse. reflexivity.
Qed.

(* ===================================================================== *)
(** ** The scenario of section 8 as instances of the theorems             *)
(* ===================================================================== *)

Lemma demo_binds : binds demo_handle "b1" "c1".
Proof. repeat split; discriminate. Defined.

Lemma demo_bucket_bound : MemS3.buckets demo_world !! "b1" = Some demo_bucket.
Proof. vm_compute. reflexivity. Defined.

Lemma uploadDBDocument_writes_witness :
  binds demo_handle "b1" "c1"
  /\ MemS3.buckets demo_world !! "b1" = Some demo_bucket
  /\ id_typed demo_priced_document = true
  /\ id_typed demo_document_with_id = true
  /\ (exists w',
        run MemS3.serve (uploadDBDocument demo_handle demo_priced_document) demo_world
        = (Fulfilled "u0", w',
           [Uuid; PutObject "b1" "c1/u0/" None None;
            PutObject "b1" "c1/u0/data.json"
              (Some (json_text ["{";
                                "    'title': 'A',";
                                "    'price': 1.5,";
                                "    'views': 1e+21,";
                                "    'id': 'u0'";
                                "}"]))
              None])
        /\ MemS3.content <$> MemS3.object_at w' "b1" "c1/u0/data.json"
           = Some (json_text ["{";
                              "    'title': 'A',";
                              "    'price': 1.5,";
                              "    'views': 1e+21,";
                              "    'id': 'u0'";
                              "}"]))
  /\ (exists w',
        run MemS3.serve (uploadDBDocument demo_handle demo_document_with_id) demo_world
        = (Fulfilled "d7", w',
           [Uuid;
            PutObject "b1" "c1/d7/data.json"
              (Some (json_text ["{";
                                "    'id': 'd7',";
                                "    'title': 'B'";
                                "}"]))
              None])
        /\ MemS3.content <$> MemS3.object_at w' "b1" "c1/d7/data.json"
           = Some (json_text ["{";
                              "    'id': 'd7',";
                              "    'title': 'B'";
                              "}"])).
Proof.
  assert (Hfresh : MemS3.uuids demo_world (MemS3.issued demo_world) = "u0")
    by (vm_compute; reflexivity).
  split; [exact demo_binds|]. split; [exact demo_bucket_bound|]. split; [reflexivity|].
  split; [reflexivity|]. split.
  - destruct (uploadDBDocument_writes demo_handle "b1" "c1" demo_priced_document demo_world
                demo_bucket demo_binds demo_bucket_bound eq_refl)
      as (id & stored & w' & t & Hrun & Hstored & _ & _ & Habsent).
    assert (Hno : "id" ∉ map fst demo_priced_document).
    { intros Hin. repeat (apply elem_of_cons in Hin as [Hin|Hin]; [discriminate Hin|]).
      exact (not_elem_of_nil _ Hin). }
    destruct (Habsent Hno) as (Hid & Hst & Ht).
    rewrite Hfresh in Hid, Hst, Ht. subst id stored t.
    assert (Hbody : JSON.stringify
                      (JSON.JObj (demo_priced_document ++ [("id", JSON.JStr "u0")]))
                    = json_text ["{";
                                 "    'title': 'A',";
                                 "    'price': 1.5,";
                                 "    'views': 1e+21,";
                                 "    'id': 'u0'";
                                 "}"]) by (vm_compute; reflexivity).
    rewrite Hbody in Hrun, Hstored. exists w'. split; [exact Hrun|exact Hstored].
  - destruct (uploadDBDocument_writes demo_handle "b1" "c1" demo_document_with_id demo_world
                demo_bucket demo_binds demo_bucket_bound eq_refl)
      as (id & stored & w' & t & Hrun & Hstored & _ & Hfirst & _).
    assert (Hne : "d7" <> "") by discriminate.
    destruct (proj1 (Hfirst [] "d7" [("title", JSON.JStr "B")] eq_refl
                       (not_elem_of_nil "id")) Hne) as (Hid & Hst & Ht).
    subst id stored t.
    assert (Hbody : JSON.stringify (JSON.JObj demo_document_with_id)
                    = json_text ["{";
                                 "    'id': 'd7',";
                                 "    'title': 'B'";
                                 "}"]) by (vm_compute; reflexivity).
    rewrite Hbody in Hrun, Hstored. exists w'. split; [exact Hrun|exact Hstored].
Defined.

Lemma upload_then_get_witness :
  binds demo_handle "b1" "c1"
  /\ MemS3.buckets demo_world !! "b1" = Some demo_bucket
  /\ id_typed demo_priced_document = true
  /\ JSON.wf_object demo_priced_document = true
  /\ JSON.wf_string (MemS3.uuids demo_world (MemS3.issued demo_world)) = true
  /\ exists w1 t1 t2,
       run MemS3.serve (uploadDBDocument demo_handle demo_priced_document) demo_world
         = (Fulfilled "u0", w1, t1)
       /\ run MemS3.serve (getDBDocumentData demo_handle "u0") w1
          = (Fulfilled
               (JSON.JObj
                  [("title", JSON.JStr "A");
                   ("price", JSON.JNum (Number.of_decimal false 15 (-1)));
                   ("views", JSON.JNum (Number.of_decimal false 1 21));
                   ("id", JSON.JStr "u0")]),
             w1, t2).
Proof.
  assert (Hwf : JSON.wf_object demo_priced_document = true) by (vm_compute; reflexivity).
  assert (Hfresh : JSON.wf_string (MemS3.uuids demo_world (MemS3.issued demo_world)) = true)
    by (vm_compute; reflexivity).
  split; [exact demo_binds|]. split; [exact demo_bucket_bound|]. split; [reflexivity|].
  split; [exact Hwf|]. split; [exact Hfresh|].
  destruct (upload_then_get demo_handle "b1" "c1" demo_priced_document demo_world demo_bucket
              demo_binds demo_bucket_bound eq_refl Hwf Hfresh)
    as (id & w1 & t1 & t2 & returned & Hup & Hget & _ & Habsent).
  assert (Hno : "id" ∉ map fst demo_priced_document).
  { intros Hin. repeat (apply elem_of_cons in Hin as [Hin|Hin]; [discriminate Hin|]).
    exact (not_elem_of_nil _ Hin). }
  assert (Hid : id = "u0").
  { assert (H : (run MemS3.serve (uploadDBDocument demo_handle demo_priced_document)
                   demo_world).1.1 = Fulfilled id) by (rewrite Hup; reflexivity).
    vm_compute in H. injection H as <-. reflexivity. }
  rewrite (Habsent Hno), Hid in Hget. rewrite Hid in Hup.
  exists w1, t1, t2. split; [exact Hup|exact Hget].
Defined.

Lemma deleteDBDocumentById_lists_then_deletes_witness :
  binds demo_handle "b1" "c1"
  /\ (run MemS3.serve (deleteDBDocumentById demo_handle "u0") demo_world_with_media).2
     = [ListObjects "b1" "c1/u0/";
        DeleteObjects "b1" [Some "c1/u0/a.png"; Some "c1/u0/data.json"; Some "c1/u0/"]]
  /\ run MemS3.serve (deleteDBDocumentById demo_handle "u1") demo_world_with_media
     = (Rejected (InvariantFailed (nothing_to_delete "u1")), demo_world_with_media,
        [ListObjects "b1" "c1/u1/"]).
Proof.
  split; [exact demo_binds|]. split.
  - rewrite (deleteDBDocumentById_lists_then_deletes MemS3.serve demo_handle "b1" "c1" "u0"
               demo_world_with_media demo_binds).
    vm_compute. reflexivity.
  - rewrite (deleteDBDocumentById_lists_then_deletes MemS3.serve demo_handle "b1" "c1" "u1"
               demo_world_with_media demo_binds).
    vm_compute. reflexivity.
Defined.

Lemma getDBEntries_folder_names_witness :
  bucketName demo_handle = Some "b1" /\ "b1" <> ""
  /\ MemS3.serve (ListObjectsV2 "b1" (Some "c1/") "/") demo_world_with_media
     = (Fulfilled {| Contents := Some [{| Key := Some "c1/"; LastModified := Some 0%Z |}];
                     CommonPrefixes := Some [{| Prefix := Some "c1/u0/" |}] |},
        demo_world_with_media)
  /\ exists es,
       run MemS3.serve (getDBEntries demo_handle (Some "c1/")) demo_world_with_media
         = (Fulfilled es, demo_world_with_media, [ListObjectsV2 "b1" (Some "c1/") "/"])
       /\ NoDup (folderNames es)
       /\ "u0" ∈ folderNames es.
Proof.
  assert (Hserve : MemS3.serve (ListObjectsV2 "b1" (Some "c1/") "/") demo_world_with_media
     = (Fulfilled {| Contents := Some [{| Key := Some "c1/"; LastModified := Some 0%Z |}];
                     CommonPrefixes := Some [{| Prefix := Some "c1/u0/" |}] |},
        demo_world_with_media)) by (vm_compute; reflexivity).
  assert (Hne : "b1" <> "") by discriminate.
  split; [reflexivity|]. split; [exact Hne|]. split; [exact Hserve|].
  destruct (getDBEntries_folder_names MemS3.serve demo_handle "b1" (Some "c1/")
              demo_world_with_media demo_world_with_media _ eq_refl Hne Hserve)
    as (es & Hrun & Hnd & _ & Hnext).
  exists es. split; [exact Hrun|]. split; [exact Hnd|].
  apply (Hnext "u0"); [reflexivity|]. simpl. left.
Defined.

Lemma getDBEntries_missing_sections_witness :
  bucketName demo_handle = Some "b1" /\ "b1" <> ""
  /\ MemS3.serve (ListObjectsV2 "b1" (Some "c1/u1/") "/") demo_world
     = (Fulfilled {| Contents := None; CommonPrefixes := None |}, demo_world)
  /\ run MemS3.serve (getDBEntries demo_handle (Some "c1/u1/")) demo_world
     = (Fulfilled {| folderNames := []; objects := [] |}, demo_world,
        [ListObjectsV2 "b1" (Some "c1/u1/") "/"]).
Proof.
  assert (Hserve : MemS3.serve (ListObjectsV2 "b1" (Some "c1/u1/") "/") demo_world
     = (Fulfilled {| Contents := None; CommonPrefixes := None |}, demo_world))
    by (vm_compute; reflexivity).
  assert (Hne : "b1" <> "") by discriminate.
  split; [reflexivity|]. split; [exact Hne|]. split; [exact Hserve|].
  destruct (getDBEntries_missing_sections MemS3.serve demo_handle "b1" (Some "c1/u1/")
              demo_world demo_world _ eq_refl Hne Hserve (or_introl eq_refl))
    as ([fs os] & Hrun & Hobjects & Hfolders & _).
  rewrite Hrun. simpl in Hobjects, Hfolders.
  rewrite (Hobjects eq_refl), (Hfolders eq_refl). reflexivity.
Defined.

Lemma getS3dbConfig_resolution_witness :
  getS3dbConfig demo_env_other
    (Some {| awsRegion := Some "eu-west-1"; awsAccessKeyId := Some "AKIA";
             awsSecretAccessKey := Some "secret" |})
  = Fulfilled {| region := "eu-west-1";
                 credentials := {| accessKeyId := "AKIA"; secretAccessKey := "secret" |} |}
  /\ getS3dbConfig demo_env_other
       (Some {| awsRegion := Some "eu-west-1"; awsAccessKeyId := None;
                awsSecretAccessKey := None |})
     = Fulfilled {| region := "eu-west-1";
                    credentials := {| accessKeyId := "ENVKEY";
                                      secretAccessKey := "envsecret" |} |}
  /\ getS3dbConfig demo_env_other None
     = Fulfilled {| region := "us-east-1";
                    credentials := {| accessKeyId := "ENVKEY";
                                      secretAccessKey := "envsecret" |} |}
  /\ getS3dbConfig demo_env_other
       (Some {| awsRegion := Some ""; awsAccessKeyId := Some "AKIA";
                awsSecretAccessKey := Some "secret" |})
     = Rejected (InvariantFailed config_message)
  /\ getS3dbConfig empty_env None = Rejected (InvariantFailed config_message)
  /\ run MemS3.serve (README_initialize empty_env None "b1" "c1") MemS3.empty
     = (Rejected (InvariantFailed config_message), MemS3.empty, []).
Proof.
  assert (Ha : "eu-west-1" <> "") by discriminate.
  assert (Hb : "AKIA" <> "") by discriminate.
  assert (Hc : "secret" <> "") by discriminate.
  assert (Hd : "us-east-1" <> "") by discriminate.
  assert (He : "ENVKEY" <> "") by discriminate.
  assert (Hf : "envsecret" <> "") by discriminate.
  split; [|split; [|split; [|split; [|split]]]].
  - exact (proj2 (getS3dbConfig_resolution demo_env_other
                    (Some {| awsRegion := Some "eu-west-1"; awsAccessKeyId := Some "AKIA";
                             awsSecretAccessKey := Some "secret" |})
                    (Some "eu-west-1") (Some "AKIA") (Some "secret") eq_refl eq_refl eq_refl)
             "eu-west-1" "AKIA" "secret" eq_refl Ha eq_refl Hb eq_refl Hc).
  - exact (proj2 (getS3dbConfig_resolution demo_env_other
                    (Some {| awsRegion := Some "eu-west-1"; awsAccessKeyId := None;
                             awsSecretAccessKey := None |})
                    (Some "eu-west-1") (Some "ENVKEY") (Some "envsecret")
                    eq_refl eq_refl eq_refl)
             "eu-west-1" "ENVKEY" "envsecret" eq_refl Ha eq_refl He eq_refl Hf).
  - exact (proj2 (getS3dbConfig_resolution demo_env_other None
                    (Some "us-east-1") (Some "ENVKEY") (Some "envsecret")
                    eq_refl eq_refl eq_refl)
             "us-east-1" "ENVKEY" "envsecret" eq_refl Hd eq_refl He eq_refl Hf).
  - exact (proj1 (proj1 (getS3dbConfig_resolution demo_env_other
                           (Some {| awsRegion := Some ""; awsAccessKeyId := Some "AKIA";
                                    awsSecretAccessKey := Some "secret" |})
                           (Some "") (Some "AKIA") (Some "secret") eq_refl eq_refl eq_refl)
                    (or_intror (or_introl eq_refl)))).
  - exact (proj1 (proj1 (getS3dbConfig_resolution empty_env None None None None
                           eq_refl eq_refl eq_refl)
                    (or_introl eq_refl))).
  - exact (proj2 (proj1 (getS3dbConfig_resolution empty_env None None None None
                           eq_refl eq_refl eq_refl)
                    (or_introl eq_refl))
             MemS3.world MemS3.serve "b1" "c1" MemS3.empty).
Defined.

Lemma getDBDocumentData_any_json_witness :
  binds demo_handle "b1" "c1"
  /\ MemS3.serve (GetObject "b1" "c1/n/data.json") demo_world_number
     = (Fulfilled {| Body := Some "42" |}, demo_world_number)
  /\ JSON.parse "42" = Some (JSON.JNum (Number.of_Z 42))
  /\ run MemS3.serve (getDBDocumentData demo_handle "n") demo_world_number
     = (Fulfilled (JSON.JNum (Number.of_Z 42)), demo_world_number,
        [GetObject "b1" "c1/n/data.json"])
  /\ MemS3.serve (GetObject "b1" "c1/f/data.json") demo_world_fraction
     = (Fulfilled {| Body := Some "1.5" |}, demo_world_fraction)
  /\ JSON.parse "1.5" = Some (JSON.JNum (Number.of_decimal false 15 (-1)))
  /\ run MemS3.serve (getDBDocumentData demo_handle "f") demo_world_fraction
     = (Fulfilled (JSON.JNum (Number.of_decimal false 15 (-1))), demo_world_fraction,
        [GetObject "b1" "c1/f/data.json"]).
Proof.
  assert (Hserve : MemS3.serve (GetObject "b1" "c1/n/data.json") demo_world_number
     = (Fulfilled {| Body := Some "42" |}, demo_world_number)) by (vm_compute; reflexivity).
  assert (Hparse : JSON.parse "42" = Some (JSON.JNum (Number.of_Z 42)))
    by (vm_compute; reflexivity).
  assert (Hserve' : MemS3.serve (GetObject "b1" "c1/f/data.json") demo_world_fraction
     = (Fulfilled {| Body := Some "1.5" |}, demo_world_fraction))
    by (vm_compute; reflexivity).
  assert (Hparse' : JSON.parse "1.5" = Some (JSON.JNum (Number.of_decimal false 15 (-1))))
    by (vm_compute; reflexivity).
  split; [exact demo_binds|]. split; [exact Hserve|]. split; [exact Hparse|].
  split; [|split; [exact Hserve'|split; [exact Hparse'|]]].
  - exact (getDBDocumentData_any_json MemS3.serve demo_handle "b1" "c1" "n" "42"
             (JSON.JNum (Number.of_Z 42)) demo_world_number demo_world_number demo_binds
             Hserve Hparse).
  - exact (getDBDocumentData_any_json MemS3.serve demo_handle "b1" "c1" "f" "1.5"
             (JSON.JNum (Number.of_decimal false 15 (-1))) demo_world_fraction
             demo_world_fraction demo_binds Hserve' Hparse').
Defined.

(* ===================================================================== *)
(** ** Further instances on the scenario of section 8                     *)
(* ===================================================================== *)

Lemma demo_bucket_with_media_bound :
  MemS3.buckets demo_world_with_media !! "b1" = Some demo_bucket_with_media.
Proof. vm_compute. reflexivity. Defined.

Lemma initialize_handle_witness :
  run MemS3.serve (initialize demo_config "b1" "c1") MemS3.empty
    = (Fulfilled demo_handle, demo_world,
       [ListBuckets; CreateBucket "b1"; ListObjectsV2 "b1" None "/";
        PutObject "b1" "c1/" None None])
  /\ demo_handle = handle_of "b1" "c1" /\ "b1" <> ""
  /\ (bound demo_handle = true <-> "c1" <> "").
Proof.
  assert (Hrun : run MemS3.serve (initialize demo_config "b1" "c1") MemS3.empty
    = (Fulfilled demo_handle, demo_world,
       [ListBuckets; CreateBucket "b1"; ListObjectsV2 "b1" None "/";
        PutObject "b1" "c1/" None None])) by (vm_compute; reflexivity).
  split; [exact Hrun|].
  destruct (initialize_handle MemS3.serve demo_config "b1" "c1" MemS3.empty demo_world
              demo_handle _ Hrun) as (Hh & Hb & Hbound & _).
  auto.
Defined.

Lemma initialize_nothing_missing_witness :
  MemS3.serve ListBuckets demo_world
    = (Fulfilled {| Buckets := Some [{| Name := Some "b1" |}] |}, demo_world)
  /\ MemS3.serve (ListObjectsV2 "b1" None "/") demo_world
     = (Fulfilled {| Contents := None;
                     CommonPrefixes := Some [{| Prefix := Some "c1/" |}] |}, demo_world)
  /\ run MemS3.serve (initialize demo_config "b1" "c1") demo_world
     = (Fulfilled (handle_of "b1" "c1"), demo_world,
        [ListBuckets; ListObjectsV2 "b1" None "/"])
  /\ run MemS3.serve (Strict.initialize demo_config "b1" "c1") demo_world
     = (Fulfilled (handle_of "b1" "c1"), demo_world,
        [ListBuckets; ListObjectsV2 "b1" None "/"]).
Proof.
  assert (H1 : MemS3.serve ListBuckets demo_world
    = (Fulfilled {| Buckets := Some [{| Name := Some "b1" |}] |}, demo_world))
    by (vm_compute; reflexivity).
  assert (H2 : MemS3.serve (ListObjectsV2 "b1" None "/") demo_world
     = (Fulfilled {| Contents := None;
                     CommonPrefixes := Some [{| Prefix := Some "c1/" |}] |}, demo_world))
    by (vm_compute; reflexivity).
  assert (Hb : "b1" <> "") by discriminate.
  assert (Hc : "c1" <> "") by discriminate.
  assert (Hin : {| Name := Some "b1" |}
                ∈ default [] (Buckets {| Buckets := Some [{| Name := Some "b1" |}] |}))
    by (cbn; left).
  assert (Hin2 : {| Prefix := Some ("c1" +:+ "/") |}
                 ∈ default [] (CommonPrefixes
                      {| Contents := None;
                         CommonPrefixes := Some [{| Prefix := Some "c1/" |}] |}))
    by (cbn; left).
  split; [exact H1|]. split; [exact H2|].
  exact (initialize_nothing_missing MemS3.serve demo_config "b1" "c1" demo_world demo_world
           demo_world _ _ Hb Hc eq_refl H1 Hin H2 Hin2).
Defined.

Lemma Strict_initialize_refines_witness :
  run MemS3.serve (Strict.initialize demo_config "b1" "c1") demo_world
    = (Fulfilled demo_handle, demo_world, [ListBuckets; ListObjectsV2 "b1" None "/"])
  /\ run MemS3.serve (initialize demo_config "b1" "c1") demo_world
     = (Fulfilled demo_handle, demo_world, [ListBuckets; ListObjectsV2 "b1" None "/"]).
Proof.
  assert (Hrun : run MemS3.serve (Strict.initialize demo_config "b1" "c1") demo_world
    = (Fulfilled demo_handle, demo_world, [ListBuckets; ListObjectsV2 "b1" None "/"]))
    by (vm_compute; reflexivity).
  split; [exact Hrun|].
  apply (Strict_initialize_refines MemS3.serve demo_config "b1" "c1" demo_world demo_world
           demo_handle _ Hrun).
Defined.

Lemma initialize_unlistable_collection_witness :
  JS.contains "/" "a/b" = true
  /\ (exists e, (run MemS3.serve (Strict.initialize demo_config "b1" "a/b") demo_world).1.1
                = Rejected e)
  /\ (forall h w1 t,
        run MemS3.serve (initialize demo_config "b1" "a/b") demo_world
          = (Fulfilled h, w1, t) ->
        last t = Some (PutObject "b1" "a/b/" None None)).
Proof.
  split; [reflexivity|].
  apply (initialize_unlistable_collection MemS3.serve demo_config "b1" "a/b" demo_world).
  right. reflexivity.
Defined.

Lemma initialize_twice_witness :
  "b1" <> "" /\ "c1" <> "" /\ JS.contains "/" "c1" = false
  /\ exists w1 t,
       run MemS3.serve (initialize demo_config "b1" "c1") MemS3.empty
         = (Fulfilled (handle_of "b1" "c1"), w1, t)
       /\ run MemS3.serve (initialize demo_config "b1" "c1") w1
          = (Fulfilled (handle_of "b1" "c1"), w1,
             [ListBuckets; ListObjectsV2 "b1" None "/"]).
Proof.
  assert (Hb : "b1" <> "") by discriminate.
  assert (Hc : "c1" <> "") by discriminate.
  split; [exact Hb|]. split; [exact Hc|]. split; [reflexivity|].
  exact (initialize_twice demo_config "b1" "c1" MemS3.empty Hb Hc eq_refl).
Defined.

Lemma getDBDocumentIds_on_store_witness :
  binds demo_handle "b1" "c1"
  /\ MemS3.buckets demo_world_with_media !! "b1" = Some demo_bucket_with_media
  /\ exists ids,
       run MemS3.serve (getDBDocumentIds demo_handle) demo_world_with_media
         = (Fulfilled ids, demo_world_with_media, [ListObjectsV2 "b1" (Some "c1/") "/"])
       /\ NoDup ids
       /\ "u0" ∈ ids.
Proof.
  split; [exact demo_binds|]. split; [exact demo_bucket_with_media_bound|].
  destruct (getDBDocumentIds_on_store demo_handle "b1" "c1" demo_world_with_media
              demo_bucket_with_media demo_binds demo_bucket_with_media_bound)
    as (ids & Hrun & Hnodup & Hids).
  exists ids. split; [exact Hrun|]. split; [exact Hnodup|].
  apply Hids. split; [reflexivity|].
  assert (Hk : is_Some (demo_bucket_with_media !! "c1/u0/data.json")).
  { apply (proj2 (is_Some_alt _)). vm_compute. exact I. }
  destruct Hk as [o Ho]. exists "data.json", o. exact Ho.
Defined.

Lemma uploadDBDocument_frame_witness :
  binds demo_handle "b1" "c1"
  /\ MemS3.buckets demo_world !! "b1" = Some demo_bucket
  /\ id_typed demo_document = true
  /\ MemS3.object_at
       (run MemS3.serve (uploadDBDocument demo_handle demo_document) demo_world).1.2
       "b1" "c1/"
     = MemS3.object_at demo_world "b1" "c1/".
Proof.
  split; [exact demo_binds|]. split; [exact demo_bucket_bound|]. split; [reflexivity|].
  apply (uploadDBDocument_frame demo_handle "b1" "c1" demo_document demo_world demo_bucket
           "b1" "c1/" demo_binds demo_bucket_bound eq_refl).
  - intros H. vm_compute in H. discriminate H.
  - intros H. vm_compute in H. discriminate H.
Defined.

Lemma upload_then_listed_witness :
  binds demo_handle "b1" "c1"
  /\ MemS3.buckets demo_world !! "b1" = Some demo_bucket
  /\ id_typed demo_document = true
  /\ exists id w1 t1 ids t2,
       run MemS3.serve (uploadDBDocument demo_handle demo_document) demo_world
         = (Fulfilled id, w1, t1)
       /\ run MemS3.serve (getDBDocumentIds demo_handle) w1 = (Fulfilled ids, w1, t2)
       /\ (id ∈ ids <-> JS.contains "/" id = false)
       /\ first_segment id ∈ ids.
Proof.
  split; [exact demo_binds|]. split; [exact demo_bucket_bound|]. split; [reflexivity|].
  exact (upload_then_listed demo_handle "b1" "c1" demo_document demo_world demo_bucket
           demo_binds demo_bucket_bound eq_refl).
Defined.

Lemma deleteDBDocumentById_removes_document_witness :
  binds demo_handle "b1" "c1"
  /\ MemS3.buckets demo_world_with_media !! "b1" = Some demo_bucket_with_media
  /\ String.prefix (folder_key "c1" "u0") "c1/u0/a.png" = true
  /\ is_Some (demo_bucket_with_media !! "c1/u0/a.png")
  /\ exists w1 t,
       run MemS3.serve (deleteDBDocumentById demo_handle "u0") demo_world_with_media
         = (Fulfilled (), w1, t)
       /\ MemS3.object_at w1 "b1" "c1/u0/a.png" = None
       /\ MemS3.object_at w1 "b1" "c1/" = MemS3.object_at demo_world_with_media "b1" "c1/"
       /\ run MemS3.serve (getDBDocumentData demo_handle "u0") w1
          = (Rejected (ServiceException "NoSuchKey"), w1,
             [GetObject "b1" (data_key "c1" "u0")]).
Proof.
  assert (Hsome : is_Some (demo_bucket_with_media !! "c1/u0/a.png")).
  { apply (proj2 (is_Some_alt _)). vm_compute. exact I. }
  split; [exact demo_binds|]. split; [exact demo_bucket_with_media_bound|].
  split; [reflexivity|]. split; [exact Hsome|].
  destruct (deleteDBDocumentById_removes_document demo_handle "b1" "c1" "u0"
              demo_world_with_media demo_bucket_with_media "c1/u0/a.png" demo_binds
              demo_bucket_with_media_bound eq_refl Hsome)
    as (w1 & t & Hrun & Hstore & Hget & _).
  exists w1, t. split; [exact Hrun|]. split; [|split; [|exact Hget]].
  - rewrite Hstore. reflexivity.
  - rewrite Hstore. reflexivity.
Defined.

Lemma deleteDBDocumentMedia_on_store_witness :
  binds demo_handle "b1" "c1"
  /\ MemS3.buckets demo_world_with_media !! "b1" = Some demo_bucket_with_media
  /\ ["a.png"] <> []
  /\ (exists w1 t,
        run MemS3.serve (deleteDBDocumentMedia demo_handle "u0" ["a.png"])
          demo_world_with_media = (Fulfilled (), w1, t)
        /\ MemS3.object_at w1 "b1" (media_key "c1" "u0" "a.png") = None
        /\ MemS3.object_at w1 "b1" (data_key "c1" "u0")
           = MemS3.object_at demo_world_with_media "b1" (data_key "c1" "u0"))
  /\ run MemS3.serve (deleteDBDocumentMedia demo_handle "u0" []) demo_world_with_media
     = (Rejected (ServiceException "MalformedXML"), demo_world_with_media,
        [DeleteObjects "b1" []]).
Proof.
  assert (Hne : ["a.png"] <> []) by discriminate.
  split; [exact demo_binds|]. split; [exact demo_bucket_with_media_bound|].
  split; [exact Hne|]. split.
  - destruct (proj2 (deleteDBDocumentMedia_on_store demo_handle "b1" "c1" "u0" ["a.png"]
                       demo_world_with_media demo_bucket_with_media demo_binds
                       demo_bucket_with_media_bound) Hne)
      as (w1 & t & Hrun & Hgone & Hframe & _).
    exists w1, t. split; [exact Hrun|]. split.
    + apply Hgone. left.
    + apply Hframe. intros name Hname. apply list_elem_of_singleton in Hname as ->.
      intros H. vm_compute in H. discriminate H.
  - exact (proj1 (deleteDBDocumentMedia_on_store demo_handle "b1" "c1" "u0" []
                    demo_world_with_media demo_bucket_with_media demo_binds
                    demo_bucket_with_media_bound) eq_refl).
Defined.

Lemma uploadDBDocumentMedia_settles_all_witness :
  binds demo_handle "b1" "c1"
  /\ (run MemS3.serve (uploadDBDocumentMedia demo_handle "u0" demo_media) demo_world).2
     = [PutObject "b1" "c1/u0/a.png" (Some "PNG") (Some "image/png")]
  /\ (run MemS3.serve (uploadDBDocumentMedia demo_handle "u0" demo_media) demo_world).1.1
     = Fulfilled ().
Proof.
  split; [exact demo_binds|].
  destruct (uploadDBDocumentMedia_settles_all MemS3.serve demo_handle "b1" "c1" "u0"
              demo_media demo_world demo_binds) as (Htrace & _ & _ & Hok & _).
  split; [rewrite Htrace; reflexivity|].
  apply Hok. vm_compute. repeat constructor.
Defined.

Lemma uploadDBDocumentMedia_on_store_witness :
  binds demo_handle "b1" "c1"
  /\ MemS3.buckets demo_world !! "b1" = Some demo_bucket
  /\ NoDup (map File.name demo_media)
  /\ exists w1 o,
       run MemS3.serve (uploadDBDocumentMedia demo_handle "u0" demo_media) demo_world
         = (Fulfilled (), w1, map (media_put "b1" "c1" "u0") demo_media)
       /\ MemS3.object_at w1 "b1" (media_key "c1" "u0" "a.png") = Some o
       /\ MemS3.content o = "PNG"
       /\ MemS3.contentType o = Some "image/png".
Proof.
  assert (Hnodup : NoDup (map File.name demo_media)) by (apply NoDup_singleton).
  split; [exact demo_binds|]. split; [exact demo_bucket_bound|]. split; [exact Hnodup|].
  destruct (uploadDBDocumentMedia_on_store demo_handle "b1" "c1" "u0" demo_media demo_world
              demo_bucket demo_binds demo_bucket_bound Hnodup)
    as (w1 & Hrun & Hstored & _).
  destruct (Hstored {| File.name := "a.png"; File.bytes := "PNG" |}) as (o & Ho & Hc & Ht);
    [left|].
  exists w1, o. auto.
Defined.

Lemma uploadDBDocumentWithMedia_on_store_witness :
  binds demo_handle "b1" "c1"
  /\ MemS3.buckets demo_world !! "b1" = Some demo_bucket
  /\ id_typed demo_priced_document = true
  /\ JSON.wf_object demo_priced_document = true
  /\ JSON.wf_string (MemS3.uuids demo_world (MemS3.issued demo_world)) = true
  /\ NoDup (map File.name demo_media)
  /\ exists w1 t t2 o,
       run MemS3.serve (uploadDBDocumentWithMedia demo_handle demo_priced_document demo_media)
         demo_world = (Fulfilled "u0", w1, t)
       /\ run MemS3.serve (getDBDocumentData demo_handle "u0") w1
          = (Fulfilled
               (JSON.JObj
                  [("title", JSON.JStr "A");
                   ("price", JSON.JNum (Number.of_decimal false 15 (-1)));
                   ("views", JSON.JNum (Number.of_decimal false 1 21));
                   ("id", JSON.JStr "u0")]),
             w1, t2)
       /\ MemS3.object_at w1 "b1" (media_key "c1" "u0" "a.png") = Some o
       /\ MemS3.content o = "PNG".
Proof.
  assert (Hwf : JSON.wf_object demo_priced_document = true) by (vm_compute; reflexivity).
  assert (Hfresh : JSON.wf_string (MemS3.uuids demo_world (MemS3.issued demo_world)) = true)
    by (vm_compute; reflexivity).
  assert (Hnodup : NoDup (map File.name demo_media)) by (apply NoDup_singleton).
  assert (Hnames : forall file, file ∈ demo_media -> File.name file <> "data.json").
  { intros file Hin. apply list_elem_of_singleton in Hin as ->. discriminate. }
  split; [exact demo_binds|]. split; [exact demo_bucket_bound|]. split; [reflexivity|].
  split; [exact Hwf|]. split; [exact Hfresh|]. split; [exact Hnodup|].
  destruct (uploadDBDocumentWithMedia_on_store demo_handle "b1" "c1" demo_priced_document
              demo_media demo_world demo_bucket demo_binds demo_bucket_bound eq_refl
              Hwf Hfresh Hnodup Hnames)
    as (id & w1 & t & t2 & Hrun & -> & Hget & Hstored).
  destruct (Hstored {| File.name := "a.png"; File.bytes := "PNG" |}) as (o & Ho & Hc);
    [left|].
  exists w1, t, t2, o. auto.
Defined.

Lemma getDBDocumentMedia_on_store_witness :
  binds demo_handle "b1" "c1"
  /\ MemS3.buckets demo_world_with_media !! "b1" = Some demo_bucket_with_media
  /\ exists found,
       run MemS3.serve (getDBDocumentMedia demo_handle "u0") demo_world_with_media
         = (Fulfilled found, demo_world_with_media,
            [ListObjectsV2 "b1" (Some "c1/u0") "/"])
       /\ forall o, o ∈ found -> String.prefix "c1/u0/" (name o) = false.
Proof.
  split; [exact demo_binds|]. split; [exact demo_bucket_with_media_bound|].
  destruct (getDBDocumentMedia_on_store demo_handle "b1" "c1" "u0" demo_world_with_media
              demo_bucket_with_media demo_binds demo_bucket_with_media_bound)
    as (found & Hrun & Hfound).
  exists found. split; [exact Hrun|]. intros o Ho. apply (Hfound o Ho).
Defined.

Lemma Legacy_uploadDBDocument_agrees_witness :
  JSON.has "id" demo_document = false
  /\ Legacy.uploadDBDocument demo_handle demo_document
     = uploadDBDocument demo_handle demo_document.
Proof.
  split; [reflexivity|].
  apply (Legacy_uploadDBDocument_agrees demo_handle demo_document). left. reflexivity.
Defined.

Lemma Legacy_uploadDBDocument_keeps_falsy_id_witness :
  binds demo_handle "b1" "c1"
  /\ JSON.get "id" demo_document_empty_id = Some (JSON.JStr "")
  /\ JSON.truthy (Some (JSON.JStr "")) = false
  /\ MemS3.serve Uuid demo_world = (Fulfilled "u0", (MemS3.serve Uuid demo_world).2)
  /\ (run MemS3.serve (Legacy.uploadDBDocument demo_handle demo_document_empty_id)
        demo_world).2
     = [Uuid;
        PutObject "b1" "c1//data.json"
          (Some (JSON.stringify (JSON.JObj demo_document_empty_id))) None]
  /\ exists t,
       (run MemS3.serve (uploadDBDocument demo_handle demo_document_empty_id) demo_world).2
       = Uuid :: PutObject "b1" "c1/u0/" None None :: t.
Proof.
  assert (Huuid : MemS3.serve Uuid demo_world
                  = (Fulfilled "u0", (MemS3.serve Uuid demo_world).2))
    by (vm_compute; reflexivity).
  split; [exact demo_binds|]. split; [reflexivity|]. split; [reflexivity|].
  split; [exact Huuid|].
  exact (Legacy_uploadDBDocument_keeps_falsy_id MemS3.serve demo_handle "b1" "c1"
           demo_document_empty_id (JSON.JStr "") "u0" demo_world _ demo_binds eq_refl
           eq_refl Huuid).
Defined.

Lemma Legacy_getDBEntries_refined_witness :
  run MemS3.serve (Legacy.getDBEntries demo_handle (Some "c1/")) demo_world_with_media
    = (Fulfilled {| folderNames := ["c1/u0/"];
                    objects := [{| name := "c1/"; lastModified := 0%Z |}] |},
       demo_world_with_media, [ListObjectsV2 "b1" (Some "c1/") "/"])
  /\ run MemS3.serve (getDBEntries demo_handle (Some "c1/")) demo_world_with_media
     = (Fulfilled {| folderNames := ["u0"];
                     objects := [{| name := "c1/"; lastModified := 0%Z |}] |},
        demo_world_with_media, [ListObjectsV2 "b1" (Some "c1/") "/"]).
Proof.
  assert (Hold : run MemS3.serve (Legacy.getDBEntries demo_handle (Some "c1/"))
                   demo_world_with_media
    = (Fulfilled {| folderNames := ["c1/u0/"];
                    objects := [{| name := "c1/"; lastModified := 0%Z |}] |},
       demo_world_with_media, [ListObjectsV2 "b1" (Some "c1/") "/"]))
    by (vm_compute; reflexivity).
  split; [exact Hold|].
  rewrite (Legacy_getDBEntries_refined MemS3.serve demo_handle (Some "c1/")
             demo_world_with_media demo_world_with_media _ _ Hold).
  reflexivity.
Defined.

Lemma unbound_operations_reject_witness :
  bound demo_handle_unbound = false
  /\ run MemS3.serve (getDBDocumentIds demo_handle_unbound) demo_world
     = (Rejected (InvariantFailed "Invalid collectionName"), demo_world, [])
  /\ run MemS3.serve (uploadDBDocumentMedia demo_handle_unbound "u0" []) demo_world
     = (Fulfilled (), demo_world, []).
Proof.
  split; [reflexivity|].
  destruct (unbound_operations_reject MemS3.serve demo_handle_unbound "u0" [] demo_document
              {| File.name := "a.png"; File.bytes := "PNG" |} [] demo_world eq_refl)
    as ((e & _ & Hids) & _ & _ & _ & _ & _ & _ & Hnone).
  split; [|exact Hnone].
  rewrite Hids. cbn in Hids. injection Hids as <-. reflexivity.
Defined.

Lemma getDBDocumentData_failures_witness :
  binds demo_handle "b1" "c1"
  /\ MemS3.serve (GetObject "b1" (data_key "c1" "zz")) demo_world
     = (Rejected (ServiceException "NoSuchKey"), demo_world)
  /\ run MemS3.serve (getDBDocumentData demo_handle "zz") demo_world
     = (Rejected (ServiceException "NoSuchKey"), demo_world,
        [GetObject "b1" (data_key "c1" "zz")])
  /\ MemS3.serve (GetObject "b1" (data_key "c1" "g")) demo_world_garbled
     = (Fulfilled {| Body := Some "{oops" |}, demo_world_garbled)
  /\ JSON.parse "{oops" = None
  /\ run MemS3.serve (getDBDocumentData demo_handle "g") demo_world_garbled
     = (Rejected SyntaxError, demo_world_garbled, [GetObject "b1" (data_key "c1" "g")]).
Proof.
  assert (Hserve : MemS3.serve (GetObject "b1" (data_key "c1" "zz")) demo_world
     = (Rejected (ServiceException "NoSuchKey"), demo_world)) by (vm_compute; reflexivity).
  assert (Hserve' : MemS3.serve (GetObject "b1" (data_key "c1" "g")) demo_world_garbled
     = (Fulfilled {| Body := Some "{oops" |}, demo_world_garbled))
    by (vm_compute; reflexivity).
  assert (Hparse : JSON.parse "{oops" = None) by (vm_compute; reflexivity).
  split; [exact demo_binds|]. split; [exact Hserve|]. split; [|split; [exact Hserve'|split;
    [exact Hparse|]]].
  - destruct (getDBDocumentData_failures MemS3.serve demo_handle "b1" "c1" "zz" demo_world
                demo_world _ demo_binds Hserve) as (Hrefused & _ & _).
    apply Hrefused. reflexivity.
  - destruct (getDBDocumentData_failures MemS3.serve demo_handle "b1" "c1" "g"
                demo_world_garbled demo_world_garbled _ demo_binds Hserve')
      as (_ & _ & Hsyntax).
    exact (Hsyntax "{oops" eq_refl Hparse).
Defined.
